(** * The FLO-2D driver of MDAL, embedded in Rocq

    A shallow embedding of [mdal/frmts/mdal_flo2d.cpp]: the sentinel codec,
    the geometry reconstruction (cell centres, connectivity, cell size, mesh
    with deduplicated vertices), the text readers, the reader and the writer
    of the hierarchical binary store, and the load and persist drivers.

    C++ [double] is the binary64 format of IEEE 754, taken from the
    executable specification [SpecFloat] of the standard library; [float] is
    binary32.  A thrown status code, a failed assertion and an access outside
    a buffer are the three ways a call ends without a value. *)

From Stdlib Require Import ZArith List String Ascii Bool Lia PeanoNat.
From Stdlib Require Import DecimalString.
From Stdlib Require Import Floats.SpecFloat.
Import ListNotations.

Set Implicit Arguments.

Local Open Scope Z_scope.

(** ** IEEE 754 numbers *)

Module Double.

Definition prec : Z := 53.
Definition emax : Z := 1024.

Definition double : Type := spec_float.

Definition add : double -> double -> double := SFadd prec emax.
Definition sub : double -> double -> double := SFsub prec emax.
Definition mul : double -> double -> double := SFmul prec emax.
Definition div : double -> double -> double := SFdiv prec emax.
Definition fabs : double -> double := SFabs.
Definition ltb : double -> double -> bool := SFltb.
Definition leb : double -> double -> bool := SFleb.
Definition eqb : double -> double -> bool := SFeqb.

Definition isnan (d : double) : bool :=
  match d with S754_nan => true | _ => false end.

(** An integer literal of the source, rounded to the nearest double. *)
Definition of_Z (z : Z) : double := binary_normalize prec emax z 0 false.

Definition zero : double := S754_zero false.
Definition nan : double := S754_nan.

End Double.

Module Float32.

Definition prec : Z := 24.
Definition emax : Z := 128.

Definition float : Type := spec_float.

Definition zero : float := S754_zero false.

(** [static_cast<float>( d )]: round to nearest, ties to even. *)
Definition of_double (d : Double.double) : float :=
  match d with
  | S754_finite s m e => binary_normalize prec emax (cond_Zopp s (Zpos m)) e s
  | _ => d
  end.

(** [static_cast<double>( f )]: exact, only the mantissa is realigned. *)
Definition to_double (f : float) : Double.double :=
  match f with
  | S754_finite s m e =>
      binary_normalize Double.prec Double.emax (cond_Zopp s (Zpos m)) e s
  | _ => f
  end.

End Float32.

Abbreviation double := Double.double.
Abbreviation float := Float32.float.

(** ** Outcomes of a call *)

Inductive MDAL_Status : Type :=
| Status_None
| Err_FileNotFound
| Err_UnknownFormat
| Err_IncompatibleMesh
| Err_InvalidData.

(** [Throw e] is [throw e]; [AssertFailed] is a violated [assert]; [Undefined]
    is an access outside a vector or a buffer, or a signed overflow. *)
Inductive outcome (A : Type) : Type :=
| Ok (a : A)
| Throw (e : MDAL_Status)
| AssertFailed
| Undefined.

Arguments Ok {A} a.
Arguments Throw {A} e.
Arguments AssertFailed {A}.
Arguments Undefined {A}.

Definition bind {A B : Type} (c : outcome A) (k : A -> outcome B) : outcome B :=
  match c with
  | Ok a => k a
  | Throw e => Throw e
  | AssertFailed => AssertFailed
  | Undefined => Undefined
  end.

Notation "x <- c ;; k" := (bind c (fun x => k))
  (at level 61, c at next level, right associativity).
Notation "' p <- c ;; k" := (bind c (fun x => let 'p := x in k))
  (at level 61, p pattern, c at next level, right associativity).

(** [v[i]] on a vector. *)
Definition at_index {A : Type} (v : list A) (i : nat) : outcome A :=
  match nth_error v i with
  | Some a => Ok a
  | None => Undefined
  end.

(** [v[i] = a] on a vector. *)
Fixpoint replace_nth {A : Type} (v : list A) (i : nat) (a : A) : list A :=
  match v, i with
  | [], _ => []
  | _ :: t, O => a :: t
  | h :: t, S j => h :: replace_nth t j a
  end.

Definition set_index {A : Type} (v : list A) (i : nat) (a : A) : outcome (list A) :=
  if (i <? List.length v)%nat then Ok (replace_nth v i a) else Undefined.

(** ** Sentinel codec *)

(** [#define FLO2D_NAN 0.0] *)
Definition FLO2D_NAN : double := Double.zero.

(** [MDAL_NAN] is a quiet NaN. *)
Definition MDAL_NAN : double := Double.nan.

(** The literal [1e-8], rounded to the nearest double
    (0x1.5798ee2308c3ap-27). *)
Definition eps_1e8 : double := S754_finite false 6044629098073146 (-79).

(** Modelled from the spec: [MDAL::equals] of mdal_utils, which is not among
    the sources.  The spec gives the test of the decoder as
    [|value - 0.0| <= 1e-8]. *)
Definition equals (val1 val2 eps : double) : bool :=
  Double.leb (Double.fabs (Double.sub val1 val2)) eps.

Definition getDouble (val : double) : double :=
  if equals val FLO2D_NAN eps_1e8 then MDAL_NAN else val.

Definition toFlo2DDouble (val : double) : double :=
  if Double.isnan val then FLO2D_NAN else val.

(** ** Data model *)

(** [size_t] is 64 bits wide; [a - b] on it wraps around. *)
Definition size_t_modulus : Z := 2 ^ 64.
Definition size_t_sub (a b : Z) : Z := (a - b) mod size_t_modulus.

Definition INT_MIN : Z := - 2 ^ 31.

Record CellCenter : Type := {
  id : Z;               (* size_t *)
  x : double;
  y : double;
  conn : list Z         (* std::vector<int>: north, east, south, west *)
}.

Record Vertex : Type := { vx : double; vy : double }.

Definition Face : Type := list nat.

Record Statistics : Type := { minimum : double; maximum : double }.

(** A [MemoryDataset]: one time slice. *)
Record Dataset : Type := {
  time : double;
  values : list double;
  ds_statistics : Statistics
}.

(** A [DatasetGroup].  [mesh_vertices] and [mesh_faces] are
    [mesh()->verticesCount()] and [mesh()->facesCount()] of the mesh the group
    was created for. *)
Record DatasetGroup : Type := {
  uri : string;
  name : string;
  isOnVertices : bool;
  isScalar : bool;
  datasets : list Dataset;
  statistics : Statistics;
  mesh_vertices : nat;
  mesh_faces : nat
}.

(** A [MemoryMesh].  The driver name, the maximal number of vertices of a
    face (4), the extent and the uri are carried by the source and read by no
    code of this driver. *)
Record MemoryMesh : Type := {
  verticesCount : nat;
  facesCount : nat;
  faces : list Face;
  vertices : list Vertex;
  datasetGroups : list DatasetGroup
}.

(** ** What the driver takes from the rest of the library

    The string and number utilities of mdal_utils, the statistics and the
    initial content of a fresh dataset buffer are not among the sources; the
    driver is embedded over any implementation of them. *)
Class Utils : Type := {
  rtrim : string -> string;
  (** [MDAL::split( line, ' ' )] *)
  split : string -> list string;
  (** [MDAL::toSizeT], a [size_t] *)
  toSizeT : string -> Z;
  (** [MDAL::toInt], an [int] *)
  toInt : string -> Z;
  toDouble : string -> double;
  (** [MDAL::contains( str, substr, ContainsBehaviour::CaseInsensitive )] *)
  contains_ci : string -> string -> bool;
  (** [MDAL::calculateStatistics] on a dataset and on a group *)
  datasetStatistics : bool -> list double -> Statistics;
  groupStatistics : list Dataset -> Statistics;
  (** [Statistics()] and the value a fresh [MemoryDataset] buffer holds *)
  noStatistics : Statistics;
  freshValue : double;
  (** [MDAL::dirName] and [MDAL::pathJoin] *)
  dirName : string -> string;
  pathJoin : string -> string -> string
}.

(** The files next to the main file.  A text file is the list of its lines,
    as [std::getline] delivers them. *)
Definition TextFile : Type := list string.

(** ** The hierarchical store

    The wrapper classes of mdal_hdf5 ([HdfFile], [HdfGroup], [HdfDataset],
    [HdfAttribute]) are not among the sources.  The store is modelled by what
    the driver asks of it: a file holds datasets at its root and possibly the
    results group; the results group holds attributes and named sub-groups; a
    sub-group holds attributes and named datasets; a dataset has a dataspace
    (its dimensions) and holds as many elements as the dataspace has. *)

Inductive HdfData : Type :=
| HdfFloats (l : list float)
| HdfDoubles (l : list double)
| HdfString (s : string)
| HdfInt (z : Z).

Record HdfDataset : Type := {
  dims : list nat;
  data : HdfData
}.

Record HdfGroup : Type := {
  attributes : list (string * HdfData);
  dsets : list (string * HdfDataset)
}.

Record HdfResults : Type := {
  r_attributes : list (string * HdfData);
  r_groups : list (string * HdfGroup)
}.

Record HdfFile : Type := {
  root_dsets : list (string * HdfDataset);
  results : option HdfResults    (* "TIMDEP NETCDF OUTPUT RESULTS" *)
}.

Fixpoint lookup {A : Type} (k : string) (l : list (string * A)) : option A :=
  match l with
  | [] => None
  | (k', a) :: t => if String.eqb k k' then Some a else lookup k t
  end.

(** The first [n] elements of a buffer, completed with [d] where the buffer
    is shorter. *)
Definition fit {A : Type} (n : nat) (d : A) (l : list A) : list A :=
  firstn n (l ++ repeat d n).

Definition elementCount (ds : HdfDataset) : nat :=
  fold_right Nat.mul 1%nat (dims ds).

Definition readArrayDouble (ds : HdfDataset) : list double :=
  fit (elementCount ds) Double.zero
    match data ds with
    | HdfDoubles l => l
    | HdfFloats l => map Float32.to_double l
    | _ => []
    end.

Definition readArray (ds : HdfDataset) : list float :=
  fit (elementCount ds) Float32.zero
    match data ds with
    | HdfFloats l => l
    | HdfDoubles l => map Float32.of_double l
    | _ => []
    end.

Definition readString (a : HdfData) : string :=
  match a with
  | HdfString s => s
  | _ => EmptyString
  end.

(** [HdfDataset( file, path, type, dims ).write( buffer )]: the dataset takes
    from the buffer the elements of its dataspace. *)
Definition writeDoubles (dims : list nat) (buffer : list double) : HdfDataset :=
  {| dims := dims;
     data := HdfDoubles (fit (fold_right Nat.mul 1%nat dims) Double.zero buffer) |}.

Definition writeFloats (dims : list nat) (buffer : list float) : HdfDataset :=
  {| dims := dims;
     data := HdfFloats (fit (fold_right Nat.mul 1%nat dims) Float32.zero buffer) |}.

(** [file.pathExists( "/TIMDEP NETCDF OUTPUT RESULTS/" + name )] *)
Definition pathExists (r : HdfResults) (name : string) : bool :=
  match lookup name (r_groups r) with
  | Some _ => true
  | None => false
  end.

(** The directory of the main file.  [TIMDEP_HDF5] is [None] when the file
    does not exist, [Some None] when it exists and is no valid store. *)
Record Directory : Type := {
  CADPTS_DAT : option TextFile;
  FPLAIN_DAT : option TextFile;
  TIMDEP_OUT : option TextFile;
  DEPTH_OUT : option TextFile;
  VELFP_OUT : option TextFile;
  VELOC_OUT : option TextFile;
  TIMDEP_HDF5 : option (option HdfFile)
}.

(** ** Geometry reconstruction *)

Section Driver.

Context {U : Utils}.

(** The name of the file [name] next to the main file. *)
Definition fileNameFromDir (mainFileName name : string) : string :=
  let dir := dirName mainFileName in
  pathJoin dir name.

Definition field (lineParts : list string) (i : nat) : string :=
  nth i lineParts EmptyString.

(** One turn of the loop of [parseCADPTSFile]. *)
Definition parseCADPTS_line (line : string) : outcome CellCenter :=
  let lineParts := split (rtrim line) in
  if negb (List.length lineParts =? 3)%nat then Throw Err_UnknownFormat
  else
    Ok {| id := size_t_sub (toSizeT (field lineParts 1)) 1;
          x := toDouble (field lineParts 1);
          y := toDouble (field lineParts 2);
          conn := repeat 0 4 |}.

Fixpoint parseCADPTS_lines (lines : TextFile) (cells : list CellCenter)
  : outcome (list CellCenter) :=
  match lines with
  | [] => Ok cells
  | line :: rest =>
      cc <- parseCADPTS_line line ;;
      parseCADPTS_lines rest (cells ++ [cc])
  end.

Definition parseCADPTSFile (dir : Directory) (cells : list CellCenter)
  : outcome (list CellCenter) :=
  match CADPTS_DAT dir with
  | None => Throw Err_FileNotFound
  | Some lines => parseCADPTS_lines lines cells
  end.

Definition set_conn (cc : CellCenter) (c : list Z) : CellCenter :=
  {| id := id cc; x := x cc; y := y cc; conn := c |}.

(** [MDAL::toInt( s ) - 1] on [int]. *)
Definition int_pred (v : Z) : outcome Z :=
  if v <=? INT_MIN then Undefined else Ok (v - 1).

(** [for ( j = 0; j < 4; ++j ) cells[cc_i].conn[j] = toInt( lineParts[j + 1] ) - 1;] *)
Fixpoint parseFPLAIN_conn (lineParts : list string) (cc_i : nat)
  (js : list nat) (cells : list CellCenter) : outcome (list CellCenter) :=
  match js with
  | [] => Ok cells
  | j :: js' =>
      cc <- at_index cells cc_i ;;
      v <- int_pred (toInt (field lineParts (j + 1))) ;;
      c <- set_index (conn cc) j v ;;
      cells' <- set_index cells cc_i (set_conn cc c) ;;
      parseFPLAIN_conn lineParts cc_i js' cells'
  end.

Fixpoint parseFPLAIN_lines (lines : TextFile) (elevations : list double)
  (cells : list CellCenter) : outcome (list double * list CellCenter) :=
  match lines with
  | [] => Ok (elevations, cells)
  | line :: rest =>
      let lineParts := split (rtrim line) in
      if negb (List.length lineParts =? 7)%nat then Throw Err_UnknownFormat
      else
        let cc_i := size_t_sub (toSizeT (field lineParts 0)) 1 in
        cells' <- parseFPLAIN_conn lineParts (Z.to_nat cc_i) (seq 0 4) cells ;;
        parseFPLAIN_lines rest
          (elevations ++ [toDouble (field lineParts 6)]) cells'
  end.

Definition parseFPLAINFile (dir : Directory) (cells : list CellCenter)
  : outcome (list double * list CellCenter) :=
  match FPLAIN_DAT dir with
  | None => Throw Err_FileNotFound
  | Some lines => parseFPLAIN_lines lines [] cells
  end.

End Driver.

(** The body of the inner loop of [calcCellSize], for the cell [ci] and the
    slot [j]: [None] when the loop goes on, the returned value otherwise. *)
Definition calcCellSize_slot (cells : list CellCenter) (ci : CellCenter)
  (j : nat) : option (outcome double) :=
  match nth_error (conn ci) 0 with
  | None => Some Undefined
  | Some idx =>
      if idx >? -1 then
        Some (cn <- at_index cells (Z.to_nat idx) ;;
              if (j =? 0)%nat || (j =? 2)%nat
              then Ok (Double.fabs (Double.sub (y cn) (y ci)))
              else Ok (Double.fabs (Double.sub (x cn) (x ci))))
      else None
  end.

Fixpoint calcCellSize_slots (cells : list CellCenter) (ci : CellCenter)
  (js : list nat) : option (outcome double) :=
  match js with
  | [] => None
  | j :: js' =>
      match calcCellSize_slot cells ci j with
      | Some r => Some r
      | None => calcCellSize_slots cells ci js'
      end
  end.

(** The outer loop, over the cells still to visit. *)
Fixpoint calcCellSize_from (cells rest : list CellCenter) : outcome double :=
  match rest with
  | [] => Throw Err_IncompatibleMesh
  | ci :: rest' =>
      match calcCellSize_slots cells ci (seq 0 4) with
      | Some r => r
      | None => calcCellSize_from cells rest'
      end
  end.

Definition calcCellSize (cells : list CellCenter) : outcome double :=
  calcCellSize_from cells cells.

Definition createVertex (position : nat) (half_cell_size : double)
  (cell : CellCenter) : Vertex :=
  match position with
  | 0%nat => {| vx := Double.add (x cell) half_cell_size;
                vy := Double.sub (y cell) half_cell_size |}
  | 1%nat => {| vx := Double.add (x cell) half_cell_size;
                vy := Double.add (y cell) half_cell_size |}
  | 2%nat => {| vx := Double.sub (x cell) half_cell_size;
                vy := Double.add (y cell) half_cell_size |}
  | 3%nat => {| vx := Double.sub (x cell) half_cell_size;
                vy := Double.sub (y cell) half_cell_size |}
  | _ => {| vx := x cell; vy := y cell |}
  end.

(** [resX] of [VertexCompare]: [0], then [+= x * 1000000], then
    [+= y * 1000]. *)
Definition vertexKey (v : Vertex) : double :=
  Double.add
    (Double.add (Double.of_Z 0) (Double.mul (vx v) (Double.of_Z 1000000)))
    (Double.mul (vy v) (Double.of_Z 1000)).

Definition VertexCompare (lhs rhs : Vertex) : bool :=
  Double.ltb (vertexKey lhs) (vertexKey rhs).

(** [std::map<Vertex, size_t, VertexCompare>]: the entries in the order they
    were inserted.  The map takes two keys for the same when the comparator
    orders neither before the other; [find] gives the entry of such a key.

    The comparator is a strict weak order on the vertices whose key is a
    number, and there the map holds one entry per class of keys, so that the
    entry [find] gives is the only one of its class.  A key that is not a
    number is ordered before and after no key: the comparator is then no
    order, the entry the search of [std::map] ends on depends on the shape of
    its tree, and [map_find] does not tell it.  What is stated of the index
    that [map_find] gives is stated for keys that are numbers. *)
Definition VertexMap : Type := list (Vertex * nat).

Definition equivalent (a b : Vertex) : bool :=
  negb (VertexCompare a b) && negb (VertexCompare b a).

Definition map_find (n : Vertex) (m : VertexMap) : option nat :=
  match find (fun e => equivalent (fst e) n) m with
  | Some e => Some (snd e)
  | None => None
  end.

(** The locals of [createMesh]. *)
Record MeshBuilder : Type := {
  b_faces : list Face;
  b_vertices : list Vertex;
  unique_vertices : VertexMap;
  vertex_idx : nat
}.

(** The body of the loop over [position], on the face [e] under
    construction. *)
Definition createMesh_corner (half_cell_size : double) (cell : CellCenter)
  (st : MeshBuilder * Face) (position : nat) : MeshBuilder * Face :=
  let (b, e) := st in
  let n := createVertex position half_cell_size cell in
  match map_find n (unique_vertices b) with
  | None =>
      ({| b_faces := b_faces b;
          b_vertices := b_vertices b ++ [n];
          unique_vertices := unique_vertices b ++ [(n, vertex_idx b)];
          vertex_idx := S (vertex_idx b) |},
       replace_nth e position (vertex_idx b))
  | Some i => (b, replace_nth e position i)
  end.

(** The body of the loop over the cells. *)
Definition createMesh_cell (half_cell_size : double) (b : MeshBuilder)
  (cell : CellCenter) : MeshBuilder :=
  let (b', e) :=
    fold_left (createMesh_corner half_cell_size cell) (seq 0 4)
      (b, repeat 0%nat 4) in
  {| b_faces := b_faces b' ++ [e];
     b_vertices := b_vertices b';
     unique_vertices := unique_vertices b';
     vertex_idx := vertex_idx b' |}.

Definition createMesh_loop (cells : list CellCenter) (half_cell_size : double)
  : MeshBuilder :=
  fold_left (createMesh_cell half_cell_size) cells
    {| b_faces := []; b_vertices := []; unique_vertices := []; vertex_idx := 0 |}.

Definition createMesh (cells : list CellCenter) (half_cell_size : double)
  : MemoryMesh :=
  let b := createMesh_loop cells half_cell_size in
  {| verticesCount := List.length (b_vertices b);
     facesCount := List.length (b_faces b);
     faces := b_faces b;
     vertices := b_vertices b;
     datasetGroups := [] |}.

(** ** Dataset groups and the text readers *)

Section Readers.

Context {U : Utils}.

(** [std::make_shared< DatasetGroup >( name(), mesh, datFileName, groupName )]
    followed by [setIsOnVertices] and [setIsScalar]. *)
Definition newGroup (mesh : MemoryMesh) (datFileName groupName : string)
  (onVertices scalar : bool) : DatasetGroup :=
  {| uri := datFileName;
     name := groupName;
     isOnVertices := onVertices;
     isScalar := scalar;
     datasets := [];
     statistics := noStatistics;
     mesh_vertices := verticesCount mesh;
     mesh_faces := facesCount mesh |}.

Definition valuesCount (g : DatasetGroup) : nat :=
  if isOnVertices g then mesh_vertices g else mesh_faces g.

(** Modelled from the spec: the constructor of [MemoryDataset], which is not
    among the sources.  The buffer is dense and sized [facesCount] for a
    scalar group and [2 * facesCount] for a vector group.  The time is the one
    [setTime] gives it right after. *)
Definition newDataset (g : DatasetGroup) (t : double) : Dataset :=
  {| time := t;
     values := repeat freshValue
                 (if isScalar g then valuesCount g else 2 * valuesCount g)%nat;
     ds_statistics := noStatistics |}.

Definition setValues (d : Dataset) (v : list double) : Dataset :=
  {| time := time d; values := v; ds_statistics := ds_statistics d |}.

(** [dataset->setStatistics( MDAL::calculateStatistics( dataset ) )] *)
Definition withStatistics (g : DatasetGroup) (d : Dataset) : Dataset :=
  {| time := time d;
     values := values d;
     ds_statistics := datasetStatistics (isScalar g) (values d) |}.

Definition push_dataset (g : DatasetGroup) (d : Dataset) : DatasetGroup :=
  {| uri := uri g; name := name g; isOnVertices := isOnVertices g;
     isScalar := isScalar g; datasets := datasets g ++ [d];
     statistics := statistics g;
     mesh_vertices := mesh_vertices g; mesh_faces := mesh_faces g |}.

(** [group->setStatistics( MDAL::calculateStatistics( group ) )] *)
Definition withGroupStatistics (g : DatasetGroup) : DatasetGroup :=
  {| uri := uri g; name := name g; isOnVertices := isOnVertices g;
     isScalar := isScalar g; datasets := datasets g;
     statistics := groupStatistics (datasets g);
     mesh_vertices := mesh_vertices g; mesh_faces := mesh_faces g |}.

(** [mesh->datasetGroups.push_back( group )] *)
Definition push_group (mesh : MemoryMesh) (g : DatasetGroup) : MemoryMesh :=
  {| verticesCount := verticesCount mesh; facesCount := facesCount mesh;
     faces := faces mesh; vertices := vertices mesh;
     datasetGroups := datasetGroups mesh ++ [g] |}.

(** [memcpy( values, vals.data(), vals.size() * sizeof( double ) )] *)
Definition memcpy (buffer vals : list double) : list double :=
  vals ++ skipn (List.length vals) buffer.

Definition addStaticDataset (mesh : MemoryMesh) (vals : list double)
  (groupName datFileName : string) : outcome MemoryMesh :=
  let group := newGroup mesh datFileName groupName false true in
  let dataset := newDataset group Double.zero in
  if negb (List.length vals =? valuesCount group)%nat then AssertFailed
  else
    let dataset := setValues dataset (memcpy (values dataset) vals) in
    let group := push_dataset group (withStatistics group dataset) in
    Ok (push_group mesh (withGroupStatistics group)).

Definition addDatasetToGroup (group : DatasetGroup) (dataset : option Dataset)
  : DatasetGroup :=
  match dataset with
  | Some d =>
      if (0 <? valuesCount group)%nat
      then push_dataset group (withStatistics group d)
      else group
  | None => group
  end.

(** [getDouble( const std::string & )] *)
Definition getDoubleS (val : string) : double := getDouble (toDouble val).

(** The locals of [parseTIMDEPFile] that the loop changes. *)
Record TimdepLocals : Type := {
  face_idx : nat;
  depthDsGroup : DatasetGroup;
  waterLevelDsGroup : DatasetGroup;
  flowDsGroup : DatasetGroup;
  flowDataset : option Dataset;
  depthDataset : option Dataset;
  waterLevelDataset : option Dataset
}.

(** The three flushes [if ( ds ) addDatasetToGroup( group, ds )]. *)
Definition flushDatasets (s : TimdepLocals) : TimdepLocals :=
  {| face_idx := face_idx s;
     depthDsGroup := addDatasetToGroup (depthDsGroup s) (depthDataset s);
     waterLevelDsGroup :=
       addDatasetToGroup (waterLevelDsGroup s) (waterLevelDataset s);
     flowDsGroup := addDatasetToGroup (flowDsGroup s) (flowDataset s);
     flowDataset := flowDataset s;
     depthDataset := depthDataset s;
     waterLevelDataset := waterLevelDataset s |}.

(** A line with one field. *)
Definition timdep_time (line : string) (s : TimdepLocals) : TimdepLocals :=
  let time := toDouble line in
  let s := flushDatasets s in
  {| face_idx := 0;
     depthDsGroup := depthDsGroup s;
     waterLevelDsGroup := waterLevelDsGroup s;
     flowDsGroup := flowDsGroup s;
     flowDataset := Some (newDataset (flowDsGroup s) time);
     depthDataset := Some (newDataset (depthDsGroup s) time);
     waterLevelDataset := Some (newDataset (waterLevelDsGroup s) time) |}.

(** A line with five or six fields. *)
Definition timdep_record (nVertexs : nat) (elevations : list double)
  (lineParts : list string) (s : TimdepLocals) : outcome TimdepLocals :=
  match depthDataset s, flowDataset s, waterLevelDataset s with
  | Some dd, Some fd, Some wd =>
      if (face_idx s =? nVertexs)%nat then Throw Err_IncompatibleMesh
      else
        let i := face_idx s in
        fv <- set_index (values fd) (2 * i) (getDoubleS (field lineParts 3)) ;;
        fv <- set_index fv (2 * i + 1) (getDoubleS (field lineParts 4)) ;;
        let depth := getDoubleS (field lineParts 1) in
        dv <- set_index (values dd) i depth ;;
        level <- (if negb (Double.isnan depth)
                  then e <- at_index elevations i ;; Ok (Double.add depth e)
                  else Ok depth) ;;
        wv <- set_index (values wd) i level ;;
        Ok {| face_idx := S i;
              depthDsGroup := depthDsGroup s;
              waterLevelDsGroup := waterLevelDsGroup s;
              flowDsGroup := flowDsGroup s;
              flowDataset := Some (setValues fd fv);
              depthDataset := Some (setValues dd dv);
              waterLevelDataset := Some (setValues wd wv) |}
  | _, _, _ => Throw Err_UnknownFormat
  end.

(** One turn of the loop of [parseTIMDEPFile]. *)
Definition timdep_line (nVertexs : nat) (elevations : list double)
  (line : string) (s : TimdepLocals) : outcome TimdepLocals :=
  let line := rtrim line in
  let lineParts := split line in
  let n := List.length lineParts in
  if (n =? 1)%nat then Ok (timdep_time line s)
  else if (n =? 5)%nat || (n =? 6)%nat
       then timdep_record nVertexs elevations lineParts s
       else Throw Err_UnknownFormat.

Fixpoint timdep_lines (nVertexs : nat) (elevations : list double)
  (lines : TextFile) (s : TimdepLocals) : outcome TimdepLocals :=
  match lines with
  | [] => Ok s
  | line :: rest =>
      s' <- timdep_line nVertexs elevations line s ;;
      timdep_lines nVertexs elevations rest s'
  end.

Definition timdep_start (mesh : MemoryMesh) (datFileName : string)
  : TimdepLocals :=
  {| face_idx := 0;
     depthDsGroup := newGroup mesh datFileName "Depth" false true;
     waterLevelDsGroup := newGroup mesh datFileName "Water Level" false true;
     flowDsGroup := newGroup mesh datFileName "Velocity" false false;
     flowDataset := None;
     depthDataset := None;
     waterLevelDataset := None |}.

Definition parseTIMDEPFile (dir : Directory) (mesh : MemoryMesh)
  (datFileName : string) (elevations : list double) : outcome MemoryMesh :=
  match TIMDEP_OUT dir with
  | None => Ok mesh
  | Some lines =>
      let nVertexs := verticesCount mesh in
      s <- timdep_lines nVertexs elevations lines
             (timdep_start mesh datFileName) ;;
      let s := flushDatasets s in
      let mesh := push_group mesh (withGroupStatistics (depthDsGroup s)) in
      let mesh := push_group mesh (withGroupStatistics (flowDsGroup s)) in
      Ok (push_group mesh (withGroupStatistics (waterLevelDsGroup s)))
  end.

(** The loop of [parseDEPTHFile], on [vertex_idx], [maxDepth] and
    [maxWaterLevel]. *)
Fixpoint depth_lines (nFaces : nat) (elevations : list double)
  (lines : TextFile) (vertex_idx : nat) (maxDepth maxWaterLevel : list double)
  : outcome (list double * list double) :=
  match lines with
  | [] => Ok (maxDepth, maxWaterLevel)
  | line :: rest =>
      let line := rtrim line in
      if (vertex_idx =? nFaces)%nat then Throw Err_IncompatibleMesh
      else
        let lineParts := split line in
        if negb (List.length lineParts =? 4)%nat then Throw Err_UnknownFormat
        else
          let val := getDoubleS (field lineParts 3) in
          maxDepth' <- set_index maxDepth vertex_idx val ;;
          level <- (if negb (Double.isnan val)
                    then e <- at_index elevations vertex_idx ;;
                         Ok (Double.add val e)
                    else Ok val) ;;
          maxWaterLevel' <- set_index maxWaterLevel vertex_idx level ;;
          depth_lines nFaces elevations rest (S vertex_idx)
            maxDepth' maxWaterLevel'
  end.

Definition parseDEPTHFile (dir : Directory) (mesh : MemoryMesh)
  (datFileName : string) (elevations : list double) : outcome MemoryMesh :=
  match DEPTH_OUT dir with
  | None => Ok mesh
  | Some lines =>
      let nFaces := facesCount mesh in
      '(maxDepth, maxWaterLevel) <-
        depth_lines nFaces elevations lines 0
          (repeat Double.zero nFaces) (repeat Double.zero nFaces) ;;
      mesh <- addStaticDataset mesh maxDepth "Depth/Maximums" datFileName ;;
      addStaticDataset mesh maxWaterLevel "Water Level/Maximums" datFileName
  end.

(** The loop over VELFP.OUT. *)
Fixpoint velfp_lines (nFaces : nat) (lines : TextFile) (vertex_idx : nat)
  (maxVel : list double) : outcome (list double) :=
  match lines with
  | [] => Ok maxVel
  | line :: rest =>
      if (vertex_idx =? nFaces)%nat then Throw Err_IncompatibleMesh
      else
        let lineParts := split (rtrim line) in
        if negb (List.length lineParts =? 4)%nat then Throw Err_UnknownFormat
        else
          let val := getDoubleS (field lineParts 3) in
          maxVel' <- set_index maxVel vertex_idx val ;;
          velfp_lines nFaces rest (S vertex_idx) maxVel'
  end.

(** The loop over VELOC.OUT. *)
Fixpoint veloc_lines (nFaces : nat) (lines : TextFile) (vertex_idx : nat)
  (maxVel : list double) : outcome (list double) :=
  match lines with
  | [] => Ok maxVel
  | line :: rest =>
      if (vertex_idx =? nFaces)%nat then Throw Err_IncompatibleMesh
      else
        let lineParts := split (rtrim line) in
        if negb (List.length lineParts =? 4)%nat then Throw Err_UnknownFormat
        else
          let val := getDoubleS (field lineParts 3) in
          maxVel' <- (if negb (Double.isnan val)
                      then set_index maxVel vertex_idx val
                      else Ok maxVel) ;;
          veloc_lines nFaces rest (S vertex_idx) maxVel'
  end.

Definition parseVELFPVELOCFile (dir : Directory) (mesh : MemoryMesh)
  (datFileName : string) : outcome MemoryMesh :=
  let nFaces := facesCount mesh in
  let maxVel := repeat Double.zero nFaces in
  match VELFP_OUT dir with
  | None => Ok mesh
  | Some lines =>
      maxVel <- velfp_lines nFaces lines 0 maxVel ;;
      match VELOC_OUT dir with
      | None => Ok mesh
      | Some lines =>
          maxVel <- veloc_lines nFaces lines 0 maxVel ;;
          addStaticDataset mesh maxVel "Velocity/Maximums" datFileName
      end
  end.

Definition parseOUTDatasets (dir : Directory) (mesh : MemoryMesh)
  (datFileName : string) (elevations : list double) : outcome MemoryMesh :=
  mesh <- parseTIMDEPFile dir mesh datFileName elevations ;;
  mesh <- parseDEPTHFile dir mesh datFileName elevations ;;
  parseVELFPVELOCFile dir mesh datFileName.

End Readers.

(** ** The reader of the hierarchical store *)

Section Store.

Context {U : Utils}.

(** The loops over the faces, for the time index [ts]. *)
Definition hdf5_vector_values (nFaces ts : nat) (values : list float)
  (out : list double) : list double :=
  fold_left
    (fun out i =>
       let idx := (2 * (ts * nFaces + i))%nat in
       let x := getDouble (Float32.to_double (nth idx values Float32.zero)) in
       let y := getDouble (Float32.to_double (nth (idx + 1) values Float32.zero)) in
       replace_nth (replace_nth out (2 * i) x) (2 * i + 1) y)
    (seq 0 nFaces) out.

Definition hdf5_scalar_values (nFaces ts : nat) (values : list float)
  (out : list double) : list double :=
  fold_left
    (fun out i =>
       let idx := (ts * nFaces + i)%nat in
       let val := getDouble (Float32.to_double (nth idx values Float32.zero)) in
       replace_nth out i val)
    (seq 0 nFaces) out.

(** The body of the loop over [ts]. *)
Definition hdf5_timestep (nFaces : nat) (isVector : bool)
  (times : list double) (vals : list float) (ds : DatasetGroup) (ts : nat)
  : DatasetGroup :=
  let output := newDataset ds (nth ts times Double.zero) in
  let output :=
    setValues output
      (if isVector
       then hdf5_vector_values nFaces ts vals (values output)
       else hdf5_scalar_values nFaces ts vals (values output)) in
  addDatasetToGroup ds (Some output).

(** The body of the loop over the names of the sub-groups: [None] is
    [return true]. *)
Definition hdf5_group (nFaces : nat) (timedepFileName : string)
  (timedataGroup : HdfResults) (grpName : string) (mesh : MemoryMesh)
  : option MemoryMesh :=
  match lookup grpName (r_groups timedataGroup) with
  | None => None
  | Some grp =>
  match lookup "Grouptype" (attributes grp) with
  | None => None
  | Some groupType =>
  match lookup "Times" (dsets grp) with
  | None => None
  | Some timesDs =>
  let timesteps := elementCount timesDs in
  match lookup "Values" (dsets grp) with
  | None => None
  | Some valuesDs =>
  let isVector := contains_ci (readString groupType) "vector" in
  let expectedSize := (facesCount mesh * timesteps)%nat in
  let expectedSize := if isVector then (expectedSize * 2)%nat else expectedSize in
  if negb (elementCount valuesDs =? expectedSize)%nat then None
  else
    let times := readArrayDouble timesDs in
    let values := readArray valuesDs in
    let ds := newGroup mesh timedepFileName grpName false (negb isVector) in
    let ds :=
      fold_left (hdf5_timestep nFaces isVector times values)
        (seq 0 timesteps) ds in
    Some (push_group mesh (withGroupStatistics ds))
  end end end end.

Fixpoint hdf5_groups (nFaces : nat) (timedepFileName : string)
  (timedataGroup : HdfResults) (groupNames : list string) (mesh : MemoryMesh)
  : bool * MemoryMesh :=
  match groupNames with
  | [] => (false, mesh)
  | grpName :: rest =>
      match hdf5_group nFaces timedepFileName timedataGroup grpName mesh with
      | None => (true, mesh)
      | Some mesh' =>
          hdf5_groups nFaces timedepFileName timedataGroup rest mesh'
      end
  end.

(** Returns [true] on error, with the mesh as the call leaves it. *)
Definition parseHDF5Datasets (mesh : MemoryMesh) (timedepFileName : string)
  (store : option (option HdfFile)) : bool * MemoryMesh :=
  let nFaces := facesCount mesh in
  match store with
  | None => (true, mesh)
  | Some None => (true, mesh)
  | Some (Some file) =>
      match results file with
      | None => (true, mesh)
      | Some timedataGroup =>
          hdf5_groups nFaces timedepFileName timedataGroup
            (map fst (r_groups timedataGroup)) mesh
      end
  end.

(** ** Loading a mesh *)

(** The [try] block of [load]. *)
Definition load_try (dir : Directory) (mDatFileName : string)
  : outcome MemoryMesh :=
  cells <- parseCADPTSFile dir [] ;;
  '(elevations, cells) <- parseFPLAINFile dir cells ;;
  cell_size <- calcCellSize cells ;;
  let mesh := createMesh cells (Double.div cell_size (Double.of_Z 2)) in
  mesh <- addStaticDataset mesh elevations "Bed Elevation" mDatFileName ;;
  let TIMDEPFileName := fileNameFromDir mDatFileName "TIMDEP.HDF5" in
  let (err, mesh) :=
    parseHDF5Datasets mesh TIMDEPFileName (TIMDEP_HDF5 dir) in
  if err then parseOUTDatasets dir mesh mDatFileName elevations
  else Ok mesh.

(** [load( resultsFile, status )]: the mesh, if any, and the status. *)
Definition load (dir : Directory) (resultsFile : string)
  : outcome (option MemoryMesh * MDAL_Status) :=
  match load_try dir resultsFile with
  | Ok mesh => Ok (Some mesh, Status_None)
  | Throw error => Ok (None, error)
  | AssertFailed => AssertFailed
  | Undefined => Undefined
  end.

End Store.

(** ** The writer of the hierarchical store *)

(** [std::to_string( int )] *)
Definition to_string (i : Z) : string := NilZero.string_of_int (Z.to_int i).

(** Modelled from the spec: [Dataset::scalarData] and [Dataset::vectorData],
    which are not among the sources.  Called on [singleRowValues], a vector of
    [valCount] zeros, they copy the dense value buffer of the dataset,
    [facesCount] values for a scalar group and [2 * facesCount] interleaved
    values for a vector group. *)
Definition rowData (valCount : nat) (dataset : Dataset) : list double :=
  fit valCount Double.zero (values dataset).

(** The vectors [appendGroup] prepares. *)
Record WriteBuffers : Type := {
  maximums : list float;
  minimums : list float;
  times : list double;
  w_values : list float
}.

(** [for ( j = 0; j < valCount; j++ ) values[i * valCount + j] = ...] *)
Definition appendGroup_row (valCount i : nat) (singleRowValues : list double)
  (vals : list float) : list float :=
  fold_left
    (fun vals j =>
       let doubleValue := toFlo2DDouble (nth j singleRowValues Double.zero) in
       replace_nth vals (i * valCount + j) (Float32.of_double doubleValue))
    (seq 0 valCount) vals.

(** The body of the loop that prepares the data, for the dataset at [i]. *)
Definition appendGroup_prepare (valCount : nat) (b : WriteBuffers)
  (entry : nat * Dataset) : WriteBuffers :=
  let (i, dataset) := entry in
  let singleRowValues := rowData valCount dataset in
  let st := ds_statistics dataset in
  {| maximums := replace_nth (maximums b) i (Float32.of_double (maximum st));
     minimums := replace_nth (minimums b) i (Float32.of_double (minimum st));
     times := times b ++ [time dataset];
     w_values := appendGroup_row valCount i singleRowValues (w_values b) |}.

(** The loop that derives the name of the sub-group.  [fuel] bounds the
    number of turns; [None] when the loop needs more. *)
Fixpoint uniqueGroupName (fuel : nat) (groupTNOR : HdfResults) (name : string)
  (i : Z) (dsGroupName : string) : option string :=
  if pathExists groupTNOR dsGroupName then
    match fuel with
    | O => None
    | S fuel' =>
        uniqueGroupName fuel' groupTNOR name i (name ++ "_" ++ to_string i)
    end
  else Some dsGroupName.

(** The sub-group [appendGroup] creates, with its attributes and its four
    datasets. *)
Definition appendGroup_store (scalar : bool) (timesCount : nat)
  (dscValues : list nat) (b : WriteBuffers) : HdfGroup :=
  {| attributes :=
       [ ("Data Type", HdfInt 0);
         ("DatasetCompression", HdfInt (-1));
         ("Grouptype",
          HdfString (if scalar then "DATASET SCALAR" else "DATASET VECTOR"));
         ("TimeUnits", HdfString "Hours") ]%string;
     dsets :=
       [ ("Maxs", writeFloats [timesCount] (maximums b));
         ("Mins", writeFloats [timesCount] (minimums b));
         ("Times", writeDoubles [timesCount] (times b));
         ("Values", writeFloats dscValues (w_values b)) ]%string |}.

(** [appendGroup( file, dsGroup, groupTNOR )], where [groupTNOR] is the
    results group of [file]: [None] when the naming loop does not end within
    [fuel] turns, the returned flag and the file otherwise. *)
Definition appendGroup (fuel : nat) (file : HdfFile) (dsGroup : DatasetGroup)
  (groupTNOR : HdfResults) : option (bool * HdfFile) :=
  if isOnVertices dsGroup then Some (true, file)
  else
    let timesCount := List.length (datasets dsGroup) in
    let facesCount := mesh_faces dsGroup in
    let valCount := if isScalar dsGroup then facesCount else (facesCount * 2)%nat in
    let dscValues :=
      if isScalar dsGroup then [timesCount; facesCount]
      else [timesCount; facesCount; 2%nat] in
    let b :=
      fold_left (appendGroup_prepare valCount)
        (combine (seq 0 timesCount) (datasets dsGroup))
        {| maximums := repeat Float32.zero timesCount;
           minimums := repeat Float32.zero timesCount;
           times := repeat Double.zero timesCount;
           w_values := repeat Float32.zero (timesCount * valCount) |} in
    match uniqueGroupName fuel groupTNOR (name dsGroup) 0 (name dsGroup) with
    | None => None
    | Some dsGroupName =>
        let group := appendGroup_store (isScalar dsGroup) timesCount dscValues b in
        Some (false,
              {| root_dsets := root_dsets file;
                 results :=
                   Some {| r_attributes := r_attributes groupTNOR;
                           r_groups :=
                             r_groups groupTNOR ++ [(dsGroupName, group)] |} |})
    end.

Definition addToHDF5File (fuel : nat) (file : option HdfFile)
  (group : DatasetGroup) : option (bool * option HdfFile) :=
  match file with
  | None => Some (true, file)
  | Some f =>
      match results f with
      | None => Some (true, file)
      | Some timedataGroup =>
          match appendGroup fuel f group timedataGroup with
          | None => None
          | Some (err, f') => Some (err, Some f')
          end
      end
  end.

(** The float [1.0f]. *)
Definition one_f : float := S754_finite false 8388608 (-23).

(** [saveNewHDF5File( dsGroup )] where the file can be created: the early
    return on a file that could not be created has no counterpart here. *)
Definition saveNewHDF5File (fuel : nat) (dsGroup : DatasetGroup)
  : option (bool * option HdfFile) :=
  let groupTNOR :=
    {| r_attributes := [("Grouptype", HdfString "Generic")]%string;
       r_groups := [] |} in
  let file :=
    {| root_dsets :=
         [ ("File Version", {| dims := []; data := HdfFloats [one_f] |});
           ("File Type", {| dims := []; data := HdfString "Xmdf" |}) ]%string;
       results := Some groupTNOR |} in
  match appendGroup fuel file dsGroup groupTNOR with
  | None => None
  | Some (err, f') => Some (err, Some f')
  end.

(** [persist( group )] on the file at [group->uri()]: [None] when the file
    does not exist, [Some None] when it is no valid store.  Gives the flag and
    the file as the call leaves it. *)
Definition persist (fuel : nat) (store : option (option HdfFile))
  (group : DatasetGroup) : option (bool * option (option HdfFile)) :=
  match store with
  | Some file =>
      match addToHDF5File fuel file group with
      | None => None
      | Some (err, file') => Some (err, Some file')
      end
  | None =>
      match saveNewHDF5File fuel group with
      | None => None
      | Some (err, file') => Some (err, Some file')
      end
  end.

(** ** An implementation of the utilities

    A plain reading of the utilities, to run the driver on files: fields are
    separated by spaces, numbers are decimal numerals, statistics are the
    least and the greatest number of a buffer. *)

Module Sample.

Definition is_space (c : ascii) : bool := Ascii.eqb c " "%char.

Fixpoint rtrim (s : string) : string :=
  match s with
  | EmptyString => EmptyString
  | String c rest =>
      match rtrim rest with
      | EmptyString => if is_space c then EmptyString else String c EmptyString
      | r => String c r
      end
  end.

(** [cur] is the part being read, reversed. *)
Fixpoint split_from (s : string) (cur : list ascii) : list string :=
  let part := string_of_list_ascii (rev cur) in
  match s with
  | EmptyString => match cur with [] => [] | _ => [part] end
  | String c rest =>
      if is_space c
      then match cur with
           | [] => split_from rest []
           | _ => part :: split_from rest []
           end
      else split_from rest (c :: cur)
  end.

Definition split (s : string) : list string := split_from s [].

Definition digit (c : ascii) : option Z :=
  let n := Z.of_nat (nat_of_ascii c) in
  if (48 <=? n) && (n <=? 57) then Some (n - 48) else None.

(** The value of the leading digits, their number and what follows them. *)
Fixpoint digits (s : string) (acc : Z) (n : nat) : Z * nat * string :=
  match s with
  | EmptyString => (acc, n, s)
  | String c rest =>
      match digit c with
      | Some d => digits rest (10 * acc + d) (S n)
      | None => (acc, n, s)
      end
  end.

Definition signed (s : string) : bool * string :=
  match s with
  | String "-"%char rest => (true, rest)
  | _ => (false, s)
  end.

Definition toInt (s : string) : Z :=
  let (neg, s) := signed s in
  let '(v, _, _) := digits s 0 0 in
  if neg then - v else v.

Definition toSizeT (s : string) : Z :=
  let i := toInt s in
  if i <? 0 then 0 else i.

Definition toDouble (s : string) : double :=
  let (neg, s) := signed s in
  let '(whole, _, rest) := digits s 0 0 in
  let '(num, den) :=
    match rest with
    | String "."%char frac =>
        let '(f, k, _) := digits frac 0 0 in
        (whole * 10 ^ Z.of_nat k + f, 10 ^ Z.of_nat k)
    | _ => (whole, 1)
    end in
  let v := Double.div (Double.of_Z num) (Double.of_Z den) in
  if neg then SFopp v else v.

Definition lower (c : ascii) : ascii :=
  let n := nat_of_ascii c in
  if ((65 <=? n) && (n <=? 90))%nat then ascii_of_nat (n + 32) else c.

Fixpoint lowercase (s : string) : string :=
  match s with
  | EmptyString => EmptyString
  | String c rest => String (lower c) (lowercase rest)
  end.

Fixpoint contains (s sub : string) : bool :=
  String.prefix sub s ||
  match s with
  | EmptyString => false
  | String _ rest => contains rest sub
  end.

Definition contains_ci (s sub : string) : bool :=
  contains (lowercase s) (lowercase sub).

Definition least (a b : double) : double :=
  if Double.isnan a then b else if Double.ltb b a then b else a.

Definition greatest (a b : double) : double :=
  if Double.isnan a then b else if Double.ltb a b then b else a.

Definition statisticsOf (l : list double) : Statistics :=
  {| minimum := fold_left least l Double.nan;
     maximum := fold_left greatest l Double.nan |}.

Definition is_separator (c : ascii) : bool :=
  Ascii.eqb c "/"%char || Ascii.eqb c "\"%char.

Definition has_separator (s : string) : bool :=
  existsb is_separator (list_ascii_of_string s).

(** The name up to its last separator, which is left out; the whole name when
    it has none. *)
Fixpoint dirName (s : string) : string :=
  match s with
  | EmptyString => EmptyString
  | String c rest =>
      if has_separator rest then String c (dirName rest)
      else if is_separator c then EmptyString
      else s
  end.

Definition pathJoin (path1 path2 : string) : string :=
  (path1 ++ "/" ++ path2)%string.

Definition utils : Utils :=
  Build_Utils rtrim split toSizeT toInt toDouble contains_ci
    (fun _ l => statisticsOf l)
    (fun ds => statisticsOf (flat_map values ds))
    {| minimum := Double.nan; maximum := Double.nan |}
    Double.nan
    dirName pathJoin.

End Sample.

(** ** Inputs the properties are tried on *)

Module Inputs.

Definition d (z : Z) : double := Double.of_Z z.
Definition f (z : Z) : float := Float32.of_double (d z).

(** Two cells, the second one north of the first. *)
Definition cadpts : TextFile := [ "1 0 0"; "2 0 10" ]%string.

Definition fplain : TextFile :=
  [ "1 2 0 0 0 0.04 5"; "2 0 0 1 0 0.04 6" ]%string.

Definition geometry : Directory :=
  {| CADPTS_DAT := Some cadpts;
     FPLAIN_DAT := Some fplain;
     TIMDEP_OUT := None;
     DEPTH_OUT := None;
     VELFP_OUT := None;
     VELOC_OUT := None;
     TIMDEP_HDF5 := None |}.

(** The connectivity of [fplain] with its two records in the other order. *)
Definition fplain_swapped : TextFile :=
  [ "2 0 0 1 0 0.04 6"; "1 2 0 0 0 0.04 5" ]%string.

Definition geometry_swapped : Directory :=
  {| CADPTS_DAT := Some cadpts;
     FPLAIN_DAT := Some fplain_swapped;
     TIMDEP_OUT := None;
     DEPTH_OUT := None;
     VELFP_OUT := None;
     VELOC_OUT := None;
     TIMDEP_HDF5 := None |}.

Definition north_south : list CellCenter :=
  [ {| id := 0; x := d 0; y := d 0; conn := [1; -1; -1; -1] |};
    {| id := 1; x := d 0; y := d 10; conn := [-1; -1; 0; -1] |} ].

(** Two cells, the second one east of the first. *)
Definition east_west : list CellCenter :=
  [ {| id := 0; x := d 0; y := d 0; conn := [-1; 1; -1; -1] |};
    {| id := 1; x := d 10; y := d 0; conn := [-1; -1; -1; 0] |} ].

(** The mesh of the two cells [north_south]: two faces, six vertices. *)
Definition mesh2 : MemoryMesh := createMesh north_south (d 5).

(** The mesh of one cell: one face, four vertices. *)
Definition mesh1 : MemoryMesh :=
  createMesh [ {| id := 0; x := d 0; y := d 0; conn := [-1; -1; -1; -1] |} ] (d 5).

(** A time marker followed by three records, for a mesh of two faces. *)
Definition timdep3 : TextFile :=
  [ "0.5"; "1 1.0 1.0 1.0 1.0"; "2 1.0 1.0 1.0 1.0"; "3 1.0 1.0 1.0 1.0" ]%string.

Definition with_timdep (f : TextFile) : Directory :=
  {| CADPTS_DAT := Some cadpts;
     FPLAIN_DAT := Some fplain;
     TIMDEP_OUT := Some f;
     DEPTH_OUT := None;
     VELFP_OUT := None;
     VELOC_OUT := None;
     TIMDEP_HDF5 := None |}.

(** Floodplain and channel velocities, for a mesh of one face. *)
Definition with_velocities (velfp veloc : option TextFile) : Directory :=
  {| CADPTS_DAT := None;
     FPLAIN_DAT := None;
     TIMDEP_OUT := None;
     DEPTH_OUT := None;
     VELFP_OUT := velfp;
     VELOC_OUT := veloc;
     TIMDEP_HDF5 := None |}.

(** A scalar group on [mesh1] with one dataset, at time 1, holding 5. *)
Definition depth_group : DatasetGroup :=
  {| uri := "out.hdf5";
     name := "Depth";
     isOnVertices := false;
     isScalar := true;
     datasets :=
       [ {| time := d 1; values := [d 5];
            ds_statistics := {| minimum := d 5; maximum := d 5 |} |} ];
     statistics := {| minimum := d 5; maximum := d 5 |};
     mesh_vertices := 4;
     mesh_faces := 1 |}.

Definition sub_group (grouptype : option string) (times : list double)
  (vals : list float) : HdfGroup :=
  {| attributes :=
       match grouptype with
       | Some t => [("Grouptype", HdfString t)]%string
       | None => []
       end;
     dsets :=
       [ ("Times", writeDoubles [List.length times] times);
         ("Values", writeFloats [List.length vals] vals) ]%string |}.

Definition store_of (groups : list (string * HdfGroup)) : HdfFile :=
  {| root_dsets := [];
     results := Some {| r_attributes := []; r_groups := groups |} |}.

(** A store that already holds the groups "Depth" and "Depth_0". *)
Definition store_depth_twice : HdfFile :=
  store_of [ ("Depth", sub_group (Some "DATASET SCALAR") [d 1] [f 5]);
             ("Depth_0", sub_group (Some "DATASET SCALAR") [d 1] [f 5]) ]%string.

(** A store for two faces whose first sub-group is sound and whose second
    sub-group has no type attribute. *)
Definition store_partial : HdfFile :=
  store_of [ ("A", sub_group (Some "DATASET SCALAR") [d 1] [f 5; f 7]);
             ("B", sub_group None [d 1] [f 5; f 7]) ]%string.

Definition with_store (s : HdfFile) : Directory :=
  {| CADPTS_DAT := Some cadpts;
     FPLAIN_DAT := Some fplain;
     TIMDEP_OUT := None;
     DEPTH_OUT := None;
     VELFP_OUT := None;
     VELOC_OUT := None;
     TIMDEP_HDF5 := Some (Some s) |}.

End Inputs.

(** ** Reference definitions for the mesh

    The words of the specification on the reconstructed mesh, to compare
    [createMesh] with. *)

(** The corner points of the cells, in the order [createMesh] makes them. *)
Definition corners (cells : list CellCenter) (half_cell_size : double)
  : list Vertex :=
  flat_map
    (fun cell => map (fun position => createVertex position half_cell_size cell)
                     (seq 0 4))
    cells.

(** The first index of [l] at which [f] holds. *)
Fixpoint index_where {A : Type} (f : A -> bool) (l : list A) : option nat :=
  match l with
  | [] => None
  | a :: t => if f a then Some 0%nat else option_map S (index_where f t)
  end.

(** The index in [vs] of the first vertex whose key compares equal to the
    key of [v]. *)
Definition index_of_key (vs : list Vertex) (v : Vertex) : option nat :=
  index_where (fun u => equivalent u v) vs.

(** The points of [l] whose key compares equal to the key of no earlier
    point, nor of a point of [seen], added to [seen] in the order they
    occur. *)
Fixpoint first_occurrences (seen l : list Vertex) : list Vertex :=
  match l with
  | [] => seen
  | v :: t =>
      match index_of_key seen v with
      | Some _ => first_occurrences seen t
      | None => first_occurrences (seen ++ [v]) t
      end
  end.

(** A geometry is valid when the key of every corner is a number. *)
Definition valid_geometry (cells : list CellCenter) (half_cell_size : double)
  : Prop :=
  Forall (fun v => Double.isnan (vertexKey v) = false)
         (corners cells half_cell_size).

(** Two doubles compare equal when both are zeros or they are the same
    number. *)
Definition same_number (a b : spec_float) : Prop :=
  match a, b with
  | S754_zero _, S754_zero _ => True
  | S754_nan, _ | _, S754_nan => False
  | _, _ => a = b
  end.

(** The locals of [createMesh] agree: the map sends each vertex made so far
    to its index, and [vertex_idx] is their number. *)
Definition builder_ok (b : MeshBuilder) : Prop :=
  vertex_idx b = List.length (b_vertices b) /\
  unique_vertices b =
    combine (b_vertices b) (seq 0 (List.length (b_vertices b))).

(** The indices a face holds for the corners of its cell. *)
Definition face_of_cell (vs : list Vertex) (half_cell_size : double)
  (cell : CellCenter) (e : Face) : Prop :=
  Forall2
    (fun position i =>
       index_of_key vs (createVertex position half_cell_size cell) = Some i)
    (seq 0 4) e.

(** ** Reference definitions for the load *)

(** [m'] is [m] with groups added at the end of its collection, all of them
    satisfying [P]. *)
Definition appends (P : DatasetGroup -> Prop) (m m' : MemoryMesh) : Prop :=
  verticesCount m' = verticesCount m /\
  facesCount m' = facesCount m /\
  faces m' = faces m /\
  vertices m' = vertices m /\
  exists added,
    datasetGroups m' = datasetGroups m ++ added /\ Forall P added.

Definition push_groups (m : MemoryMesh) (gs : list DatasetGroup) : MemoryMesh :=
  fold_left push_group gs m.

Section Fallback.

Context {U : Utils}.

(** The mandatory part of [load]: the geometry and the bed elevation. *)
Definition load_geometry (dir : Directory) (mDatFileName : string)
  : outcome (MemoryMesh * list double) :=
  cells <- parseCADPTSFile dir [] ;;
  '(elevations, cells) <- parseFPLAINFile dir cells ;;
  cell_size <- calcCellSize cells ;;
  let mesh := createMesh cells (Double.div cell_size (Double.of_Z 2)) in
  mesh <- addStaticDataset mesh elevations "Bed Elevation" mDatFileName ;;
  Ok (mesh, elevations).

(** The failure triggers of a sub-group, in the words of the specification:
    the type attribute is absent, or the time-axis dataset is absent, or the
    value-array dataset is absent, or the element count of the value array is
    not [facesCount * timesteps * (2 if vector else 1)]. *)
Definition subgroupDefective (nFaces : nat) (grp : HdfGroup) : bool :=
  match lookup "Grouptype" (attributes grp),
        lookup "Times" (dsets grp),
        lookup "Values" (dsets grp) with
  | Some groupType, Some timesDs, Some valuesDs =>
      negb (elementCount valuesDs =?
              nFaces * elementCount timesDs *
                (if contains_ci (readString groupType) "vector" then 2 else 1))%nat
  | _, _, _ => true
  end.

Definition nameDefective (nFaces : nat) (r : HdfResults) (grpName : string)
  : bool :=
  match lookup grpName (r_groups r) with
  | Some grp => subgroupDefective nFaces grp
  | None => true
  end.

(** The names that precede the first defective one. *)
Fixpoint soundPrefix (nFaces : nat) (r : HdfResults) (names : list string)
  : list string :=
  match names with
  | [] => []
  | n :: rest =>
      if nameDefective nFaces r n then [] else n :: soundPrefix nFaces r rest
  end.

(** The failure triggers of the store: the file is absent, or cannot be
    opened, or has no results group, or one of its sub-groups is defective. *)
Definition storeFails (nFaces : nat) (store : option (option HdfFile)) : bool :=
  match store with
  | Some (Some file) =>
      match results file with
      | Some r => existsb (nameDefective nFaces r) (map fst (r_groups r))
      | None => true
      end
  | _ => true
  end.

(** The names of the sub-groups read before the store fails. *)
Definition readBeforeFailure (nFaces : nat) (store : option (option HdfFile))
  : list string :=
  match store with
  | Some (Some file) =>
      match results file with
      | Some r => soundPrefix nFaces r (map fst (r_groups r))
      | None => []
      end
  | _ => []
  end.

End Fallback.

(** ** Probes, and loading the datasets of a store into a mesh *)

Definition canReadMesh (dir : Directory) : bool :=
  match CADPTS_DAT dir with
  | None => false
  | Some _ =>
      match FPLAIN_DAT dir with
      | None => false
      | Some _ => true
      end
  end.




(** ** Reference definitions for the further properties *)

(** No two vertices of [vs] have keys that compare equal. *)
Definition distinct_keys (vs : list Vertex) : Prop :=
  forall i j u v,
    nth_error vs i = Some u -> nth_error vs j = Some v ->
    equivalent u v = true -> i = j.

(** The times of the slices of a time-varying file: its lines of one field,
    in order. *)
Definition markerTimes {U : Utils} (lines : TextFile) : list double :=
  map (fun line => toDouble (rtrim line))
    (filter (fun line => (List.length (split (rtrim line)) =? 1)%nat) lines).

(** The dataset a reader is filling, if any. *)
Definition pending (d : option Dataset) : list Dataset :=
  match d with
  | Some x => [x]
  | None => []
  end.

(** The number of values of a dataset of the group. *)
Definition bufferSize (g : DatasetGroup) : nat :=
  if isScalar g then mesh_faces g else (2 * mesh_faces g)%nat.

(** A group of the time-varying reader [g], with the dataset [cur] being
    filled, after the slices at the times [ms]: it is the group [g0] it
    started as, on faces, with one dataset per slice. *)
Definition group_inv (g0 : DatasetGroup) (ms : list double)
  (g : DatasetGroup) (cur : option Dataset) : Prop :=
  uri g = uri g0 /\
  name g = name g0 /\
  isScalar g = isScalar g0 /\
  isOnVertices g = false /\
  mesh_faces g = mesh_faces g0 /\
  map time (datasets g ++ pending cur) = ms /\
  Forall (fun d => List.length (values d) = bufferSize g0)
    (datasets g ++ pending cur).

(** The three groups of the time-varying reader, together. *)
Definition timdep_inv {U : Utils} (mesh : MemoryMesh) (datFileName : string)
  (ms : list double) (s : TimdepLocals) : Prop :=
  group_inv (depthDsGroup (timdep_start mesh datFileName)) ms
    (depthDsGroup s) (depthDataset s) /\
  group_inv (flowDsGroup (timdep_start mesh datFileName)) ms
    (flowDsGroup s) (flowDataset s) /\
  group_inv (waterLevelDsGroup (timdep_start mesh datFileName)) ms
    (waterLevelDsGroup s) (waterLevelDataset s).

(** The value of a line of a static-maxima file: its fourth field,
    decoded. *)
Definition maximumOf {U : Utils} (line : string) : double :=
  getDoubleS (field (split (rtrim line)) 3).

(** The water level of a line read for the face [i]: the depth plus the
    bed elevation of the face, or the missing value. *)
Definition levelOf {U : Utils} (elevations : list double)
  (entry : string * nat) : double :=
  let val := maximumOf (fst entry) in
  if Double.isnan val then val
  else Double.add val (nth (snd entry) elevations Double.zero).

(** [base], with the values of [over] that are not missing written over
    it, face by face. *)
Fixpoint overlay (base over : list double) : list double :=
  match base, over with
  | b :: base', o :: over' =>
      (if Double.isnan o then b else o) :: overlay base' over'
  | _, _ => base
  end.

(** The values of the time index [ts] in the value array of a sub-group,
    decoded: one per face for a scalar group, two per face for a vector
    group. *)
Definition sliceScalar (nFaces ts : nat) (vals : list float) : list double :=
  map (fun i =>
         getDouble (Float32.to_double (nth (ts * nFaces + i) vals Float32.zero)))
      (seq 0 nFaces).

Definition sliceVector (nFaces ts : nat) (vals : list float) : list double :=
  flat_map
    (fun i =>
       [ getDouble (Float32.to_double
                      (nth (2 * (ts * nFaces + i)) vals Float32.zero));
         getDouble (Float32.to_double
                      (nth (2 * (ts * nFaces + i) + 1) vals Float32.zero)) ])
    (seq 0 nFaces).

Definition slice (isVector : bool) (nFaces : nat) (vals : list float)
  (ts : nat) : list double :=
  if isVector then sliceVector nFaces ts vals else sliceScalar nFaces ts vals.

(** The row the writer stores for a dataset: its values, encoded and cast
    to [float]. *)
Definition storedRow (valCount : nat) (dataset : Dataset) : list float :=
  map (fun v => Float32.of_double (toFlo2DDouble v)) (rowData valCount dataset).

(** The number of values per dataset of a group in the store. *)
Definition storedCount (g : DatasetGroup) : nat :=
  if isScalar g then mesh_faces g else (mesh_faces g * 2)%nat.

(** The buffers the writer has prepared for the datasets [dsl] of a group. *)
Definition preparedBuffers (valCount : nat) (dsl : list Dataset) : WriteBuffers :=
  {| maximums := map (fun ds => Float32.of_double (maximum (ds_statistics ds))) dsl;
     minimums := map (fun ds => Float32.of_double (minimum (ds_statistics ds))) dsl;
     times := repeat Double.zero (List.length dsl) ++ map time dsl;
     w_values := List.concat (map (storedRow valCount) dsl) |}.

(** The sub-group the writer stores for a group. *)
Definition storedGroup (g : DatasetGroup) : HdfGroup :=
  appendGroup_store (isScalar g) (List.length (datasets g))
    (if isScalar g
     then [List.length (datasets g); mesh_faces g]
     else [List.length (datasets g); mesh_faces g; 2%nat])
    (preparedBuffers (storedCount g) (datasets g)).


(** [file] with the sub-group [grp] added under the name [n] at the end of
    its results group [r]. *)
Definition withSubGroup (file : HdfFile) (r : HdfResults) (n : string)
  (grp : HdfGroup) : HdfFile :=
  {| root_dsets := root_dsets file;
     results := Some {| r_attributes := r_attributes r;
                        r_groups := r_groups r ++ [(n, grp)] |} |}.


(** The statuses the readers of the text files throw. *)
Definition thrown (e : MDAL_Status) : Prop :=
  e = Err_FileNotFound \/ e = Err_UnknownFormat \/ e = Err_IncompatibleMesh.

(** The computation [c] throws only statuses that satisfy [P]. *)
Definition throws_only {A : Type} (P : MDAL_Status -> Prop) (c : outcome A)
  : Prop :=
  forall e, c = Throw e -> P e.

(** The statuses the readers throw on a file that is there. *)
Definition contentError (e : MDAL_Status) : Prop :=
  e = Err_UnknownFormat \/ e = Err_IncompatibleMesh.

(** * Properties *)

(** Closed statements on the inputs above are settled by running the
    driver. *)
Ltac run := vm_compute; reflexivity.

(** The next conjunct, by running. *)
Ltac step := split; [run|].

(** ** Comparisons of doubles *)

Lemma sub_zero (v : double) : Double.sub v Double.zero = v.
Proof. destruct v as [[]|[]| |s m e]; reflexivity. Qed.

Lemma SFcompare_Lt_Gt (a b : spec_float) :
  SFcompare a b = Some Lt -> SFcompare b a = Some Gt.
Proof.
  destruct a as [sa|sa| |sa ma ea], b as [sb|sb| |sb mb eb]; simpl;
    try discriminate; try (destruct sa; discriminate || reflexivity);
    try (destruct sb; discriminate || reflexivity);
    try (destruct sa, sb; discriminate || reflexivity).
  intros H. f_equal. injection H as H.
  rewrite (Z.compare_antisym ea eb).
  pose proof (Pos.compare_cont_antisym ma mb Eq) as HP. simpl in HP.
  rewrite <- HP.
  destruct sa, sb; try reflexivity; try discriminate;
    destruct (ea ?= eb); simpl in *; try reflexivity; try discriminate;
    destruct (Pos.compare_cont Eq ma mb); simpl in *; congruence.
Qed.

Lemma ltb_not_leb (a b : double) :
  Double.ltb a b = true -> Double.leb b a = false.
Proof.
  unfold Double.ltb, Double.leb, SFltb, SFleb. intros H.
  destruct (SFcompare a b) as [[]|] eqn:E; try discriminate.
  now rewrite (SFcompare_Lt_Gt _ _ E).
Qed.

Lemma ltb_fabs_not_nan (a v : double) :
  Double.ltb a (Double.fabs v) = true -> Double.isnan v = false.
Proof.
  destruct v; try reflexivity.
  unfold Double.ltb, SFltb. simpl. destruct a; discriminate.
Qed.

Lemma eqb_refl_not_nan (v : double) :
  Double.isnan v = false -> Double.eqb v v = true.
Proof.
  destruct v as [s|s| |s m e]; try discriminate; intros _;
    unfold Double.eqb, SFeqb; simpl.
  - reflexivity.
  - destruct s; reflexivity.
  - rewrite Z.compare_refl.
    assert (Pos.compare_cont Eq m m = Eq) as -> by apply Pos.compare_refl.
    destruct s; reflexivity.
Qed.

(** ** The sentinel codec *)

(** C7.  For every double [v] with [|v| > 1e-8], encoding the decoded value
    gives [v] back (the same double, which also compares [==] to [v]); for
    every [v] with [|v| <= 1e-8] the decoder returns the missing value; and
    the encoder sends the missing value to [0.0]. *)
Theorem sentinel_round_trip (v : double) :
  (Double.ltb eps_1e8 (Double.fabs v) = true ->
     toFlo2DDouble (getDouble v) = v /\
     Double.eqb (toFlo2DDouble (getDouble v)) v = true) /\
  (Double.leb (Double.fabs v) eps_1e8 = true -> getDouble v = MDAL_NAN) /\
  toFlo2DDouble MDAL_NAN = Double.zero.
Proof.
  split; [|split].
  - intros H.
    assert (getDouble v = v) as Hd.
    { unfold getDouble, equals, FLO2D_NAN. rewrite sub_zero.
      now rewrite (ltb_not_leb _ _ H). }
    pose proof (ltb_fabs_not_nan _ _ H) as Hn.
    rewrite Hd. unfold toFlo2DDouble. rewrite Hn.
    split; [reflexivity | now apply eqb_refl_not_nan].
  - intros H. unfold getDouble, equals, FLO2D_NAN.
    rewrite sub_zero. now rewrite H.
  - reflexivity.
Qed.

Lemma sentinel_round_trip_witness :
  (toFlo2DDouble (getDouble (Double.of_Z 3)) = Double.of_Z 3 /\
   Double.eqb (toFlo2DDouble (getDouble (Double.of_Z 3))) (Double.of_Z 3) = true) /\
  getDouble (S754_zero true) = MDAL_NAN.
Proof.
  split.
  - apply (proj1 (sentinel_round_trip (Double.of_Z 3))). reflexivity.
  - apply (proj1 (proj2 (sentinel_round_trip (S754_zero true)))). reflexivity.
Defined.

(** ** The cell-centre records *)

(** Whatever the utilities are, a record of three fields gives a cell whose
    [id] is read from the second field, like its [x]. *)
Lemma parseCADPTS_line_fields {U : Utils} (line a b c : string) :
  split (rtrim line) = [a; b; c] ->
  parseCADPTS_line line =
    Ok {| id := size_t_sub (toSizeT b) 1; x := toDouble b; y := toDouble c;
          conn := [0; 0; 0; 0] |}.
Proof. intros H. unfold parseCADPTS_line. rewrite H. reflexivity. Qed.

Lemma parseCADPTS_line_malformed {U : Utils} (line : string) :
  List.length (split (rtrim line)) <> 3%nat ->
  parseCADPTS_line line = Throw Err_UnknownFormat.
Proof.
  intros H. unfold parseCADPTS_line.
  destruct (Nat.eqb_spec (List.length (split (rtrim line))) 3); [easy|reflexivity].
Qed.

Lemma parseCADPTSFile_absent {U : Utils} (dir : Directory) cells :
  CADPTS_DAT dir = None -> parseCADPTSFile dir cells = Throw Err_FileNotFound.
Proof. intros H. unfold parseCADPTSFile. now rewrite H. Qed.

(** C8.  On the record [1 5.0 7.0] the parser stores the id 4, the second
    field minus one, where the first field minus one is 0; [x] and [y] are the
    second and the third field. *)
Theorem parseCADPTS_id_from_second_field :
  exists cc : CellCenter,
    parseCADPTS_line (U := Sample.utils) "1 5.0 7.0" = Ok cc /\
    id cc = 4 /\
    Sample.toSizeT "1" - 1 = 0 /\
    x cc = Sample.toDouble "5.0" /\
    y cc = Sample.toDouble "7.0".
Proof.
  eexists.
  step. step. step. step. run.
Qed.

(** ** The cell size *)

(** Only the first slot of a cell is read: when the first slot of every cell
    is a boundary, no size is found, whatever the other slots hold. *)
Lemma calcCellSize_from_first_slot (cells rest : list CellCenter) :
  Forall (fun c => exists t, conn c = (-1) :: t) rest ->
  calcCellSize_from cells rest = Throw Err_IncompatibleMesh.
Proof.
  induction 1 as [|c rest [t Hc] _ IH]; [reflexivity|].
  simpl. unfold calcCellSize_slot. rewrite Hc. simpl. exact IH.
Qed.

(** C2.  The first of two cells has the second as its east neighbour and no
    other neighbour; their centres are 10 apart.  No size is returned: the
    call ends with the incompatible-mesh status.  With the neighbour in the
    north slot the same distance is found. *)
Theorem calcCellSize_misses_east_neighbour :
  nth_error (conn (nth 0 Inputs.east_west (Build_CellCenter 0 Double.zero Double.zero []))) 1
    = Some 1 /\
  calcCellSize Inputs.east_west = Throw Err_IncompatibleMesh /\
  calcCellSize Inputs.north_south = Ok (Double.of_Z 10).
Proof. step. step. run. Qed.

(** ** The time-varying reader *)

Lemma timdep_record_before_marker {U : Utils} nVertexs elevations lineParts s :
  depthDataset s = None \/ flowDataset s = None \/ waterLevelDataset s = None ->
  timdep_record nVertexs elevations lineParts s = Throw Err_UnknownFormat.
Proof.
  unfold timdep_record. intros [H|[H|H]]; rewrite H;
    destruct (depthDataset s), (flowDataset s); reflexivity.
Qed.

Lemma timdep_line_field_count {U : Utils} nVertexs elevations line s :
  let n := List.length (split (rtrim line)) in
  n <> 1%nat -> n <> 5%nat -> n <> 6%nat ->
  timdep_line nVertexs elevations line s = Throw Err_UnknownFormat.
Proof.
  intros n H1 H5 H6. unfold timdep_line. fold n.
  destruct (Nat.eqb_spec n 1); [easy|].
  destruct (Nat.eqb_spec n 5); [easy|].
  destruct (Nat.eqb_spec n 6); [easy|reflexivity].
Qed.

(** The guard on the number of records compares with the number of vertices
    of the mesh. *)
Lemma timdep_record_guard {U : Utils} nVertexs elevations lineParts s dd fd wd :
  depthDataset s = Some dd -> flowDataset s = Some fd ->
  waterLevelDataset s = Some wd -> face_idx s = nVertexs ->
  timdep_record nVertexs elevations lineParts s = Throw Err_IncompatibleMesh.
Proof.
  intros Hd Hf Hw Hi. unfold timdep_record. rewrite Hd, Hf, Hw, Hi.
  now rewrite Nat.eqb_refl.
Qed.

(** C4.  On a mesh of two faces (and six vertices), a time marker followed by
    three records does not end with the incompatible-mesh status: the third
    record is written past the end of the buffers of the slice.  A record
    before any marker and a line of three fields both end with the
    malformed-format status. *)
Theorem parseTIMDEP_third_record_of_two_faces :
  facesCount Inputs.mesh2 = 2%nat /\
  verticesCount Inputs.mesh2 = 6%nat /\
  parseTIMDEPFile (U := Sample.utils) (Inputs.with_timdep Inputs.timdep3)
    Inputs.mesh2 "CADPTS.DAT" [Inputs.d 5; Inputs.d 6] = Undefined /\
  parseTIMDEPFile (U := Sample.utils)
    (Inputs.with_timdep ["1 1.0 1.0 1.0 1.0"%string])
    Inputs.mesh2 "CADPTS.DAT" [Inputs.d 5; Inputs.d 6] = Throw Err_UnknownFormat /\
  parseTIMDEPFile (U := Sample.utils)
    (Inputs.with_timdep ["0.5"; "1 1.0 1.0"]%string)
    Inputs.mesh2 "CADPTS.DAT" [Inputs.d 5; Inputs.d 6] = Throw Err_UnknownFormat.
Proof. step. step. step. step. run. Qed.

(** ** The maximal velocities *)

(** C5.  On a mesh of one face, with the floodplain file holding 2.0: when
    the channel file is absent no group is added to the mesh; when the channel
    file is present and holds the missing value the group holds 2.0; when it
    holds 3.0 the group holds 3.0. *)
Theorem parseVELFPVELOC_without_channel_file :
  parseVELFPVELOCFile (U := Sample.utils)
    (Inputs.with_velocities (Some ["1 0 0 2.0"%string]) None)
    Inputs.mesh1 "CADPTS.DAT" = Ok Inputs.mesh1 /\
  datasetGroups Inputs.mesh1 = [] /\
  (exists m g ds,
     parseVELFPVELOCFile (U := Sample.utils)
       (Inputs.with_velocities (Some ["1 0 0 2.0"%string])
          (Some ["1 0 0 0.0"%string]))
       Inputs.mesh1 "CADPTS.DAT" = Ok m /\
     datasetGroups m = [g] /\ name g = "Velocity/Maximums"%string /\
     isScalar g = true /\ datasets g = [ds] /\
     values ds = [Sample.toDouble "2.0"]) /\
  (exists m g ds,
     parseVELFPVELOCFile (U := Sample.utils)
       (Inputs.with_velocities (Some ["1 0 0 2.0"%string])
          (Some ["1 0 0 3.0"%string]))
       Inputs.mesh1 "CADPTS.DAT" = Ok m /\
     datasetGroups m = [g] /\ datasets g = [ds] /\
     values ds = [Sample.toDouble "3.0"]).
Proof.
  step. step. split.
  - do 3 eexists. step. step. step. step. step. run.
  - do 3 eexists. step. step. step. run.
Qed.

(** ** The writer *)

(** Once the name with the suffix is taken too, a turn of the naming loop
    leaves its state as it was. *)
Lemma uniqueGroupName_stuck (groupTNOR : HdfResults) (name : string) (i : Z) :
  pathExists groupTNOR (name ++ "_" ++ to_string i) = true ->
  forall fuel,
    uniqueGroupName fuel groupTNOR name i (name ++ "_" ++ to_string i) = None.
Proof.
  intros H fuel.
  induction fuel as [|fuel IH]; cbn [uniqueGroupName]; rewrite H;
    [reflexivity | exact IH].
Qed.

Lemma uniqueGroupName_collision (groupTNOR : HdfResults) (name : string) :
  pathExists groupTNOR name = true ->
  pathExists groupTNOR (name ++ "_" ++ to_string 0) = true ->
  forall fuel, uniqueGroupName fuel groupTNOR name 0 name = None.
Proof.
  intros H H0 [|fuel]; cbn [uniqueGroupName]; rewrite H; [reflexivity|].
  now apply uniqueGroupName_stuck.
Qed.

(** With the name taken and the suffixed name free, one turn ends the loop. *)
Lemma uniqueGroupName_once (groupTNOR : HdfResults) (name : string) fuel :
  pathExists groupTNOR name = true ->
  pathExists groupTNOR (name ++ "_" ++ to_string 0) = false ->
  uniqueGroupName (S fuel) groupTNOR name 0 name
    = Some (name ++ "_" ++ to_string 0)%string.
Proof.
  intros H H0. cbn [uniqueGroupName]. rewrite H.
  destruct fuel; cbn [uniqueGroupName]; now rewrite H0.
Qed.

(** C9.  The store holds the sub-groups "Depth" and "Depth_0" and the group
    to persist is named "Depth": however many turns the naming loop is given,
    it has not ended, and nothing is written. *)
Theorem persist_name_loop_never_ends :
  pathExists
    {| r_attributes := []; r_groups := match results Inputs.store_depth_twice with
                                        | Some r => r_groups r | None => [] end |}
    (name Inputs.depth_group) = true /\
  forall fuel : nat,
    persist fuel (Some (Some Inputs.store_depth_twice)) Inputs.depth_group = None.
Proof.
  split; [reflexivity|]. intros fuel.
  unfold persist, addToHDF5File, appendGroup. simpl results. simpl isOnVertices.
  cbv iota.
  rewrite uniqueGroupName_collision; reflexivity.
Qed.

(** C3.  A scalar group on a mesh of one face, with one dataset at time 1
    that holds 5, is persisted into a fresh store and read back.  The writer
    and the reader both report success; the group read back has one dataset
    that holds 5, and its time is 0, not 1. *)
Theorem persist_reload_loses_time :
  exists (store : option (option HdfFile)) (mesh : MemoryMesh)
         (g : DatasetGroup) (ds : Dataset),
    persist 1 None Inputs.depth_group = Some (false, store) /\
    parseHDF5Datasets (U := Sample.utils) Inputs.mesh1 "out.hdf5" store
      = (false, mesh) /\
    datasetGroups mesh = [g] /\
    name g = "Depth"%string /\
    datasets g = [ds] /\
    values ds = [Inputs.d 5] /\
    map time (datasets Inputs.depth_group) = [Inputs.d 1] /\
    time ds = Double.zero /\
    Double.eqb (time ds) (Inputs.d 1) = false.
Proof.
  do 4 eexists.
  step. step. step. step. step. step. step. step. run.
Qed.

(** ** Partial results of the reader of the store *)


(** ** The comparator of the vertices *)

Lemma SFcompare_Gt_Lt (a b : spec_float) :
  SFcompare a b = Some Gt -> SFcompare b a = Some Lt.
Proof.
  destruct a as [sa|sa| |sa ma ea], b as [sb|sb| |sb mb eb]; simpl;
    try discriminate; try (destruct sa; discriminate || reflexivity);
    try (destruct sb; discriminate || reflexivity);
    try (destruct sa, sb; discriminate || reflexivity).
  intros H. f_equal. injection H as H.
  rewrite (Z.compare_antisym ea eb).
  pose proof (Pos.compare_cont_antisym ma mb Eq) as HP. simpl in HP.
  rewrite <- HP.
  destruct sa, sb; try reflexivity; try discriminate;
    destruct (ea ?= eb); simpl in *; try reflexivity; try discriminate;
    destruct (Pos.compare_cont Eq ma mb); simpl in *; congruence.
Qed.

Lemma SFcompare_not_nan (a b : spec_float) :
  Double.isnan a = false -> Double.isnan b = false ->
  exists c, SFcompare a b = Some c.
Proof.
  destruct a, b; simpl; try discriminate; intros _ _; eexists; reflexivity.
Qed.

Lemma SFcompare_Eq_same (a b : spec_float) :
  SFcompare a b = Some Eq <-> same_number a b.
Proof.
  destruct a as [sa|sa| |sa ma ea], b as [sb|sb| |sb mb eb]; simpl;
    try (split; [discriminate | intros H; discriminate H || contradiction]);
    try (split; [intros H; destruct sa; discriminate H | discriminate]);
    try (split; [intros H; destruct sb; discriminate H | discriminate]);
    try tauto.
  - destruct sa, sb; split; intros H; try discriminate H; try reflexivity;
      injection H as H; discriminate H.
  - split.
    + intros H. injection H as H.
      destruct sa, sb; try discriminate H;
        destruct (ea ?= eb) eqn:E; try discriminate H;
        apply Z.compare_eq in E; subst eb;
        destruct (Pos.compare_cont Eq ma mb) eqn:E'; try discriminate H;
        apply Pos.compare_eq in E'; now subst mb.
    + intros H. injection H as -> -> ->.
      rewrite Z.compare_refl.
      assert (Pos.compare_cont Eq mb mb = Eq) as -> by apply Pos.compare_refl.
      destruct sb; reflexivity.
Qed.

Lemma same_number_sym (a b : spec_float) : same_number a b -> same_number b a.
Proof. destruct a, b; simpl; auto; congruence. Qed.

Lemma same_number_trans (a b c : spec_float) :
  same_number a b -> same_number b c -> same_number a c.
Proof.
  destruct a, b, c; simpl; intros H H'; try contradiction; try exact I;
    congruence.
Qed.

Lemma ltb_irrefl (a : double) : Double.ltb a a = false.
Proof.
  unfold Double.ltb, SFltb.
  destruct (Double.isnan a) eqn:E.
  - destruct a; try discriminate. reflexivity.
  - assert (SFcompare a a = Some Eq) as ->; [|reflexivity].
    apply SFcompare_Eq_same. destruct a; simpl; auto; discriminate.
Qed.

Lemma equivalent_refl (v : Vertex) : equivalent v v = true.
Proof. unfold equivalent, VertexCompare. now rewrite ltb_irrefl. Qed.

Lemma equivalent_sym (u v : Vertex) : equivalent u v = equivalent v u.
Proof. unfold equivalent. apply andb_comm. Qed.

Lemma equivalent_same (u v : Vertex) :
  Double.isnan (vertexKey u) = false -> Double.isnan (vertexKey v) = false ->
  equivalent u v = true <-> same_number (vertexKey u) (vertexKey v).
Proof.
  intros Hu Hv. unfold equivalent, VertexCompare, Double.ltb, SFltb.
  destruct (SFcompare_not_nan _ _ Hu Hv) as [c Hc].
  rewrite <- SFcompare_Eq_same. rewrite Hc.
  destruct c.
  - rewrite (proj2 (SFcompare_Eq_same _ _)
               (same_number_sym _ _ (proj1 (SFcompare_Eq_same _ _) Hc))).
    simpl. tauto.
  - simpl. split; discriminate.
  - rewrite (SFcompare_Gt_Lt _ _ Hc). simpl. split; discriminate.
Qed.

Lemma equivalent_trans (u v w : Vertex) :
  Double.isnan (vertexKey u) = false -> Double.isnan (vertexKey v) = false ->
  Double.isnan (vertexKey w) = false ->
  equivalent u v = true -> equivalent v w = true -> equivalent u w = true.
Proof.
  intros Hu Hv Hw Huv Hvw.
  apply (equivalent_same _ _ Hu Hv) in Huv.
  apply (equivalent_same _ _ Hv Hw) in Hvw.
  apply (equivalent_same _ _ Hu Hw).
  eapply same_number_trans; eassumption.
Qed.

(** ** The mesh *)

Lemma index_where_app_Some {A : Type} (f : A -> bool) (l l' : list A) i :
  index_where f l = Some i -> index_where f (l ++ l') = Some i.
Proof.
  revert i. induction l as [|a l IH]; simpl; [discriminate|].
  intros i. destruct (f a); [easy|].
  destruct (index_where f l) as [j|]; [|discriminate].
  intros H. now rewrite (IH j eq_refl).
Qed.

Lemma index_where_snoc_None {A : Type} (f : A -> bool) (l : list A) a :
  index_where f l = None -> f a = true ->
  index_where f (l ++ [a]) = Some (List.length l).
Proof.
  intros H Ha. induction l as [|b l IH]; simpl in *.
  - now rewrite Ha.
  - destruct (f b); [discriminate|].
    destruct (index_where f l); [discriminate|].
    now rewrite IH.
Qed.

Lemma index_where_Some {A : Type} (f : A -> bool) (l : list A) i :
  index_where f l = Some i ->
  exists a, nth_error l i = Some a /\ f a = true.
Proof.
  revert i. induction l as [|b l IH]; simpl; [discriminate|].
  intros i. destruct (f b) eqn:E.
  - intros H. injection H as <-. exists b. now split.
  - destruct (index_where f l) as [j|]; [|discriminate].
    intros H. injection H as <-. exact (IH j eq_refl).
Qed.

Lemma index_where_lt {A : Type} (f : A -> bool) (l : list A) i :
  index_where f l = Some i -> (i < List.length l)%nat.
Proof.
  intros H. destruct (index_where_Some _ _ H) as [a [Ha _]].
  apply nth_error_Some. congruence.
Qed.

Lemma index_where_ext {A : Type} (f g : A -> bool) (l : list A) :
  Forall (fun a => f a = g a) l -> index_where f l = index_where g l.
Proof.
  induction 1 as [|a l Ha _ IH]; simpl; [reflexivity|].
  now rewrite Ha, IH.
Qed.

Lemma map_find_combine (n : Vertex) (vs : list Vertex) (k : nat) :
  map_find n (combine vs (seq k (List.length vs)))
    = option_map (Nat.add k) (index_of_key vs n).
Proof.
  unfold map_find, index_of_key. revert k.
  induction vs as [|u vs IH]; intros k; simpl; [reflexivity|].
  destruct (equivalent u n).
  - simpl. f_equal. lia.
  - rewrite (IH (S k)).
    destruct (index_where (fun u0 => equivalent u0 n) vs); simpl; [|reflexivity].
    f_equal. lia.
Qed.

Lemma combine_seq_snoc_from (vs : list Vertex) (n : Vertex) (k : nat) :
  combine (vs ++ [n]) (seq k (S (List.length vs)))
    = combine vs (seq k (List.length vs)) ++ [(n, (k + List.length vs)%nat)].
Proof.
  revert k. induction vs as [|u vs IH]; intros k.
  - simpl. now rewrite Nat.add_0_r.
  - change (combine ((u :: vs) ++ [n]) (seq k (S (List.length (u :: vs)))))
      with ((u, k) :: combine (vs ++ [n]) (seq (S k) (S (List.length vs)))).
    rewrite (IH (S k)), Nat.add_succ_comm. reflexivity.
Qed.

Lemma combine_seq_snoc (vs : list Vertex) (n : Vertex) :
  combine (vs ++ [n]) (seq 0 (List.length (vs ++ [n])))
    = combine vs (seq 0 (List.length vs)) ++ [(n, List.length vs)].
Proof.
  rewrite length_app. simpl List.length. rewrite Nat.add_1_r.
  apply combine_seq_snoc_from.
Qed.

Lemma first_occurrences_app (seen l1 l2 : list Vertex) :
  first_occurrences seen (l1 ++ l2)
    = first_occurrences (first_occurrences seen l1) l2.
Proof.
  revert seen. induction l1 as [|v l1 IH]; intros seen; simpl; [reflexivity|].
  destruct (index_of_key seen v); apply IH.
Qed.

Lemma first_occurrences_extends (seen l : list Vertex) :
  exists ext, first_occurrences seen l = seen ++ ext /\ incl ext l.
Proof.
  revert seen. induction l as [|v l IH]; intros seen; simpl.
  - exists []. split; [now rewrite app_nil_r | easy].
  - destruct (index_of_key seen v).
    + destruct (IH seen) as [ext [-> Hi]]. exists ext. split; [reflexivity|].
      now apply incl_tl.
    + destruct (IH (seen ++ [v])) as [ext [-> Hi]]. exists (v :: ext).
      split; [now rewrite <- app_assoc|].
      apply incl_cons; [now left | now apply incl_tl].
Qed.

(** One corner: the vertex list becomes the first occurrences, and the index
    written into the face is the index of the key of the corner. *)
Lemma createMesh_corner_spec half cell b e position :
  builder_ok b ->
  let n := createVertex position half cell in
  exists b' i,
    createMesh_corner half cell (b, e) position = (b', replace_nth e position i) /\
    builder_ok b' /\
    b_faces b' = b_faces b /\
    b_vertices b' = first_occurrences (b_vertices b) [n] /\
    index_of_key (b_vertices b') n = Some i.
Proof.
  intros [Hidx Hmap] n. unfold createMesh_corner. fold n.
  rewrite Hmap, map_find_combine. simpl first_occurrences.
  destruct (index_of_key (b_vertices b) n) as [i|] eqn:E; simpl.
  - exists b, i. repeat split; assumption.
  - eexists. exists (vertex_idx b). split; [reflexivity|]. simpl.
    split; [|split; [reflexivity|split; [reflexivity|]]].
    + split; simpl.
      * rewrite length_app, Hidx. simpl. lia.
      * rewrite Hidx. symmetry. apply combine_seq_snoc.
    + rewrite Hidx. apply index_where_snoc_None; [exact E|].
      apply equivalent_refl.
Qed.

Lemma index_of_key_extends vs ext v i :
  index_of_key vs v = Some i -> index_of_key (vs ++ ext) v = Some i.
Proof. apply index_where_app_Some. Qed.

Lemma face_of_cell_extends vs ext half cell e :
  face_of_cell vs half cell e -> face_of_cell (vs ++ ext) half cell e.
Proof.
  unfold face_of_cell. apply Forall2_impl.
  intros p i. apply index_of_key_extends.
Qed.

Lemma first_occurrences_keeps vs l v i :
  index_of_key vs v = Some i ->
  index_of_key (first_occurrences vs l) v = Some i.
Proof.
  intros H. destruct (first_occurrences_extends vs l) as [ext [-> _]].
  now apply index_of_key_extends.
Qed.

(** One cell: four corners, one face. *)
Lemma createMesh_cell_spec half cell b :
  builder_ok b ->
  exists e,
    builder_ok (createMesh_cell half b cell) /\
    b_faces (createMesh_cell half b cell) = b_faces b ++ [e] /\
    b_vertices (createMesh_cell half b cell)
      = first_occurrences (b_vertices b) (corners [cell] half) /\
    face_of_cell (b_vertices (createMesh_cell half b cell)) half cell e.
Proof.
  intros Hb.
  destruct (createMesh_corner_spec half cell (repeat 0%nat 4) 0 Hb)
    as (b1 & i0 & E0 & Hb1 & Hf1 & Hv1 & Hi0).
  destruct (createMesh_corner_spec half cell
              (replace_nth (repeat 0%nat 4) 0 i0) 1 Hb1)
    as (b2 & i1 & E1 & Hb2 & Hf2 & Hv2 & Hi1).
  destruct (createMesh_corner_spec half cell
              (replace_nth (replace_nth (repeat 0%nat 4) 0 i0) 1 i1) 2 Hb2)
    as (b3 & i2 & E2 & Hb3 & Hf3 & Hv3 & Hi2).
  destruct (createMesh_corner_spec half cell
              (replace_nth (replace_nth (replace_nth (repeat 0%nat 4) 0 i0) 1 i1) 2 i2)
              3 Hb3)
    as (b4 & i3 & E3 & Hb4 & Hf4 & Hv4 & Hi3).
  assert (createMesh_cell half b cell =
          {| b_faces := b_faces b4 ++ [[i0; i1; i2; i3]];
             b_vertices := b_vertices b4;
             unique_vertices := unique_vertices b4;
             vertex_idx := vertex_idx b4 |}) as ->.
  { unfold createMesh_cell.
    change (seq 0 4) with [0; 1; 2; 3]%nat. cbn [fold_left].
    unfold Face in *. rewrite E0, E1, E2, E3. reflexivity. }
  cbn [b_faces b_vertices unique_vertices vertex_idx].
  exists [i0; i1; i2; i3].
  split; [|split; [|split]].
  - split; [apply Hb4 | apply Hb4].
  - rewrite Hf4, Hf3, Hf2, Hf1. reflexivity.
  - rewrite Hv4, Hv3, Hv2, Hv1.
    change (corners [cell] half)
      with ([createVertex 0 half cell] ++ [createVertex 1 half cell]
              ++ [createVertex 2 half cell] ++ [createVertex 3 half cell]).
    now rewrite !first_occurrences_app.
  - unfold face_of_cell. change (seq 0 4) with [0; 1; 2; 3]%nat.
    repeat constructor.
    + rewrite Hv4, Hv3, Hv2. now do 3 apply first_occurrences_keeps.
    + rewrite Hv4, Hv3. now do 2 apply first_occurrences_keeps.
    + rewrite Hv4. now apply first_occurrences_keeps.
    + exact Hi3.
Qed.

Lemma corners_cons cell rest half :
  corners (cell :: rest) half = corners [cell] half ++ corners rest half.
Proof. unfold corners. cbn [flat_map]. now rewrite app_nil_r. Qed.

(** The loop over the cells. *)
Lemma createMesh_loop_spec half cells :
  forall b, builder_ok b ->
    let b' := fold_left (createMesh_cell half) cells b in
    builder_ok b' /\
    b_vertices b' = first_occurrences (b_vertices b) (corners cells half) /\
    exists fs,
      b_faces b' = b_faces b ++ fs /\
      Forall2 (face_of_cell (b_vertices b') half) cells fs.
Proof.
  induction cells as [|cell rest IH]; intros b Hb; cbn [fold_left].
  - split; [exact Hb|]. split; [reflexivity|].
    exists []. split; [now rewrite app_nil_r | constructor].
  - destruct (createMesh_cell_spec half cell Hb) as (e & Hb1 & Hf1 & Hv1 & He).
    destruct (IH _ Hb1) as (Hb' & Hv' & fs & Hfs & Hall).
    split; [exact Hb'|]. split.
    + rewrite Hv', Hv1, corners_cons. now rewrite <- first_occurrences_app.
    + exists (e :: fs). split.
      * rewrite Hfs, Hf1. now rewrite <- app_assoc.
      * constructor; [|exact Hall].
        rewrite Hv'.
        destruct (first_occurrences_extends
                    (b_vertices (createMesh_cell half b cell))
                    (corners rest half)) as [ext [-> _]].
        now apply face_of_cell_extends.
Qed.

Lemma createMesh_faces half cells :
  vertices (createMesh cells half) = first_occurrences [] (corners cells half) /\
  Forall2 (face_of_cell (vertices (createMesh cells half)) half)
    cells (faces (createMesh cells half)).
Proof.
  unfold createMesh, createMesh_loop. simpl.
  destruct (createMesh_loop_spec half cells
              (b := {| b_faces := []; b_vertices := [];
                       unique_vertices := []; vertex_idx := 0 |}))
    as (_ & Hv & fs & Hfs & Hall).
  { split; reflexivity. }
  simpl in *. split; [exact Hv|]. now rewrite Hfs.
Qed.

Lemma face_of_cell_shape vs half cell e :
  face_of_cell vs half cell e ->
  List.length e = 4%nat /\ Forall (fun i => (i < List.length vs)%nat) e.
Proof.
  unfold face_of_cell. intros H. split.
  - apply Forall2_length in H. now rewrite <- H.
  - remember (seq 0 4) as ps. clear Heqps.
    induction H as [|p i ps e Hi _ IH]; constructor; [|exact IH].
    exact (index_where_lt _ _ Hi).
Qed.

(** Two points with a valid key that compare equal have the same index. *)
Lemma index_of_key_equivalent vs u v :
  Forall (fun w => Double.isnan (vertexKey w) = false) vs ->
  Double.isnan (vertexKey u) = false -> Double.isnan (vertexKey v) = false ->
  equivalent u v = true ->
  index_of_key vs u = index_of_key vs v.
Proof.
  intros Hvs Hu Hv Huv. unfold index_of_key. apply index_where_ext.
  eapply Forall_impl; [|exact Hvs].
  intros w Hw. cbv beta.
  destruct (equivalent w u) eqn:E1; symmetry.
  - now apply (equivalent_trans w u v).
  - destruct (equivalent w v) eqn:E2; [|reflexivity].
    assert (equivalent w u = true) as H; [|congruence].
    apply (equivalent_trans w v u); try assumption.
    now rewrite equivalent_sym.
Qed.

Lemma corner_has_index vs half cells fs u :
  Forall2 (face_of_cell vs half) cells fs ->
  In u (corners cells half) ->
  exists i, index_of_key vs u = Some i.
Proof.
  induction 1 as [|cell e cells fs He _ IH]; [easy|].
  rewrite corners_cons. intros Hin.
  apply in_app_or in Hin. destruct Hin as [Hin|Hin]; [|now apply IH].
  unfold face_of_cell in He. change (seq 0 4) with [0; 1; 2; 3]%nat in He.
  inversion He as [|p0 i0 ps0 e0 H0 He0]; subst.
  inversion He0 as [|p1 i1 ps1 e1 H1 He1]; subst.
  inversion He1 as [|p2 i2 ps2 e2 H2 He2]; subst.
  inversion He2 as [|p3 i3 ps3 e3 H3 He3]; subst.
  destruct Hin as [<-|[<-|[<-|[<-|[]]]]]; eauto.
Qed.

Lemma faces_shape vs half cells fs :
  Forall2 (face_of_cell vs half) cells fs ->
  Forall (fun e : Face =>
            List.length e = 4%nat /\
            Forall (fun i => (i < List.length vs)%nat) e) fs.
Proof.
  induction 1 as [|cell e cells fs He _ IH]; constructor; [|exact IH].
  exact (face_of_cell_shape He).
Qed.

(** C6.  For a valid geometry (the key of every corner is a number) the mesh
    has one face per cell; every face holds four indices, each below the
    number of vertices; the vertices are the corners in the order of the first
    occurrence of their key; the index a face holds for a corner is the index
    of the first vertex whose key compares equal to the key of the corner; and
    two corners whose keys compare equal have the same index. *)
Theorem createMesh_faces_and_vertices (cells : list CellCenter) (half : double) :
  valid_geometry cells half ->
  let m := createMesh cells half in
  List.length (faces m) = List.length cells /\
  facesCount m = List.length cells /\
  verticesCount m = List.length (vertices m) /\
  Forall (fun e : Face =>
            List.length e = 4%nat /\
            Forall (fun i => (i < List.length (vertices m))%nat) e) (faces m) /\
  vertices m = first_occurrences [] (corners cells half) /\
  Forall2 (face_of_cell (vertices m) half) cells (faces m) /\
  (forall u v : Vertex,
     In u (corners cells half) -> In v (corners cells half) ->
     equivalent u v = true ->
     exists i, index_of_key (vertices m) u = Some i /\
               index_of_key (vertices m) v = Some i).
Proof.
  intros Hvalid m.
  destruct (createMesh_faces half cells) as [Hv Hf]. fold m in Hv, Hf.
  assert (List.length (faces m) = List.length cells) as Hlen
    by (symmetry; exact (Forall2_length Hf)).
  split; [exact Hlen|]. split; [exact Hlen|]. split; [reflexivity|].
  split; [|split; [exact Hv|split; [exact Hf|]]].
  - exact (faces_shape Hf).
  - intros u v Hu Hv' Huv.
    destruct (corner_has_index _ Hf Hu) as [i Hi].
    exists i. split; [exact Hi|]. rewrite <- Hi. symmetry.
    unfold valid_geometry in Hvalid. rewrite Forall_forall in Hvalid.
    apply index_of_key_equivalent; auto.
    rewrite Hv. destruct (first_occurrences_extends [] (corners cells half))
      as [ext [-> Hincl]].
    simpl. apply Forall_forall. intros w Hw. apply Hvalid. now apply Hincl.
Qed.

Lemma createMesh_faces_and_vertices_witness :
  valid_geometry Inputs.north_south (Inputs.d 5) /\
  faces (createMesh Inputs.north_south (Inputs.d 5))
    = [[0; 1; 2; 3]; [1; 4; 5; 2]]%nat /\
  Forall (fun e : Face =>
            List.length e = 4%nat /\
            Forall (fun i => (i < List.length
                                    (vertices (createMesh Inputs.north_south (Inputs.d 5))))%nat) e)
    (faces (createMesh Inputs.north_south (Inputs.d 5))).
Proof.
  assert (valid_geometry Inputs.north_south (Inputs.d 5)) as H
    by (unfold valid_geometry;
        repeat first [apply Forall_nil | apply Forall_cons; [run|]]).
  split; [exact H|]. split; [run|].
  exact (proj1 (proj2 (proj2 (proj2
           (createMesh_faces_and_vertices H))))).
Defined.

(** ** Groups are only added at the end *)

Lemma bind_Ok {A B : Type} (c : outcome A) (k : A -> outcome B) (b : B) :
  bind c k = Ok b -> exists a, c = Ok a /\ k a = Ok b.
Proof. destruct c; simpl; try discriminate. intros H. now exists a. Qed.

Lemma appends_refl P m : appends P m m.
Proof.
  repeat split. exists []. split; [now rewrite app_nil_r | constructor].
Qed.

Lemma appends_trans P m1 m2 m3 :
  appends P m1 m2 -> appends P m2 m3 -> appends P m1 m3.
Proof.
  intros (Hv & Hf & Hfs & Hvs & a1 & Ha1 & HP1)
         (Hv' & Hf' & Hfs' & Hvs' & a2 & Ha2 & HP2).
  repeat split; try congruence.
  exists (a1 ++ a2). split.
  - now rewrite Ha2, Ha1, app_assoc.
  - apply Forall_app. now split.
Qed.

Lemma appends_push P m g : P g -> appends P m (push_group m g).
Proof.
  intros H. repeat split. exists [g]. split; [reflexivity|].
  now constructor.
Qed.

Lemma appends_weaken (P Q : DatasetGroup -> Prop) m m' :
  (forall g, P g -> Q g) -> appends P m m' -> appends Q m m'.
Proof.
  intros HPQ (Hv & Hf & Hfs & Hvs & a & Ha & HP).
  repeat split; try assumption.
  exists a. split; [exact Ha|]. eapply Forall_impl; [|exact HP]. exact HPQ.
Qed.

Section Appends.

Context {U : Utils}.

Lemma addStaticDataset_Ok mesh vals groupName datFileName m' :
  addStaticDataset mesh vals groupName datFileName = Ok m' ->
  List.length vals = facesCount mesh /\
  exists g d,
    m' = push_group mesh g /\
    uri g = datFileName /\ name g = groupName /\
    isOnVertices g = false /\ isScalar g = true /\
    datasets g = [d] /\ time d = Double.zero /\ values d = vals.
Proof.
  unfold addStaticDataset.
  change (valuesCount (newGroup mesh datFileName groupName false true))
    with (facesCount mesh).
  destruct (Nat.eqb_spec (List.length vals) (facesCount mesh)) as [E|E];
    cbn [negb]; [|discriminate].
  intros H. injection H as <-. split; [exact E|].
  do 2 eexists. split; [reflexivity|].
  cbn [withGroupStatistics push_dataset newGroup withStatistics setValues
       newDataset uri name isOnVertices isScalar datasets time values].
  do 6 (split; [reflexivity|]).
  change (memcpy (repeat freshValue (facesCount mesh)) vals = vals).
  unfold memcpy. rewrite skipn_all2 by (rewrite repeat_length; lia).
  apply app_nil_r.
Qed.

Lemma addStaticDataset_appends mesh vals groupName datFileName m' :
  addStaticDataset mesh vals groupName datFileName = Ok m' ->
  appends (fun g => uri g = datFileName) mesh m'.
Proof.
  intros H. apply addStaticDataset_Ok in H.
  destruct H as (_ & g & d & -> & Hu & _). now apply appends_push.
Qed.

Lemma push_dataset_uri g d : uri (push_dataset g d) = uri g.
Proof. reflexivity. Qed.

Lemma addDatasetToGroup_uri g d : uri (addDatasetToGroup g d) = uri g.
Proof.
  unfold addDatasetToGroup. destruct d; [|reflexivity].
  now destruct (0 <? valuesCount g)%nat.
Qed.

Lemma timdep_line_uris nVertexs elevations line s s' :
  timdep_line nVertexs elevations line s = Ok s' ->
  uri (depthDsGroup s') = uri (depthDsGroup s) /\
  uri (flowDsGroup s') = uri (flowDsGroup s) /\
  uri (waterLevelDsGroup s') = uri (waterLevelDsGroup s).
Proof.
  unfold timdep_line.
  destruct (List.length (split (rtrim line)) =? 1)%nat.
  - intros H. injection H as <-. simpl.
    now rewrite !addDatasetToGroup_uri.
  - destruct ((List.length (split (rtrim line)) =? 5)%nat
              || (List.length (split (rtrim line)) =? 6)%nat); [|discriminate].
    unfold timdep_record.
    destruct (depthDataset s), (flowDataset s), (waterLevelDataset s);
      try discriminate.
    destruct (face_idx s =? nVertexs)%nat; [discriminate|].
    intros H.
    repeat (apply bind_Ok in H; destruct H as (? & _ & H)).
    injection H as <-. now simpl.
Qed.

Lemma timdep_lines_uris nVertexs elevations lines :
  forall s s',
    timdep_lines nVertexs elevations lines s = Ok s' ->
    uri (depthDsGroup s') = uri (depthDsGroup s) /\
    uri (flowDsGroup s') = uri (flowDsGroup s) /\
    uri (waterLevelDsGroup s') = uri (waterLevelDsGroup s).
Proof.
  induction lines as [|line rest IH]; intros s s'; simpl.
  - intros H. injection H as <-. now repeat split.
  - intros H. apply bind_Ok in H. destruct H as (s1 & H1 & H).
    apply timdep_line_uris in H1. apply IH in H.
    intuition congruence.
Qed.

Lemma parseTIMDEPFile_appends dir mesh datFileName elevations m' :
  parseTIMDEPFile dir mesh datFileName elevations = Ok m' ->
  appends (fun g => uri g = datFileName) mesh m'.
Proof.
  unfold parseTIMDEPFile. destruct (TIMDEP_OUT dir) as [lines|].
  - intros H. apply bind_Ok in H. destruct H as (s & Hs & H).
    injection H as <-. apply timdep_lines_uris in Hs. simpl in Hs.
    destruct Hs as (Hd & Hf & Hw).
    repeat (eapply appends_trans; [|apply appends_push]);
      [apply appends_refl| | |]; simpl;
      now rewrite addDatasetToGroup_uri.
  - intros H. injection H as <-. apply appends_refl.
Qed.

Lemma parseDEPTHFile_appends dir mesh datFileName elevations m' :
  parseDEPTHFile dir mesh datFileName elevations = Ok m' ->
  appends (fun g => uri g = datFileName) mesh m'.
Proof.
  unfold parseDEPTHFile. destruct (DEPTH_OUT dir) as [lines|].
  - intros H. apply bind_Ok in H. destruct H as ([maxDepth maxWater] & _ & H).
    apply bind_Ok in H. destruct H as (m1 & H1 & H2).
    eapply appends_trans; eapply addStaticDataset_appends; eassumption.
  - intros H. injection H as <-. apply appends_refl.
Qed.

Lemma parseVELFPVELOCFile_appends dir mesh datFileName m' :
  parseVELFPVELOCFile dir mesh datFileName = Ok m' ->
  appends (fun g => uri g = datFileName) mesh m'.
Proof.
  unfold parseVELFPVELOCFile. destruct (VELFP_OUT dir) as [lines|].
  - intros H. apply bind_Ok in H. destruct H as (maxVel & _ & H).
    destruct (VELOC_OUT dir) as [lines'|].
    + apply bind_Ok in H. destruct H as (maxVel' & _ & H).
      eapply addStaticDataset_appends; eassumption.
    + injection H as <-. apply appends_refl.
  - intros H. injection H as <-. apply appends_refl.
Qed.

Lemma parseOUTDatasets_appends dir mesh datFileName elevations m' :
  parseOUTDatasets dir mesh datFileName elevations = Ok m' ->
  appends (fun g => uri g = datFileName) mesh m'.
Proof.
  unfold parseOUTDatasets. intros H.
  apply bind_Ok in H. destruct H as (m1 & H1 & H).
  apply bind_Ok in H. destruct H as (m2 & H2 & H3).
  eapply appends_trans; [eapply parseTIMDEPFile_appends; eassumption|].
  eapply appends_trans; [eapply parseDEPTHFile_appends; eassumption|].
  eapply parseVELFPVELOCFile_appends; eassumption.
Qed.

End Appends.

(** ** The reader of the store, sub-group by sub-group *)

Section StoreReader.

Context {U : Utils}.

Lemma hdf5_timesteps_name nFaces isVector times vals l :
  forall ds,
    name (fold_left (hdf5_timestep nFaces isVector times vals) l ds) = name ds /\
    uri (fold_left (hdf5_timestep nFaces isVector times vals) l ds) = uri ds.
Proof.
  induction l as [|ts l IH]; intros ds; simpl; [now split|].
  destruct (IH (hdf5_timestep nFaces isVector times vals ds ts)) as [-> ->].
  unfold hdf5_timestep, addDatasetToGroup.
  now destruct (0 <? valuesCount ds)%nat.
Qed.

(** A sub-group is read exactly when it has none of the failure triggers;
    the group it gives is named after it. *)
Lemma hdf5_group_spec nFaces timedepFileName r grpName mesh :
  if nameDefective (facesCount mesh) r grpName
  then hdf5_group nFaces timedepFileName r grpName mesh = None
  else exists g,
      hdf5_group nFaces timedepFileName r grpName mesh = Some (push_group mesh g) /\
      name g = grpName /\ uri g = timedepFileName.
Proof.
  unfold nameDefective, subgroupDefective, hdf5_group.
  destruct (lookup grpName (r_groups r)) as [grp|]; [|reflexivity].
  destruct (lookup "Grouptype" (attributes grp)) as [groupType|]; [|reflexivity].
  destruct (lookup "Times" (dsets grp)) as [timesDs|]; [|reflexivity].
  destruct (lookup "Values" (dsets grp)) as [valuesDs|]; [|reflexivity].
  destruct (contains_ci (readString groupType) "vector").
  - destruct (elementCount valuesDs =? facesCount mesh * elementCount timesDs * 2)%nat;
      simpl; [|reflexivity].
    eexists. split; [reflexivity|]. simpl.
    apply hdf5_timesteps_name.
  - rewrite Nat.mul_1_r.
    destruct (elementCount valuesDs =? facesCount mesh * elementCount timesDs)%nat;
      simpl; [|reflexivity].
    eexists. split; [reflexivity|]. simpl.
    apply hdf5_timesteps_name.
Qed.


Lemma appends_push_groups (P : DatasetGroup -> Prop) gs :
  Forall P gs -> forall m, appends P m (push_groups m gs).
Proof.
  induction 1 as [|g gs Hg _ IH]; intros m; [apply appends_refl|].
  change (push_groups m (g :: gs)) with (push_groups (push_group m g) gs).
  eapply appends_trans; [apply appends_push; exact Hg | apply IH].
Qed.

Lemma facesCount_push_groups gs :
  forall m, facesCount (push_groups m gs) = facesCount m.
Proof.
  induction gs as [|g gs IH]; intros m; [reflexivity|].
  change (push_groups m (g :: gs)) with (push_groups (push_group m g) gs).
  now rewrite IH.
Qed.

(** The loop over the sub-groups stops at the first defective one; the
    groups of the sub-groups before it are on the mesh. *)
Lemma hdf5_groups_spec nFaces timedepFileName r names :
  forall mesh,
  exists B,
    hdf5_groups nFaces timedepFileName r names mesh
      = (existsb (nameDefective (facesCount mesh) r) names, push_groups mesh B) /\
    map name B = soundPrefix (facesCount mesh) r names /\
    Forall (fun g => uri g = timedepFileName) B.
Proof.
  induction names as [|n rest IH]; intros mesh; simpl.
  - exists []. repeat split. constructor.
  - pose proof (hdf5_group_spec nFaces timedepFileName r n mesh) as Hn.
    destruct (nameDefective (facesCount mesh) r n).
    + rewrite Hn. exists []. repeat split. constructor.
    + destruct Hn as (g & -> & Hname & Huri).
      destruct (IH (push_group mesh g)) as (B & HB & Hnames & Huris).
      simpl in HB, Hnames.
      exists (g :: B). simpl. rewrite HB. repeat split.
      * now rewrite Hname, Hnames.
      * now constructor.
Qed.

Lemma parseHDF5Datasets_spec mesh timedepFileName store :
  exists B,
    parseHDF5Datasets mesh timedepFileName store
      = (storeFails (facesCount mesh) store, push_groups mesh B) /\
    map name B = readBeforeFailure (facesCount mesh) store /\
    Forall (fun g => uri g = timedepFileName) B.
Proof.
  unfold parseHDF5Datasets, storeFails, readBeforeFailure.
  destruct store as [[file|]|];
    try (exists []; repeat split; constructor).
  destruct (results file) as [r|];
    try (exists []; repeat split; constructor).
  apply hdf5_groups_spec.
Qed.

(** ** The two parts of the load *)

Lemma load_try_parts dir mDatFileName :
  load_try dir mDatFileName =
    bind (load_geometry dir mDatFileName)
      (fun me =>
         let (err, mesh) :=
           parseHDF5Datasets (fst me)
             (fileNameFromDir mDatFileName "TIMDEP.HDF5") (TIMDEP_HDF5 dir) in
         if err then parseOUTDatasets dir mesh mDatFileName (snd me)
         else Ok mesh).
Proof.
  unfold load_try, load_geometry.
  destruct (parseCADPTSFile dir []) as [cells| | |]; simpl; try reflexivity.
  destruct (parseFPLAINFile dir cells) as [[elevations cells']| | |]; simpl;
    try reflexivity.
  destruct (calcCellSize cells') as [cell_size| | |]; simpl; try reflexivity.
  destruct (addStaticDataset _ elevations "Bed Elevation" mDatFileName)
    as [mesh| | |]; reflexivity.
Qed.

Lemma load_Ok dir resultsFile mesh status :
  load dir resultsFile = Ok (Some mesh, status) <->
  load_try dir resultsFile = Ok mesh /\ status = Status_None.
Proof.
  unfold load. destruct (load_try dir resultsFile); split;
    try discriminate; try (intros [H _]; discriminate H).
  - intros H. injection H as -> <-. now split.
  - intros [H ->]. now injection H as ->.
Qed.

Lemma parseFPLAIN_lines_elevations lines :
  forall elevations cells elevations' cells',
    parseFPLAIN_lines lines elevations cells = Ok (elevations', cells') ->
    elevations' =
      elevations ++
      map (fun line => toDouble (field (split (rtrim line)) 6)) lines.
Proof.
  induction lines as [|line rest IH]; intros el cells el' cells'; simpl.
  - intros H. injection H as <- _. now rewrite app_nil_r.
  - destruct (List.length (split (rtrim line)) =? 7)%nat; simpl; [|discriminate].
    intros H. apply bind_Ok in H. destruct H as (cells1 & _ & H).
    apply IH in H. rewrite H. now rewrite <- app_assoc.
Qed.

(** The mandatory part leaves a mesh whose only group is the bed elevation,
    with the seventh fields of the connectivity file, line by line. *)
Lemma load_geometry_Ok dir mDatFileName mesh elevations :
  load_geometry dir mDatFileName = Ok (mesh, elevations) ->
  exists lines bed ds,
    FPLAIN_DAT dir = Some lines /\
    elevations = map (fun line => toDouble (field (split (rtrim line)) 6)) lines /\
    List.length elevations = facesCount mesh /\
    datasetGroups mesh = [bed] /\
    uri bed = mDatFileName /\
    name bed = "Bed Elevation"%string /\
    isOnVertices bed = false /\ isScalar bed = true /\
    datasets bed = [ds] /\ time ds = Double.zero /\ values ds = elevations.
Proof.
  unfold load_geometry. intros H.
  apply bind_Ok in H. destruct H as (cells & _ & H).
  apply bind_Ok in H. destruct H as ([el cells'] & Hfp & H).
  apply bind_Ok in H. destruct H as (cell_size & _ & H).
  apply bind_Ok in H. destruct H as (m & Hm & H).
  injection H as -> ->.
  unfold parseFPLAINFile in Hfp.
  destruct (FPLAIN_DAT dir) as [lines|]; [|discriminate].
  apply parseFPLAIN_lines_elevations in Hfp. simpl in Hfp.
  apply addStaticDataset_Ok in Hm.
  destruct Hm as (Hlen & g & d & -> & Hu & Hn & Hv & Hs & Hd & Ht & Hvals).
  exists lines, g, d. repeat split; assumption.
Qed.

End StoreReader.

(** ** The load *)

Section Load.

Context {U : Utils}.

(** A successful load went through the mandatory part, and the readers that
    follow only added groups after its mesh. *)
Lemma load_Ok_parts dir resultsFile mesh :
  load dir resultsFile = Ok (Some mesh, Status_None) ->
  exists mesh0 elevations,
    load_geometry dir resultsFile = Ok (mesh0, elevations) /\
    appends (fun _ => True) mesh0 mesh.
Proof.
  intros H. apply load_Ok in H. destruct H as [H _].
  rewrite load_try_parts in H.
  apply bind_Ok in H. destruct H as ([mesh0 elevations] & Hg & H).
  exists mesh0, elevations. split; [exact Hg|]. simpl in H.
  destruct (parseHDF5Datasets_spec mesh0
              (fileNameFromDir resultsFile "TIMDEP.HDF5") (TIMDEP_HDF5 dir))
    as (B & HB & _ & HuB).
  rewrite HB in H.
  assert (appends (fun _ => True) mesh0 (push_groups mesh0 B)) as HA.
  { apply appends_push_groups. eapply Forall_impl; [|exact HuB]. easy. }
  destruct (storeFails (facesCount mesh0) (TIMDEP_HDF5 dir)).
  - apply parseOUTDatasets_appends in H.
    eapply appends_trans; [exact HA|].
    eapply appends_weaken; [|exact H]. easy.
  - injection H as <-. exact HA.
Qed.

(** The mesh of a successful load has the group "Bed Elevation" first in its
    collection: scalar, on faces, with a single dataset at time 0 that holds
    one value per face.  The values are the seventh fields of the lines of
    the connectivity file in the order of the lines: the element number a
    line starts with is not looked at. *)
Theorem load_bed_elevation_first (dir : Directory) (resultsFile : string)
  (mesh : MemoryMesh) :
  load dir resultsFile = Ok (Some mesh, Status_None) ->
  exists (lines : TextFile) (bed : DatasetGroup) (others : list DatasetGroup)
         (ds : Dataset),
    FPLAIN_DAT dir = Some lines /\
    datasetGroups mesh = bed :: others /\
    name bed = "Bed Elevation"%string /\
    isScalar bed = true /\
    isOnVertices bed = false /\
    datasets bed = [ds] /\
    time ds = Double.zero /\
    values ds = map (fun line => toDouble (field (split (rtrim line)) 6)) lines /\
    List.length (values ds) = facesCount mesh.
Proof.
  intros H. apply load_Ok_parts in H.
  destruct H as (mesh0 & elevations & Hg & Happ).
  apply load_geometry_Ok in Hg.
  destruct Hg as (lines & bed & ds & Hl & He & Hlen & Hgs & _ & Hn & Hv & Hs
                    & Hd & Ht & Hvals).
  destruct Happ as (_ & Hf & _ & _ & added & Hadd & _).
  exists lines, bed, added, ds. rewrite Hadd, Hgs, Hvals, Hf.
  repeat split; assumption.
Qed.


End Load.

Lemma load_bed_elevation_first_witness :
  exists mesh : MemoryMesh,
    load (U := Sample.utils) Inputs.geometry "CADPTS.DAT"
      = Ok (Some mesh, Status_None) /\
    exists bed others ds,
      datasetGroups mesh = bed :: others /\
      name bed = "Bed Elevation"%string /\
      datasets bed = [ds] /\
      values ds = [Inputs.d 5; Inputs.d 6].
Proof.
  assert (exists mesh, load (U := Sample.utils) Inputs.geometry "CADPTS.DAT"
                       = Ok (Some mesh, Status_None)) as [mesh H]
    by (eexists; run).
  exists mesh. split; [exact H|].
  destruct (load_bed_elevation_first (U := Sample.utils) _ _ H)
    as (lines & bed & others & ds & Hl & Hgs & Hn & _ & _ & Hd & _ & Hv & _).
  exists bed, others, ds.
  split; [exact Hgs|]. split; [exact Hn|]. split; [exact Hd|].
  rewrite Hv. injection Hl as <-. run.
Defined.


(** C10.  The connectivity file lists the record of cell 2 before the record
    of cell 1.  The parser gives the cells the same neighbours as with the
    records in the order of the cells, and the load succeeds with the same
    faces and vertices; but the dataset of "Bed Elevation" holds for the
    first face the elevation 6 of cell 2 and for the second face the
    elevation 5 of cell 1: the elevations are in the order of the lines, not
    of the cells. *)
Theorem load_bed_elevation_swapped_records :
  exists (cells0 cells : list CellCenter) (mesh mesh' : MemoryMesh)
         (bed : DatasetGroup) (ds : Dataset),
    parseCADPTSFile (U := Sample.utils) Inputs.geometry_swapped [] = Ok cells0 /\
    parseFPLAINFile (U := Sample.utils) Inputs.geometry cells0
      = Ok ([Inputs.d 5; Inputs.d 6], cells) /\
    parseFPLAINFile (U := Sample.utils) Inputs.geometry_swapped cells0
      = Ok ([Inputs.d 6; Inputs.d 5], cells) /\
    map (fun line => Sample.toSizeT (field (Sample.split line) 0) - 1)
      Inputs.fplain_swapped = [1; 0] /\
    load (U := Sample.utils) Inputs.geometry "CADPTS.DAT"
      = Ok (Some mesh, Status_None) /\
    load (U := Sample.utils) Inputs.geometry_swapped "CADPTS.DAT"
      = Ok (Some mesh', Status_None) /\
    faces mesh' = faces mesh /\
    vertices mesh' = vertices mesh /\
    datasetGroups mesh' = [bed] /\
    name bed = "Bed Elevation"%string /\
    datasets bed = [ds] /\
    values ds = [Inputs.d 6; Inputs.d 5].
Proof.
  do 6 eexists.
  step. step. step. step. step. step. step. step. step. step. step. run.
Qed.

(** * Further properties of the driver *)

(** ** The sentinel codec *)

Lemma equals_nan_zero : equals MDAL_NAN FLO2D_NAN eps_1e8 = false.
Proof. reflexivity. Qed.

Lemma getDouble_fixed (v : double) :
  equals v FLO2D_NAN eps_1e8 = false -> getDouble v = v.
Proof. intros H. unfold getDouble. now rewrite H. Qed.

Lemma getDouble_cases (v : double) :
  getDouble v = MDAL_NAN \/
  (getDouble v = v /\ equals v FLO2D_NAN eps_1e8 = false).
Proof.
  unfold getDouble. destruct (equals v FLO2D_NAN eps_1e8); [left|right]; auto.
Qed.

(** Decoding twice is decoding once, and a decoded value is never within
    [1e-8] of zero: it is the missing value or a value outside the band. *)
Theorem getDouble_idempotent (v : double) :
  getDouble (getDouble v) = getDouble v /\
  equals (getDouble v) FLO2D_NAN eps_1e8 = false.
Proof.
  destruct (getDouble_cases v) as [->|[-> H]].
  - split; reflexivity.
  - split; [now apply getDouble_fixed | exact H].
Qed.

(** The encoder never gives the missing value, and a decoded value goes
    through the encoder and the decoder unchanged. *)
Theorem decode_encode_decode (v : double) :
  Double.isnan (toFlo2DDouble v) = false /\
  getDouble (toFlo2DDouble (getDouble v)) = getDouble v.
Proof.
  split.
  - unfold toFlo2DDouble. destruct (Double.isnan v) eqn:E; [reflexivity|exact E].
  - destruct (getDouble_cases v) as [->|[-> H]].
    + reflexivity.
    + unfold toFlo2DDouble.
      destruct (Double.isnan v) eqn:E; [|now apply getDouble_fixed].
      destruct v; try discriminate. reflexivity.
Qed.

(** ** The cell centres and the connectivity *)

Section Geometry.

Context {U : Utils}.

Lemma parseCADPTS_lines_Ok lines :
  forall cells,
    Forall (fun line => List.length (split (rtrim line)) = 3%nat) lines ->
    exists added,
      parseCADPTS_lines lines cells = Ok (cells ++ added) /\
      map x added = map (fun line => toDouble (field (split (rtrim line)) 1)) lines /\
      map y added = map (fun line => toDouble (field (split (rtrim line)) 2)) lines /\
      Forall (fun c => conn c = [0; 0; 0; 0]) added.
Proof.
  induction lines as [|line rest IH]; intros cells Hall.
  - exists []. simpl. rewrite app_nil_r. repeat split. constructor.
  - inversion Hall as [|l ls H3 Hrest]; subst.
    cbn [parseCADPTS_lines]. unfold parseCADPTS_line. rewrite H3.
    cbn [Nat.eqb negb bind].
    destruct (IH (cells ++
                    [{| id := size_t_sub (toSizeT (field (split (rtrim line)) 1)) 1;
                        x := toDouble (field (split (rtrim line)) 1);
                        y := toDouble (field (split (rtrim line)) 2);
                        conn := repeat 0 4 |}]) Hrest)
      as (added & -> & Hx & Hy & Hc).
    eexists (_ :: added). rewrite <- app_assoc. split; [reflexivity|].
    cbn [map x y]. rewrite Hx, Hy. repeat split.
    constructor; [reflexivity | exact Hc].
Qed.

Lemma parseCADPTS_lines_Throw lines :
  forall cells,
    Exists (fun line => List.length (split (rtrim line)) <> 3%nat) lines ->
    parseCADPTS_lines lines cells = Throw Err_UnknownFormat.
Proof.
  induction lines as [|line rest IH]; intros cells Hex.
  - inversion Hex.
  - cbn [parseCADPTS_lines]. unfold parseCADPTS_line.
    destruct (Nat.eqb_spec (List.length (split (rtrim line))) 3) as [E|E].
    + cbn [negb bind]. apply IH.
      inversion Hex as [l ls H|l ls H]; subst; [contradiction|exact H].
    + reflexivity.
Qed.

(** The parser of the cell centres succeeds exactly when every line has
    three fields; it then adds one cell per line, in the order of the lines,
    with the second and the third field as coordinates and four empty
    neighbour slots.  Otherwise it throws the malformed-format status; it
    ends in no other way. *)
Theorem parseCADPTS_lines_outcome (lines : TextFile) (cells : list CellCenter) :
  (Forall (fun line => List.length (split (rtrim line)) = 3%nat) lines /\
   exists added,
     parseCADPTS_lines lines cells = Ok (cells ++ added) /\
     List.length added = List.length lines /\
     map x added = map (fun line => toDouble (field (split (rtrim line)) 1)) lines /\
     map y added = map (fun line => toDouble (field (split (rtrim line)) 2)) lines /\
     Forall (fun c => conn c = [0; 0; 0; 0]) added) \/
  (Exists (fun line => List.length (split (rtrim line)) <> 3%nat) lines /\
   parseCADPTS_lines lines cells = Throw Err_UnknownFormat).
Proof.
  destruct (Forall_Exists_dec
              (fun line => List.length (split (rtrim line)) = 3%nat)
              (fun line => Nat.eq_dec (List.length (split (rtrim line))) 3)
              lines) as [Hall|Hex].
  - left. split; [exact Hall|].
    destruct (parseCADPTS_lines_Ok cells Hall) as (added & H & Hx & Hy & Hc).
    exists added. repeat split; try assumption.
    rewrite <- (length_map x), Hx. apply length_map.
  - right. split; [exact Hex|]. now apply parseCADPTS_lines_Throw.
Qed.

End Geometry.

Lemma length_replace_nth {A : Type} (l : list A) i a :
  List.length (replace_nth l i a) = List.length l.
Proof.
  revert i. induction l as [|b l IH]; intros [|i]; simpl; auto.
Qed.

Lemma map_replace_nth {A B : Type} (f : A -> B) (l : list A) i a b :
  nth_error l i = Some b -> f a = f b ->
  map f (replace_nth l i a) = map f l.
Proof.
  revert i. induction l as [|c l IH]; intros [|i]; simpl; try discriminate.
  - intros H E. injection H as ->. now rewrite E.
  - intros H E. now rewrite (IH i H E).
Qed.

Lemma nth_error_replace_nth {A : Type} (l : list A) i a :
  (i < List.length l)%nat -> nth_error (replace_nth l i a) i = Some a.
Proof.
  revert i. induction l as [|b l IH]; intros [|i]; simpl; try lia; auto.
  intros H. apply IH. lia.
Qed.

Lemma nth_error_replace_nth_other {A : Type} (l : list A) i j a :
  i <> j -> nth_error (replace_nth l i a) j = nth_error l j.
Proof.
  revert i j. induction l as [|b l IH]; intros [|i] [|j]; simpl; auto;
    try easy; try (intros H; apply IH; congruence).
Qed.

Lemma Forall_replace_nth {A : Type} (P : A -> Prop) (l : list A) i a :
  Forall P l -> P a -> Forall P (replace_nth l i a).
Proof.
  intros H Ha. revert i. induction H as [|b l Hb Hl IH]; intros [|i]; simpl;
    constructor; auto.
Qed.

Lemma at_index_Ok {A : Type} (v : list A) i a :
  at_index v i = Ok a <-> nth_error v i = Some a.
Proof.
  unfold at_index. destruct (nth_error v i); split; congruence.
Qed.

Lemma set_index_Ok {A : Type} (v : list A) i a v' :
  set_index v i a = Ok v' <->
  (i < List.length v)%nat /\ v' = replace_nth v i a.
Proof.
  unfold set_index. destruct (Nat.ltb_spec i (List.length v)); split.
  - intros H'. injection H' as <-. now split.
  - intros [_ ->]. reflexivity.
  - discriminate.
  - intros [H' _]. lia.
Qed.

Section Connectivity.

Context {U : Utils}.

(** What the connectivity loop keeps of the cells. *)
Lemma parseFPLAIN_conn_keeps lineParts cc_i js :
  forall cells cells',
    parseFPLAIN_conn lineParts cc_i js cells = Ok cells' ->
    map id cells' = map id cells /\
    map x cells' = map x cells /\
    map y cells' = map y cells /\
    map (fun c => List.length (conn c)) cells'
      = map (fun c => List.length (conn c)) cells /\
    forall j, j <> cc_i -> nth_error cells' j = nth_error cells j.
Proof.
  induction js as [|j js IH]; intros cells cells'; cbn [parseFPLAIN_conn].
  - intros H. injection H as <-. repeat split.
  - intros H.
    apply bind_Ok in H. destruct H as (cc & Hcc & H).
    apply bind_Ok in H. destruct H as (v & _ & H).
    apply bind_Ok in H. destruct H as (c & Hc & H).
    apply bind_Ok in H. destruct H as (cells1 & H1 & H).
    apply at_index_Ok in Hcc. apply set_index_Ok in Hc. apply set_index_Ok in H1.
    destruct Hc as [_ ->]. destruct H1 as [_ ->].
    destruct (IH _ _ H) as (Hid & Hx & Hy & Hl & Ho).
    rewrite Hid, Hx, Hy, Hl.
    rewrite !(map_replace_nth _ _ _ _ Hcc) by (simpl; auto using length_replace_nth).
    repeat split.
    intros k Hk. rewrite (Ho k Hk). apply nth_error_replace_nth_other. congruence.
Qed.

Lemma parseFPLAIN_lines_keeps lines :
  forall elevations cells elevations' cells',
    parseFPLAIN_lines lines elevations cells = Ok (elevations', cells') ->
    map id cells' = map id cells /\
    map x cells' = map x cells /\
    map y cells' = map y cells /\
    map (fun c => List.length (conn c)) cells'
      = map (fun c => List.length (conn c)) cells /\
    Forall (fun line => List.length (split (rtrim line)) = 7%nat) lines.
Proof.
  induction lines as [|line rest IH]; intros el cells el' cells';
    cbn [parseFPLAIN_lines].
  - intros H. injection H as _ <-. repeat split. constructor.
  - destruct (Nat.eqb_spec (List.length (split (rtrim line))) 7) as [E|E];
      cbn [negb]; [|discriminate].
    intros H. apply bind_Ok in H. destruct H as (cells1 & H1 & H).
    apply parseFPLAIN_conn_keeps in H1. destruct H1 as (Hid & Hx & Hy & Hl & _).
    apply IH in H. destruct H as (Hid' & Hx' & Hy' & Hl' & Hall).
    rewrite Hid', Hx', Hy', Hl', Hid, Hx, Hy, Hl. repeat split.
    now constructor.
Qed.

(** The connectivity parser changes nothing of the cells but their
    neighbour slots: the number of cells, their order, their ids and their
    centres are kept, and so is the number of slots of each cell.  It reads
    one elevation per line, and every line has seven fields. *)
Theorem parseFPLAINFile_keeps_centres (dir : Directory)
  (cells cells' : list CellCenter) (elevations : list double) :
  parseFPLAINFile dir cells = Ok (elevations, cells') ->
  List.length cells' = List.length cells /\
  map id cells' = map id cells /\
  map x cells' = map x cells /\
  map y cells' = map y cells /\
  map (fun c => List.length (conn c)) cells'
    = map (fun c => List.length (conn c)) cells /\
  exists lines,
    FPLAIN_DAT dir = Some lines /\
    List.length elevations = List.length lines /\
    Forall (fun line => List.length (split (rtrim line)) = 7%nat) lines.
Proof.
  unfold parseFPLAINFile. destruct (FPLAIN_DAT dir) as [lines|]; [|discriminate].
  intros H. pose proof (parseFPLAIN_lines_elevations _ _ _ H) as He.
  apply parseFPLAIN_lines_keeps in H. destruct H as (Hid & Hx & Hy & Hl & Hall).
  split; [|repeat split; try assumption].
  - rewrite <- (length_map id cells'), Hid. apply length_map.
  - exists lines. split; [reflexivity|]. split; [|exact Hall].
    rewrite He. simpl. apply length_map.
Qed.

End Connectivity.

Lemma parseFPLAINFile_keeps_centres_witness :
  exists cells cells' elevations,
    parseCADPTSFile (U := Sample.utils) Inputs.geometry [] = Ok cells /\
    parseFPLAINFile (U := Sample.utils) Inputs.geometry cells
      = Ok (elevations, cells') /\
    List.length cells' = 2%nat /\
    map conn cells' = [[1; -1; -1; -1]; [-1; -1; 0; -1]].
Proof.
  let r := eval vm_compute in
             (parseCADPTSFile (U := Sample.utils) Inputs.geometry []) in
  lazymatch r with
  | Ok ?cs =>
      let r2 := eval vm_compute in
                  (parseFPLAINFile (U := Sample.utils) Inputs.geometry cs) in
      lazymatch r2 with
      | Ok (?el, ?cs') =>
          assert (parseFPLAINFile (U := Sample.utils) Inputs.geometry cs
                  = Ok (el, cs')) as H by run;
          exists cs, cs', el
      end
  end.
  split; [run|]. split; [exact H|]. split; [|run].
  rewrite (proj1 (parseFPLAINFile_keeps_centres (U := Sample.utils) _ _ H)).
  reflexivity.
Defined.

Lemma set_index_lt {A : Type} (v : list A) i a :
  (i < List.length v)%nat -> set_index v i a = Ok (replace_nth v i a).
Proof. intros H. apply set_index_Ok. now split. Qed.

Lemma replace_nth_twice {A : Type} (l : list A) i a b :
  replace_nth (replace_nth l i a) i b = replace_nth l i b.
Proof.
  revert i. induction l as [|c l IH]; intros [|i]; simpl; auto.
  now rewrite IH.
Qed.

Lemma int_pred_Ok (v : Z) : INT_MIN < v -> int_pred v = Ok (v - 1).
Proof.
  intros H. unfold int_pred. destruct (Z.leb_spec v INT_MIN); [lia|reflexivity].
Qed.

Section ConnectivityLine.

Context {U : Utils}.

(** One turn of the connectivity loop, on a cell whose slots so far are
    [c]. *)
Lemma parseFPLAIN_conn_step lineParts cc_i j js cells cc c :
  nth_error cells cc_i = Some (set_conn cc c) ->
  (j < List.length c)%nat ->
  INT_MIN < toInt (field lineParts (j + 1)) ->
  parseFPLAIN_conn lineParts cc_i (j :: js) cells =
  parseFPLAIN_conn lineParts cc_i js
    (replace_nth cells cc_i
       (set_conn cc (replace_nth c j (toInt (field lineParts (j + 1)) - 1)))).
Proof.
  intros Hcc Hj Hv. cbn [parseFPLAIN_conn].
  rewrite (proj2 (at_index_Ok _ _ _) Hcc). cbn [bind].
  rewrite (int_pred_Ok Hv). cbn [bind conn set_conn].
  rewrite (set_index_lt _ _ Hj). cbn [bind].
  rewrite set_index_lt; [reflexivity|].
  apply nth_error_Some. congruence.
Qed.

(** A connectivity line sets the four neighbour slots of the cell it names
    to the four fields after the id, each minus one (so that the boundary
    marker 0 becomes -1), and leaves the other cells as they are. *)
Theorem parseFPLAIN_conn_sets_neighbours (lineParts : list string)
  (cc_i : nat) (cells : list CellCenter) (cc : CellCenter) :
  nth_error cells cc_i = Some cc ->
  List.length (conn cc) = 4%nat ->
  (forall j, (j < 4)%nat -> INT_MIN < toInt (field lineParts (j + 1))) ->
  parseFPLAIN_conn lineParts cc_i (seq 0 4) cells =
    Ok (replace_nth cells cc_i
          (set_conn cc
             (map (fun j => toInt (field lineParts (j + 1)) - 1) (seq 0 4)))).
Proof.
  intros Hcc Hlen Hv.
  destruct cc as [i0 x0 y0 c]. cbn [conn] in Hlen.
  destruct c as [|c0 [|c1 [|c2 [|c3 [|]]]]]; try discriminate Hlen.
  change (seq 0 4) with [0; 1; 2; 3]%nat.
  assert (Hin : (cc_i < List.length cells)%nat)
    by (apply nth_error_Some; congruence).
  set (cc := Build_CellCenter i0 x0 y0 [c0; c1; c2; c3]) in *.
  rewrite (@parseFPLAIN_conn_step lineParts cc_i 0 [1; 2; 3]%nat cells cc
             [c0; c1; c2; c3]);
    [|exact Hcc|simpl; lia|apply Hv; lia].
  erewrite (@parseFPLAIN_conn_step lineParts cc_i 1 [2; 3]%nat _ cc _);
    [|apply nth_error_replace_nth; exact Hin
     |rewrite length_replace_nth; simpl; lia|apply Hv; lia].
  erewrite (@parseFPLAIN_conn_step lineParts cc_i 2 [3]%nat _ cc _);
    [|apply nth_error_replace_nth; rewrite length_replace_nth; exact Hin
     |rewrite !length_replace_nth; simpl; lia|apply Hv; lia].
  erewrite (@parseFPLAIN_conn_step lineParts cc_i 3 []%nat _ cc _);
    [|apply nth_error_replace_nth; rewrite !length_replace_nth; exact Hin
     |rewrite !length_replace_nth; simpl; lia|apply Hv; lia].
  cbn [parseFPLAIN_conn]. rewrite !replace_nth_twice. reflexivity.
Qed.

End ConnectivityLine.

Lemma parseFPLAIN_conn_sets_neighbours_witness :
  exists cells' c,
    parseFPLAIN_conn (U := Sample.utils)
      (Sample.split "2 0 0 1 0 0.04 6") 1 (seq 0 4) Inputs.north_south
      = Ok cells' /\
    nth_error cells' 1 = Some c /\
    conn c = [-1; -1; 0; -1].
Proof.
  eexists. eexists. split.
  - apply (@parseFPLAIN_conn_sets_neighbours Sample.utils
             (Sample.split "2 0 0 1 0 0.04 6") 1 Inputs.north_south
             {| id := 1; x := Inputs.d 0; y := Inputs.d 10;
                conn := [-1; -1; 0; -1] |}).
    + reflexivity.
    + reflexivity.
    + intros j Hj.
      destruct j as [|[|[|[|j]]]]; try (vm_compute; reflexivity); lia.
  - split; run.
Defined.

(** ** The cell size, slot by slot *)

Lemma calcCellSize_slots_boundary cells ci h t :
  conn ci = h :: t -> h <= -1 ->
  calcCellSize_slots cells ci (seq 0 4) = None.
Proof.
  intros Hc Hh. change (seq 0 4) with [0; 1; 2; 3]%nat.
  cbn [calcCellSize_slots]. unfold calcCellSize_slot. rewrite Hc.
  cbn [nth_error]. destruct (Z.gtb_spec h (-1)); [lia|reflexivity].
Qed.

Lemma calcCellSize_slots_north cells ci idx t cn :
  conn ci = idx :: t -> -1 < idx ->
  nth_error cells (Z.to_nat idx) = Some cn ->
  calcCellSize_slots cells ci (seq 0 4)
    = Some (Ok (Double.fabs (Double.sub (y cn) (y ci)))).
Proof.
  intros Hc Hi Hn. change (seq 0 4) with [0; 1; 2; 3]%nat.
  cbn [calcCellSize_slots]. unfold calcCellSize_slot. rewrite Hc.
  cbn [nth_error]. destruct (Z.gtb_spec idx (-1)); [|lia].
  rewrite (proj2 (at_index_Ok _ _ _) Hn). reflexivity.
Qed.

Lemma calcCellSize_from_boundaries cells before rest :
  Forall (fun c => exists h t, conn c = h :: t /\ h <= -1) before ->
  calcCellSize_from cells (before ++ rest) = calcCellSize_from cells rest.
Proof.
  induction 1 as [|c before (h & t & Hc & Hh) _ IH]; [reflexivity|].
  cbn [app calcCellSize_from].
  now rewrite (calcCellSize_slots_boundary cells _ Hc Hh).
Qed.

(** The cell size is decided by the first slot of the cells alone.  When
    the first slot of every cell is a boundary marker the call throws the
    incompatible-mesh status, whatever the other slots hold.  Otherwise, for
    the first cell whose first slot names a cell, the result is the absolute
    difference of the [y] of the two centres; the [x] are not read. *)
Theorem calcCellSize_by_first_slot (cells : list CellCenter) :
  (Forall (fun c => exists h t, conn c = h :: t /\ h <= -1) cells ->
   calcCellSize cells = Throw Err_IncompatibleMesh) /\
  (forall before ci after idx t cn,
     cells = before ++ ci :: after ->
     Forall (fun c => exists h t, conn c = h :: t /\ h <= -1) before ->
     conn ci = idx :: t -> -1 < idx ->
     nth_error cells (Z.to_nat idx) = Some cn ->
     calcCellSize cells = Ok (Double.fabs (Double.sub (y cn) (y ci)))).
Proof.
  split.
  - intros H. unfold calcCellSize.
    rewrite <- (app_nil_r cells) at 2.
    now rewrite (calcCellSize_from_boundaries cells [] H).
  - intros before ci after idx t cn -> Hb Hc Hi Hn. unfold calcCellSize.
    rewrite (calcCellSize_from_boundaries _ (ci :: after) Hb).
    cbn [calcCellSize_from].
    now rewrite (calcCellSize_slots_north _ _ Hc Hi Hn).
Qed.

Lemma calcCellSize_by_first_slot_witness :
  calcCellSize Inputs.east_west = Throw Err_IncompatibleMesh /\
  calcCellSize Inputs.north_south = Ok (Inputs.d 10).
Proof.
  split.
  - apply (proj1 (calcCellSize_by_first_slot Inputs.east_west)).
    repeat constructor; do 2 eexists; (split; [reflexivity|lia]).
  - rewrite (proj2 (calcCellSize_by_first_slot Inputs.north_south)
               [] _ _ 1 _
               {| id := 1; x := Inputs.d 0; y := Inputs.d 10;
                  conn := [-1; -1; 0; -1] |}
               eq_refl (Forall_nil _) eq_refl eq_refl eq_refl).
    run.
Defined.

(** ** The mesh, whatever the coordinates *)

Lemma index_where_None {A : Type} (f : A -> bool) (l : list A) :
  index_where f l = None -> Forall (fun a => f a = false) l.
Proof.
  induction l as [|a l IH]; simpl; [constructor|].
  destruct (f a) eqn:E; [discriminate|].
  destruct (index_where f l); [discriminate|].
  intros _. constructor; auto.
Qed.

Lemma distinct_keys_snoc vs v :
  distinct_keys vs -> index_of_key vs v = None -> distinct_keys (vs ++ [v]).
Proof.
  intros Hd Hn. apply index_where_None in Hn. rewrite Forall_forall in Hn.
  intros i j u w Hi Hj Huw.
  destruct (Nat.lt_ge_cases i (List.length vs)) as [Li|Li];
    destruct (Nat.lt_ge_cases j (List.length vs)) as [Lj|Lj].
  - rewrite nth_error_app1 in Hi, Hj by assumption. eauto.
  - rewrite nth_error_app1 in Hi by assumption.
    rewrite nth_error_app2 in Hj by assumption.
    destruct (j - List.length vs)%nat as [|k]; simpl in Hj;
      [|destruct k; discriminate].
    injection Hj as <-. apply nth_error_In in Hi.
    rewrite (Hn u Hi) in Huw. discriminate.
  - rewrite nth_error_app2 in Hi by assumption.
    rewrite nth_error_app1 in Hj by assumption.
    destruct (i - List.length vs)%nat as [|k]; simpl in Hi;
      [|destruct k; discriminate].
    injection Hi as <-. apply nth_error_In in Hj.
    rewrite equivalent_sym, (Hn w Hj) in Huw. discriminate.
  - assert (i < List.length (vs ++ [v]))%nat as Bi
      by (apply nth_error_Some; congruence).
    assert (j < List.length (vs ++ [v]))%nat as Bj
      by (apply nth_error_Some; congruence).
    rewrite length_app in Bi, Bj. simpl in Bi, Bj. lia.
Qed.

Lemma first_occurrences_distinct l :
  forall seen, distinct_keys seen -> distinct_keys (first_occurrences seen l).
Proof.
  induction l as [|v l IH]; intros seen Hd; cbn [first_occurrences];
    [exact Hd|].
  destruct (index_of_key seen v) eqn:E; [now apply IH|].
  apply IH. now apply distinct_keys_snoc.
Qed.

Lemma first_occurrences_length l :
  forall seen,
    (List.length (first_occurrences seen l)
       <= List.length seen + List.length l)%nat.
Proof.
  induction l as [|v l IH]; intros seen; cbn [first_occurrences];
    [simpl; lia|].
  destruct (index_of_key seen v).
  - specialize (IH seen). simpl. lia.
  - specialize (IH (seen ++ [v])). rewrite length_app in IH. simpl in *. lia.
Qed.

Lemma corners_length cells half :
  List.length (corners cells half) = (4 * List.length cells)%nat.
Proof.
  induction cells as [|c cells IH]; [reflexivity|].
  rewrite corners_cons, length_app, IH. simpl. lia.
Qed.

(** For any cells and any half size, also with coordinates that are not
    numbers: the mesh has one face per cell, every face holds four indices
    below the number of vertices, every vertex is a corner of a cell, there
    are at most four vertices per cell, and the mesh has no dataset group. *)
Theorem createMesh_always_well_formed (cells : list CellCenter) (half : double) :
  let m := createMesh cells half in
  List.length (faces m) = List.length cells /\
  facesCount m = List.length (faces m) /\
  verticesCount m = List.length (vertices m) /\
  Forall (fun e : Face =>
            List.length e = 4%nat /\
            Forall (fun i => (i < List.length (vertices m))%nat) e) (faces m) /\
  incl (vertices m) (corners cells half) /\
  (List.length (vertices m) <= 4 * List.length cells)%nat /\
  datasetGroups m = [].
Proof.
  intros m. destruct (createMesh_faces half cells) as [Hv Hf]. fold m in Hv, Hf.
  split; [symmetry; exact (Forall2_length Hf)|].
  split; [reflexivity|]. split; [reflexivity|].
  split; [exact (faces_shape Hf)|].
  split; [|split; [|reflexivity]].
  - rewrite Hv.
    destruct (first_occurrences_extends [] (corners cells half))
      as [ext [-> Hincl]]. exact Hincl.
  - rewrite Hv, <- (corners_length cells half).
    exact (first_occurrences_length (corners cells half) []).
Qed.

(** No two vertices of the mesh have keys that compare equal: a vertex is
    stored once per key. *)
Theorem createMesh_vertices_distinct (cells : list CellCenter) (half : double) :
  distinct_keys (vertices (createMesh cells half)).
Proof.
  rewrite (proj1 (createMesh_faces half cells)).
  apply first_occurrences_distinct.
  intros i j u v Hi. destruct i; discriminate Hi.
Qed.

(** For a valid geometry (the key of every corner is a number), the index a
    face holds for a corner of its cell is the index of a vertex whose key
    compares equal to the key of the corner, and no vertex before it has such
    a key. *)
Theorem createMesh_face_points_to_corner (cells : list CellCenter)
  (half : double) :
  valid_geometry cells half ->
  let m := createMesh cells half in
  Forall2
    (fun cell (e : Face) =>
       Forall2
         (fun position i =>
            exists w,
              nth_error (vertices m) i = Some w /\
              equivalent w (createVertex position half cell) = true /\
              forall j u,
                (j < i)%nat -> nth_error (vertices m) j = Some u ->
                equivalent u (createVertex position half cell) = false)
         (seq 0 4) e)
    cells (faces m).
Proof.
  intros _ m. destruct (createMesh_faces half cells) as [_ Hf]. fold m in Hf.
  eapply Forall2_impl; [|exact Hf].
  intros cell e He. unfold face_of_cell in He.
  eapply Forall2_impl; [|exact He].
  intros position i Hi. cbv beta in Hi. unfold index_of_key in Hi.
  destruct (index_where_Some _ _ Hi) as (w & Hw & Hew).
  exists w. split; [exact Hw|]. split; [exact Hew|].
  clear Hw Hew. revert i Hi.
  generalize (vertices m) as vs.
  induction vs as [|a vs IH]; intros i Hi j u Hj Hu; [discriminate Hi|].
  cbn [index_where] in Hi.
  destruct (equivalent a (createVertex position half cell)) eqn:Ea.
  - injection Hi as <-. lia.
  - destruct (index_where (fun u0 => equivalent u0 (createVertex position half cell)) vs)
      as [k|] eqn:Ek; [|discriminate Hi].
    injection Hi as <-.
    destruct j as [|j]; simpl in Hu.
    + injection Hu as <-. exact Ea.
    + apply (IH k eq_refl j u); [lia|exact Hu].
Qed.

Lemma createMesh_face_points_to_corner_witness :
  valid_geometry Inputs.north_south (Inputs.d 5) /\
  Forall2
    (fun cell (e : Face) =>
       Forall2
         (fun position i =>
            exists w,
              nth_error (vertices (createMesh Inputs.north_south (Inputs.d 5))) i
                = Some w /\
              equivalent w (createVertex position (Inputs.d 5) cell) = true /\
              forall j u,
                (j < i)%nat ->
                nth_error (vertices (createMesh Inputs.north_south (Inputs.d 5))) j
                  = Some u ->
                equivalent u (createVertex position (Inputs.d 5) cell) = false)
         (seq 0 4) e)
    Inputs.north_south [[0; 1; 2; 3]; [1; 4; 5; 2]]%nat.
Proof.
  assert (valid_geometry Inputs.north_south (Inputs.d 5)) as H
    by (unfold valid_geometry;
        repeat first [apply Forall_nil | apply Forall_cons; [run|]]).
  split; [exact H|].
  assert (faces (createMesh Inputs.north_south (Inputs.d 5))
          = [[0; 1; 2; 3]; [1; 4; 5; 2]]%nat) as Hf by run.
  rewrite <- Hf.
  exact (createMesh_face_points_to_corner H).
Defined.

(** ** The time-varying reader, slice by slice *)

Section Timdep.

Context {U : Utils}.

Lemma group_inv_marker g0 ms g cur t :
  group_inv g0 ms g cur -> (0 < mesh_faces g0)%nat ->
  group_inv g0 (ms ++ [t]) (addDatasetToGroup g cur)
    (Some (newDataset (addDatasetToGroup g cur) t)).
Proof.
  intros (Hu & Hn & Hs & Hv & Hf & Ht & Hl) Hpos.
  assert (valuesCount g = mesh_faces g0) as Hvc
    by (unfold valuesCount; now rewrite Hv).
  assert (datasets (addDatasetToGroup g cur) = datasets g ++ map (withStatistics g) (pending cur)
          /\ uri (addDatasetToGroup g cur) = uri g
          /\ name (addDatasetToGroup g cur) = name g
          /\ isScalar (addDatasetToGroup g cur) = isScalar g
          /\ isOnVertices (addDatasetToGroup g cur) = isOnVertices g
          /\ mesh_faces (addDatasetToGroup g cur) = mesh_faces g)
    as (Hd & Hu' & Hn' & Hs' & Hv' & Hf').
  { unfold addDatasetToGroup. destruct cur as [d|]; simpl.
    - rewrite Hvc. destruct (Nat.ltb_spec 0 (mesh_faces g0)); [|lia].
      repeat split.
    - rewrite app_nil_r. repeat split. }
  unfold group_inv. rewrite Hu', Hn', Hs', Hv', Hf', Hd.
  repeat split; try assumption.
  - rewrite <- Ht. rewrite !map_app. cbn [pending map time newDataset].
    rewrite <- !app_assoc. do 2 f_equal.
    destruct cur; reflexivity.
  - rewrite <- app_assoc. apply Forall_app. split; [|apply Forall_app; split].
    + apply Forall_app in Hl. apply Hl.
    + apply Forall_app in Hl. destruct Hl as [_ Hl].
      destruct cur; simpl in *; [|constructor].
      inversion Hl; subst. constructor; [assumption|constructor].
    + constructor; [|constructor].
      cbn [newDataset values]. rewrite repeat_length.
      unfold valuesCount, bufferSize. rewrite Hs', Hv', Hf', Hs, Hv, Hf.
      reflexivity.
Qed.

Lemma group_inv_record g0 ms g d v :
  group_inv g0 ms g (Some d) ->
  List.length v = List.length (values d) ->
  group_inv g0 ms g (Some (setValues d v)).
Proof.
  intros (Hu & Hn & Hs & Hv & Hf & Ht & Hl) Hlen.
  repeat split; try assumption.
  - rewrite <- Ht. rewrite !map_app. reflexivity.
  - apply Forall_app in Hl. destruct Hl as [Hl Hd].
    apply Forall_app. split; [exact Hl|].
    inversion Hd; subst. constructor; [|constructor].
    cbn [setValues values]. congruence.
Qed.

Lemma group_inv_flush g0 ms g cur :
  group_inv g0 ms g cur -> (0 < mesh_faces g0)%nat ->
  uri (addDatasetToGroup g cur) = uri g0 /\
  name (addDatasetToGroup g cur) = name g0 /\
  isScalar (addDatasetToGroup g cur) = isScalar g0 /\
  isOnVertices (addDatasetToGroup g cur) = false /\
  map time (datasets (addDatasetToGroup g cur)) = ms /\
  Forall (fun d => List.length (values d) = bufferSize g0)
    (datasets (addDatasetToGroup g cur)).
Proof.
  intros H Hpos.
  destruct (group_inv_marker Double.zero H Hpos)
    as (Hu & Hn & Hs & Hv & _ & Ht & Hl).
  repeat split; try assumption.
  - rewrite map_app in Ht. cbn [pending map] in Ht.
    now apply app_inj_tail in Ht.
  - apply Forall_app in Hl. apply Hl.
Qed.

Lemma timdep_line_inv mesh datFileName elevations line ms s s' :
  (0 < facesCount mesh)%nat ->
  timdep_inv mesh datFileName ms s ->
  timdep_line (verticesCount mesh) elevations line s = Ok s' ->
  timdep_inv mesh datFileName (ms ++ markerTimes [line]) s'.
Proof.
  intros Hpos (Hd & Hf & Hw). unfold timdep_line, markerTimes.
  cbn [filter].
  destruct (List.length (split (rtrim line)) =? 1)%nat.
  - intros H. injection H as <-. unfold timdep_time.
    cbn [map flushDatasets depthDsGroup flowDsGroup waterLevelDsGroup
         depthDataset flowDataset waterLevelDataset].
    split; [|split]; now apply group_inv_marker.
  - cbn [map]. rewrite app_nil_r.
    destruct ((List.length (split (rtrim line)) =? 5)%nat
              || (List.length (split (rtrim line)) =? 6)%nat); [|discriminate].
    unfold timdep_record.
    destruct (depthDataset s) as [dd|] eqn:Edd; [|discriminate].
    destruct (flowDataset s) as [fd|] eqn:Efd; [|discriminate].
    destruct (waterLevelDataset s) as [wd|] eqn:Ewd; [|discriminate].
    destruct (face_idx s =? verticesCount mesh)%nat; [discriminate|].
    intros H.
    apply bind_Ok in H. destruct H as (fv & H1 & H).
    apply bind_Ok in H. destruct H as (fv' & H2 & H).
    apply bind_Ok in H. destruct H as (dv & H3 & H).
    apply bind_Ok in H. destruct H as (level & _ & H).
    apply bind_Ok in H. destruct H as (wv & H4 & H).
    injection H as <-.
    apply set_index_Ok in H1, H2, H3, H4.
    destruct H1 as [_ ->], H2 as [_ ->], H3 as [_ ->], H4 as [_ ->].
    unfold timdep_inv.
    cbn [depthDsGroup flowDsGroup waterLevelDsGroup
         depthDataset flowDataset waterLevelDataset].
    split; [|split]; apply group_inv_record; try assumption;
      now rewrite ?length_replace_nth.
Qed.

Lemma markerTimes_cons line rest :
  markerTimes (line :: rest) = markerTimes [line] ++ markerTimes rest.
Proof.
  unfold markerTimes. cbn [filter].
  destruct (List.length (split (rtrim line)) =? 1)%nat; reflexivity.
Qed.

Lemma timdep_lines_inv mesh datFileName elevations lines :
  forall ms s s',
    (0 < facesCount mesh)%nat ->
    timdep_inv mesh datFileName ms s ->
    timdep_lines (verticesCount mesh) elevations lines s = Ok s' ->
    timdep_inv mesh datFileName (ms ++ markerTimes lines) s'.
Proof.
  induction lines as [|line rest IH]; intros ms s s' Hpos Hinv;
    cbn [timdep_lines].
  - intros H. injection H as <-. unfold markerTimes. simpl.
    now rewrite app_nil_r.
  - intros H. apply bind_Ok in H. destruct H as (s1 & H1 & H).
    rewrite markerTimes_cons, app_assoc.
    apply (IH _ _ _ Hpos (timdep_line_inv _ _ Hpos Hinv H1) H).
Qed.

Lemma timdep_start_inv mesh datFileName :
  timdep_inv mesh datFileName [] (timdep_start mesh datFileName).
Proof. repeat split; constructor. Qed.

(** When the time-varying file is present and read without error, on a mesh
    with at least one face, three groups are added at the end of the
    collection: "Depth" (scalar), "Velocity" (vector) and "Water Level"
    (scalar), in this order, all on faces.  Each has one dataset per line of
    one field, in the order of the lines, at the time the line gives; the
    datasets of the scalar groups hold one value per face, those of the
    vector group two. *)
Theorem parseTIMDEPFile_groups (dir : Directory) (mesh m' : MemoryMesh)
  (datFileName : string) (elevations : list double) (lines : TextFile) :
  TIMDEP_OUT dir = Some lines ->
  (0 < facesCount mesh)%nat ->
  parseTIMDEPFile dir mesh datFileName elevations = Ok m' ->
  exists depth velocity level : DatasetGroup,
    datasetGroups m' = datasetGroups mesh ++ [depth; velocity; level] /\
    (name depth = "Depth" /\ name velocity = "Velocity" /\
     name level = "Water Level")%string /\
    (isScalar depth = true /\ isScalar velocity = false /\
     isScalar level = true) /\
    (isOnVertices depth = false /\ isOnVertices velocity = false /\
     isOnVertices level = false) /\
    (map time (datasets depth) = markerTimes lines /\
     map time (datasets velocity) = markerTimes lines /\
     map time (datasets level) = markerTimes lines) /\
    Forall (fun d => List.length (values d) = facesCount mesh)
      (datasets depth) /\
    Forall (fun d => List.length (values d) = (2 * facesCount mesh)%nat)
      (datasets velocity) /\
    Forall (fun d => List.length (values d) = facesCount mesh)
      (datasets level).
Proof.
  intros Hfile Hpos. unfold parseTIMDEPFile. rewrite Hfile.
  intros H. apply bind_Ok in H. destruct H as (s & Hs & H).
  injection H as <-.
  destruct (@timdep_lines_inv mesh datFileName elevations lines [] _ _ Hpos
              (timdep_start_inv mesh datFileName) Hs)
    as (Hd & Hf & Hw).
  cbn [app] in Hd, Hf, Hw.
  destruct (group_inv_flush Hd Hpos) as (_ & Hdn & Hds & Hdv & Hdt & Hdl).
  destruct (group_inv_flush Hf Hpos) as (_ & Hfn & Hfs & Hfv & Hft & Hfl).
  destruct (group_inv_flush Hw Hpos) as (_ & Hwn & Hws & Hwv & Hwt & Hwl).
  do 3 eexists. split.
  { cbn [push_group datasetGroups]. rewrite <- !app_assoc. reflexivity. }
  cbn [withGroupStatistics flushDatasets name isScalar isOnVertices datasets
       depthDsGroup flowDsGroup waterLevelDsGroup].
  repeat split; assumption.
Qed.

End Timdep.

Lemma parseTIMDEPFile_groups_witness :
  exists m' depth velocity level,
    parseTIMDEPFile (U := Sample.utils)
      (Inputs.with_timdep ["0.5"; "1 1.0 1.0 1.0 1.0"; "2 0.0 1.0 1.0 1.0"; "1.5"]%string)
      Inputs.mesh2 "CADPTS.DAT" [Inputs.d 5; Inputs.d 6] = Ok m' /\
    datasetGroups m' = [depth; velocity; level] /\
    map time (datasets velocity)
      = [Sample.toDouble "0.5"; Sample.toDouble "1.5"].
Proof.
  pose (dir := Inputs.with_timdep
                 ["0.5"; "1 1.0 1.0 1.0 1.0"; "2 0.0 1.0 1.0 1.0"; "1.5"]%string).
  assert (exists m',
            parseTIMDEPFile (U := Sample.utils) dir
              Inputs.mesh2 "CADPTS.DAT" [Inputs.d 5; Inputs.d 6] = Ok m')
    as [m' H] by (eexists; run).
  assert (0 < facesCount Inputs.mesh2)%nat as Hpos
    by (vm_compute; repeat constructor).
  destruct (@parseTIMDEPFile_groups Sample.utils dir Inputs.mesh2 m' "CADPTS.DAT"
              _ _ eq_refl Hpos H)
    as (depth & velocity & level & Hg & _ & _ & _ & (_ & Ht & _) & _).
  exists m', depth, velocity, level.
  split; [exact H|]. split; [exact Hg|]. rewrite Ht. run.
Defined.

(** ** The static maxima *)

Lemma firstn_replace_nth_S {A : Type} (l : list A) k a :
  (k < List.length l)%nat ->
  firstn (S k) (replace_nth l k a) = firstn k l ++ [a].
Proof.
  revert k. induction l as [|b l IH]; intros [|k]; simpl; try lia; auto.
  intros H. f_equal. apply IH. lia.
Qed.

Lemma skipn_replace_nth {A : Type} (l : list A) k m a :
  (k < m)%nat -> skipn m (replace_nth l k a) = skipn m l.
Proof.
  revert k m. induction l as [|b l IH]; intros [|k] [|m]; simpl; try lia; auto.
  intros H. apply IH. lia.
Qed.

Lemma firstn_replace_nth_le {A : Type} (l : list A) k m a :
  (m <= k)%nat -> firstn m (replace_nth l k a) = firstn m l.
Proof.
  revert k m. induction l as [|b l IH]; intros [|k] [|m]; simpl; try lia; auto.
  intros H. f_equal. apply IH. lia.
Qed.

Lemma skipn_repeat {A : Type} (a : A) n m :
  skipn n (repeat a m) = repeat a (m - n).
Proof.
  revert m. induction n as [|n IH]; intros [|m]; simpl; auto.
Qed.

Section Maxima.

Context {U : Utils}.

Lemma depth_lines_spec nFaces elevations lines :
  forall k md mw md' mw',
    (k <= nFaces)%nat ->
    List.length md = nFaces -> List.length mw = nFaces ->
    depth_lines nFaces elevations lines k md mw = Ok (md', mw') ->
    (k + List.length lines <= nFaces)%nat /\
    Forall (fun line => List.length (split (rtrim line)) = 4%nat) lines /\
    md' = firstn k md ++ map maximumOf lines
            ++ skipn (k + List.length lines) md /\
    mw' = firstn k mw
            ++ map (levelOf elevations)
                 (combine lines (seq k (List.length lines)))
            ++ skipn (k + List.length lines) mw.
Proof.
  induction lines as [|line rest IH]; intros k md mw md' mw' Hkn Hmd Hmw;
    cbn [depth_lines].
  - intros H. injection H as <- <-. cbn [List.length map combine seq app].
    rewrite Nat.add_0_r, !firstn_skipn.
    split; [exact Hkn|split; [constructor|split; reflexivity]].
  - destruct (Nat.eqb_spec k nFaces) as [Ek|Ek]; [discriminate|].
    destruct (Nat.eqb_spec (List.length (split (rtrim line))) 4) as [E4|E4];
      cbn [negb]; [|discriminate].
    intros H.
    apply bind_Ok in H. destruct H as (md1 & H1 & H).
    apply bind_Ok in H. destruct H as (level & Hl & H).
    apply bind_Ok in H. destruct H as (mw1 & H2 & H).
    apply set_index_Ok in H1, H2.
    destruct H1 as [Hk ->], H2 as [Hk' ->].
    apply IH in H; try (now rewrite length_replace_nth); [|lia].
    destruct H as (Hle & Hall & -> & ->).
    cbn [List.length]. split; [lia|]. split; [now constructor|].
    assert (level = levelOf elevations (line, k)) as ->.
    { unfold levelOf, maximumOf. cbn [fst snd].
      destruct (Double.isnan (getDoubleS (field (split (rtrim line)) 3)));
        cbn [negb] in Hl.
      - now injection Hl as <-.
      - apply bind_Ok in Hl. destruct Hl as (e & He & Hl).
        injection Hl as <-. apply at_index_Ok in He.
        now rewrite (nth_error_nth _ _ _ He). }
    rewrite !firstn_replace_nth_S by assumption.
    rewrite !skipn_replace_nth by lia.
    rewrite <- !app_assoc. cbn [map combine seq app].
    rewrite <- !Nat.add_succ_comm. split; reflexivity.
Qed.

(** When the file of the maximal depths is absent the mesh is left as it
    is.  When it is read without error it has at most one line per face, all
    of four fields, and two groups are added: "Depth/Maximums" and
    "Water Level/Maximums", scalar, on faces, each with a single dataset at
    time 0.  The depth of a face is the decoded fourth field of its line; the
    water level is the depth plus the bed elevation of the face, or the
    missing value when the depth is missing.  A face that has no line holds
    0.0 in both datasets. *)
Theorem parseDEPTHFile_groups (dir : Directory) (mesh m' : MemoryMesh)
  (datFileName : string) (elevations : list double) :
  parseDEPTHFile dir mesh datFileName elevations = Ok m' ->
  match DEPTH_OUT dir with
  | None => m' = mesh
  | Some lines =>
      (List.length lines <= facesCount mesh)%nat /\
      Forall (fun line => List.length (split (rtrim line)) = 4%nat) lines /\
      exists depth level dd dl,
        datasetGroups m' = datasetGroups mesh ++ [depth; level] /\
        (name depth = "Depth/Maximums" /\
         name level = "Water Level/Maximums")%string /\
        (isScalar depth = true /\ isScalar level = true) /\
        (isOnVertices depth = false /\ isOnVertices level = false) /\
        (datasets depth = [dd] /\ datasets level = [dl]) /\
        (time dd = Double.zero /\ time dl = Double.zero) /\
        values dd = map maximumOf lines
                      ++ repeat Double.zero (facesCount mesh - List.length lines) /\
        values dl = map (levelOf elevations)
                      (combine lines (seq 0 (List.length lines)))
                      ++ repeat Double.zero (facesCount mesh - List.length lines)
  end.
Proof.
  unfold parseDEPTHFile. destruct (DEPTH_OUT dir) as [lines|].
  - intros H. apply bind_Ok in H. destruct H as ([md mw] & Hd & H).
    apply bind_Ok in H. destruct H as (m1 & H1 & H2).
    apply depth_lines_spec in Hd;
      [|lia|apply repeat_length|apply repeat_length].
    destruct Hd as (Hle & Hall & -> & ->). cbn [firstn app Nat.add] in *.
    rewrite !skipn_repeat in *.
    apply addStaticDataset_Ok in H1.
    destruct H1 as (_ & g1 & d1 & -> & _ & Hn1 & Hv1 & Hs1 & Hd1 & Ht1 & Hvals1).
    apply addStaticDataset_Ok in H2.
    destruct H2 as (_ & g2 & d2 & -> & _ & Hn2 & Hv2 & Hs2 & Hd2 & Ht2 & Hvals2).
    split; [exact Hle|]. split; [exact Hall|].
    exists g1, g2, d1, d2. cbn [push_group datasetGroups].
    rewrite <- app_assoc. repeat split; assumption.
  - intros H. now injection H as <-.
Qed.

Lemma velfp_lines_spec nFaces lines :
  forall k mv mv',
    (k <= nFaces)%nat -> List.length mv = nFaces ->
    velfp_lines nFaces lines k mv = Ok mv' ->
    (k + List.length lines <= nFaces)%nat /\
    Forall (fun line => List.length (split (rtrim line)) = 4%nat) lines /\
    mv' = firstn k mv ++ map maximumOf lines
            ++ skipn (k + List.length lines) mv.
Proof.
  induction lines as [|line rest IH]; intros k mv mv' Hkn Hmv;
    cbn [velfp_lines].
  - intros H. injection H as <-. cbn [List.length map app].
    rewrite Nat.add_0_r, firstn_skipn.
    split; [exact Hkn|split; [constructor|reflexivity]].
  - destruct (Nat.eqb_spec k nFaces) as [Ek|Ek]; [discriminate|].
    destruct (Nat.eqb_spec (List.length (split (rtrim line))) 4) as [E4|E4];
      cbn [negb]; [|discriminate].
    intros H. apply bind_Ok in H. destruct H as (mv1 & H1 & H).
    apply set_index_Ok in H1. destruct H1 as [Hk ->].
    apply IH in H; [|lia|now rewrite length_replace_nth].
    destruct H as (Hle & Hall & ->).
    cbn [List.length]. split; [lia|]. split; [now constructor|].
    rewrite firstn_replace_nth_S by assumption.
    rewrite skipn_replace_nth by lia.
    rewrite <- !app_assoc. cbn [map app].
    now rewrite <- !Nat.add_succ_comm.
Qed.

Lemma overlay_length base over :
  List.length (overlay base over) = List.length base.
Proof.
  revert over. induction base as [|b base IH]; intros [|o over]; simpl; auto.
Qed.

Lemma veloc_lines_spec nFaces lines :
  forall k mv mv',
    (k <= nFaces)%nat -> List.length mv = nFaces ->
    veloc_lines nFaces lines k mv = Ok mv' ->
    (k + List.length lines <= nFaces)%nat /\
    Forall (fun line => List.length (split (rtrim line)) = 4%nat) lines /\
    mv' = firstn k mv ++ overlay (skipn k mv) (map maximumOf lines).
Proof.
  induction lines as [|line rest IH]; intros k mv mv' Hkn Hmv;
    cbn [veloc_lines].
  - intros H. injection H as <-. cbn [List.length map].
    rewrite Nat.add_0_r.
    split; [exact Hkn|split; [constructor|]].
    destruct (skipn k mv) eqn:E; cbn [overlay]; rewrite <- E;
      now rewrite firstn_skipn.
  - destruct (Nat.eqb_spec k nFaces) as [Ek|Ek]; [discriminate|].
    destruct (Nat.eqb_spec (List.length (split (rtrim line))) 4) as [E4|E4];
      cbn [negb]; [|discriminate].
    intros H. apply bind_Ok in H. destruct H as (mv1 & H1 & H).
    assert (k < List.length mv)%nat as Hk by lia.
    assert (mv1 = replace_nth mv k
                    (if Double.isnan (maximumOf line)
                     then nth k mv Double.zero else maximumOf line)) as ->.
    { unfold maximumOf in *.
      destruct (Double.isnan (getDoubleS (field (split (rtrim line)) 3)));
        cbn [negb] in H1.
      - injection H1 as <-. clear - Hk. revert k Hk.
        induction mv as [|b mv IHm]; intros [|k] Hk; simpl in *; try lia; auto.
        f_equal. apply IHm. lia.
      - apply set_index_Ok in H1. now destruct H1 as [_ ->]. }
    apply IH in H; [|lia|now rewrite length_replace_nth].
    destruct H as (Hle & Hall & ->).
    cbn [List.length]. split; [lia|]. split; [now constructor|].
    rewrite firstn_replace_nth_S by assumption.
    rewrite skipn_replace_nth by lia.
    rewrite <- app_assoc. f_equal. cbn [map].
    clear - Hk. revert k Hk.
    induction mv as [|b mv IHm]; intros [|k] Hk; simpl in *; try lia.
    + reflexivity.
    + apply IHm. lia.
Qed.

(** The group of the maximal velocities is added only when both files are
    present; otherwise the mesh is left as it is.  When both are read without
    error each has at most one line per face, and the single dataset of the
    group "Velocity/Maximums" holds for a face the channel value when it is
    not missing and the floodplain value otherwise (0.0 for a face without
    floodplain line). *)
Theorem parseVELFPVELOCFile_combines (dir : Directory) (mesh m' : MemoryMesh)
  (datFileName : string) :
  parseVELFPVELOCFile dir mesh datFileName = Ok m' ->
  match VELFP_OUT dir, VELOC_OUT dir with
  | Some floodplain, Some channel =>
      (List.length floodplain <= facesCount mesh)%nat /\
      (List.length channel <= facesCount mesh)%nat /\
      exists g ds,
        datasetGroups m' = datasetGroups mesh ++ [g] /\
        name g = "Velocity/Maximums"%string /\
        isScalar g = true /\ isOnVertices g = false /\
        datasets g = [ds] /\ time ds = Double.zero /\
        values ds =
          overlay
            (map maximumOf floodplain
               ++ repeat Double.zero (facesCount mesh - List.length floodplain))
            (map maximumOf channel)
  | _, _ => m' = mesh
  end.
Proof.
  unfold parseVELFPVELOCFile. destruct (VELFP_OUT dir) as [fl|].
  - intros H. apply bind_Ok in H. destruct H as (mv & Hf & H).
    apply velfp_lines_spec in Hf; [|lia|apply repeat_length].
    destruct Hf as (Hle & _ & ->). cbn [firstn app Nat.add] in *.
    rewrite skipn_repeat in *.
    destruct (VELOC_OUT dir) as [cl|].
    + apply bind_Ok in H. destruct H as (mv' & Hc & H).
      apply veloc_lines_spec in Hc;
        [|lia|rewrite length_app, length_map, repeat_length; lia].
      destruct Hc as (Hle' & _ & ->). cbn [firstn app skipn Nat.add] in *.
      apply addStaticDataset_Ok in H.
      destruct H as (_ & g & d & -> & _ & Hn & Hv & Hs & Hd & Ht & Hvals).
      split; [exact Hle|]. split; [exact Hle'|].
      exists g, d. repeat split; assumption.
    + now injection H as <-.
  - intros H. now injection H as <-.
Qed.

End Maxima.

Lemma parseDEPTHFile_groups_witness :
  exists m' depth level dd dl,
    parseDEPTHFile (U := Sample.utils)
      {| CADPTS_DAT := None; FPLAIN_DAT := None; TIMDEP_OUT := None;
         DEPTH_OUT := Some ["1 0 0 1.5"%string];
         VELFP_OUT := None; VELOC_OUT := None; TIMDEP_HDF5 := None |}
      Inputs.mesh2 "CADPTS.DAT" [Inputs.d 5; Inputs.d 6] = Ok m' /\
    datasetGroups m' = [depth; level] /\
    datasets depth = [dd] /\ datasets level = [dl] /\
    values dd = [Sample.toDouble "1.5"; Double.zero] /\
    values dl = [Sample.toDouble "6.5"; Double.zero].
Proof.
  pose (dir := {| CADPTS_DAT := None; FPLAIN_DAT := None; TIMDEP_OUT := None;
                  DEPTH_OUT := Some ["1 0 0 1.5"%string];
                  VELFP_OUT := None; VELOC_OUT := None; TIMDEP_HDF5 := None |}).
  assert (exists m', parseDEPTHFile (U := Sample.utils) dir Inputs.mesh2
                       "CADPTS.DAT" [Inputs.d 5; Inputs.d 6] = Ok m')
    as [m' H] by (eexists; run).
  pose proof (@parseDEPTHFile_groups Sample.utils dir Inputs.mesh2 m'
                "CADPTS.DAT" _ H) as Hg.
  cbn [DEPTH_OUT dir] in Hg.
  destruct Hg as (_ & _ & depth & level & dd & dl & Hgs & _ & _ & _ &
                  (Hd & Hl) & _ & Hvd & Hvl).
  exists m', depth, level, dd, dl.
  split; [exact H|]. split; [exact Hgs|]. split; [exact Hd|].
  split; [exact Hl|]. split; [rewrite Hvd; run | rewrite Hvl; run].
Defined.

Lemma parseVELFPVELOCFile_combines_witness :
  exists m' g ds,
    parseVELFPVELOCFile (U := Sample.utils)
      (Inputs.with_velocities (Some ["1 0 0 2.0"; "2 0 0 4.0"]%string)
         (Some ["1 0 0 0.0"; "2 0 0 3.0"]%string))
      Inputs.mesh2 "CADPTS.DAT" = Ok m' /\
    datasetGroups m' = [g] /\ datasets g = [ds] /\
    values ds = [Sample.toDouble "2.0"; Sample.toDouble "3.0"].
Proof.
  pose (dir := Inputs.with_velocities (Some ["1 0 0 2.0"; "2 0 0 4.0"]%string)
                 (Some ["1 0 0 0.0"; "2 0 0 3.0"]%string)).
  assert (exists m', parseVELFPVELOCFile (U := Sample.utils) dir Inputs.mesh2
                       "CADPTS.DAT" = Ok m')
    as [m' H] by (eexists; run).
  pose proof (@parseVELFPVELOCFile_combines Sample.utils dir Inputs.mesh2 m'
                "CADPTS.DAT" H) as Hg.
  cbn [VELFP_OUT VELOC_OUT dir Inputs.with_velocities] in Hg.
  destruct Hg as (_ & _ & g & ds & Hgs & _ & _ & _ & Hd & _ & Hv).
  exists m', g, ds.
  split; [exact H|]. split; [exact Hgs|]. split; [exact Hd|].
  rewrite Hv. run.
Defined.

(** ** Filling a buffer index by index *)

Lemma fill_seq {A : Type} (f : nat -> A) (off n : nat) :
  forall k out,
    (off + k + n <= List.length out)%nat ->
    fold_left (fun out j => replace_nth out (off + j) (f j)) (seq k n) out
      = firstn (off + k) out ++ map f (seq k n) ++ skipn (off + k + n) out.
Proof.
  induction n as [|n IH]; intros k out Hlen; cbn [seq fold_left map app].
  - rewrite Nat.add_0_r. now rewrite firstn_skipn.
  - rewrite IH by (rewrite length_replace_nth; lia).
    rewrite Nat.add_succ_r.
    rewrite firstn_replace_nth_S by lia.
    rewrite skipn_replace_nth by lia.
    rewrite <- app_assoc. cbn [app].
    do 3 f_equal. f_equal. lia.
Qed.

Lemma fill_all {A : Type} (f : nat -> A) (out : list A) :
  fold_left (fun out j => replace_nth out j (f j)) (seq 0 (List.length out)) out
    = map f (seq 0 (List.length out)).
Proof.
  change (fold_left (fun out j => replace_nth out (0 + j) (f j))
            (seq 0 (List.length out)) out
          = map f (seq 0 (List.length out))).
  rewrite fill_seq by (simpl; lia). cbn [Nat.add firstn app].
  rewrite skipn_all. apply app_nil_r.
Qed.

Lemma fill_pairs {A : Type} (fx fy : nat -> A) (n : nat) :
  forall k out,
    (2 * (k + n) <= List.length out)%nat ->
    fold_left
      (fun out i => replace_nth (replace_nth out (2 * i) (fx i)) (2 * i + 1) (fy i))
      (seq k n) out
      = firstn (2 * k) out ++ flat_map (fun i => [fx i; fy i]) (seq k n)
          ++ skipn (2 * (k + n)) out.
Proof.
  induction n as [|n IH]; intros k out Hlen; cbn [seq fold_left flat_map app].
  - rewrite Nat.add_0_r. now rewrite firstn_skipn.
  - rewrite IH by (rewrite !length_replace_nth; lia).
    replace (2 * S k)%nat with (S (2 * k + 1)) by lia.
    rewrite firstn_replace_nth_S by (rewrite length_replace_nth; lia).
    replace (2 * k + 1)%nat with (S (2 * k)) by lia.
    rewrite firstn_replace_nth_S by lia.
    rewrite !skipn_replace_nth by lia.
    rewrite <- !app_assoc. cbn [app].
    do 4 f_equal. f_equal. lia.
Qed.

Lemma fill_all_pairs {A : Type} (fx fy : nat -> A) (n : nat) (out : list A) :
  List.length out = (2 * n)%nat ->
  fold_left
    (fun out i => replace_nth (replace_nth out (2 * i) (fx i)) (2 * i + 1) (fy i))
    (seq 0 n) out
    = flat_map (fun i => [fx i; fy i]) (seq 0 n).
Proof.
  intros Hlen. rewrite fill_pairs by (simpl; lia).
  cbn [Nat.mul firstn app Nat.add].
  rewrite skipn_all2 by lia. apply app_nil_r.
Qed.

(** ** What the reader of the store reads *)

Lemma map_nth_seq {A : Type} (l : list A) (d : A) :
  map (fun i => nth i l d) (seq 0 (List.length l)) = l.
Proof.
  induction l as [|a l IH]; [reflexivity|].
  cbn [List.length seq map nth]. f_equal.
  rewrite <- seq_shift, map_map. exact IH.
Qed.

Lemma fit_length {A : Type} (n : nat) (d : A) (l : list A) :
  List.length (fit n d l) = n.
Proof.
  unfold fit. rewrite length_firstn, length_app, repeat_length. lia.
Qed.

Section ReaderValues.

Context {U : Utils}.

Lemma hdf5_timestep_dataset nFaces isVector times vals ds ts :
  isOnVertices ds = false -> isScalar ds = negb isVector ->
  mesh_faces ds = nFaces -> (0 < nFaces)%nat ->
  exists d,
    hdf5_timestep nFaces isVector times vals ds ts = push_dataset ds d /\
    time d = nth ts times Double.zero /\
    values d = slice isVector nFaces vals ts.
Proof.
  intros Hv Hs Hf Hpos. unfold hdf5_timestep, addDatasetToGroup.
  assert (valuesCount ds = nFaces) as Hvc by (unfold valuesCount; now rewrite Hv).
  rewrite Hvc. destruct (Nat.ltb_spec 0 nFaces); [|lia].
  eexists. split; [reflexivity|]. split; [reflexivity|].
  cbn [withStatistics setValues values newDataset]. rewrite Hs, Hvc.
  unfold slice. destruct isVector; cbn [negb].
  - unfold hdf5_vector_values, sliceVector.
    apply fill_all_pairs. apply repeat_length.
  - unfold hdf5_scalar_values, sliceScalar.
    rewrite <- (repeat_length freshValue nFaces) at 1 3.
    rewrite (fill_all
               (fun i => getDouble (Float32.to_double
                                      (nth (ts * nFaces + i) vals Float32.zero)))
               (repeat freshValue nFaces)).
    now rewrite repeat_length.
Qed.

Lemma hdf5_timesteps_datasets nFaces isVector times vals l :
  forall ds,
    isOnVertices ds = false -> isScalar ds = negb isVector ->
    mesh_faces ds = nFaces -> (0 < nFaces)%nat ->
    let g := fold_left (hdf5_timestep nFaces isVector times vals) l ds in
    map time (datasets g)
      = map time (datasets ds) ++ map (fun ts => nth ts times Double.zero) l /\
    map values (datasets g)
      = map values (datasets ds) ++ map (slice isVector nFaces vals) l /\
    isOnVertices g = false /\ isScalar g = negb isVector.
Proof.
  induction l as [|ts l IH]; intros ds Hv Hs Hf Hpos; cbn [fold_left map].
  - rewrite !app_nil_r. repeat split; assumption.
  - destruct (@hdf5_timestep_dataset nFaces isVector times vals ds ts Hv Hs Hf Hpos)
      as (d & -> & Ht & Hd).
    destruct (IH (push_dataset ds d)) as (IHt & IHv & IHo & IHs);
      try assumption.
    cbv zeta. rewrite IHt, IHv. cbn [push_dataset datasets].
    rewrite !map_app. cbn [map]. rewrite Ht, Hd, <- !app_assoc.
    repeat split; assumption.
Qed.

Lemma hdf5_group_datasets (timedepFileName grpName : string) (r : HdfResults)
  (mesh : MemoryMesh) (grp : HdfGroup) (groupType : HdfData)
  (timesDs valuesDs : HdfDataset) :
  (0 < facesCount mesh)%nat ->
  lookup grpName (r_groups r) = Some grp ->
  lookup "Grouptype" (attributes grp) = Some groupType ->
  lookup "Times" (dsets grp) = Some timesDs ->
  lookup "Values" (dsets grp) = Some valuesDs ->
  let isVector := contains_ci (readString groupType) "vector" in
  elementCount valuesDs
    = (facesCount mesh * elementCount timesDs * (if isVector then 2 else 1))%nat ->
  exists g,
    hdf5_group (facesCount mesh) timedepFileName r grpName mesh
      = Some (push_group mesh g) /\
    name g = grpName /\ uri g = timedepFileName /\
    isOnVertices g = false /\ isScalar g = negb isVector /\
    map time (datasets g) = readArrayDouble timesDs /\
    map values (datasets g)
      = map (slice isVector (facesCount mesh) (readArray valuesDs))
          (seq 0 (elementCount timesDs)).
Proof.
  intros Hpos Hg Ht Htimes Hvals isVector Hcount.
  unfold hdf5_group. rewrite Hg, Ht, Htimes, Hvals. fold isVector.
  assert ((elementCount valuesDs =?
             (if isVector
              then (facesCount mesh * elementCount timesDs * 2)%nat
              else (facesCount mesh * elementCount timesDs)%nat))%nat = true)
    as ->.
  { apply Nat.eqb_eq. rewrite Hcount. destruct isVector; lia. }
  cbn [negb].
  eexists. split; [reflexivity|].
  cbn [withGroupStatistics name uri isOnVertices isScalar datasets].
  destruct (hdf5_timesteps_name (facesCount mesh) isVector
              (readArrayDouble timesDs) (readArray valuesDs)
              (seq 0 (elementCount timesDs))
              (newGroup mesh timedepFileName grpName false (negb isVector)))
    as [-> ->].
  destruct (@hdf5_timesteps_datasets (facesCount mesh) isVector
              (readArrayDouble timesDs) (readArray valuesDs)
              (seq 0 (elementCount timesDs))
              (newGroup mesh timedepFileName grpName false (negb isVector))
              eq_refl eq_refl eq_refl Hpos)
    as (Htm & Hvl & Hov & Hsc).
  rewrite Htm, Hvl, Hov, Hsc. cbn [newGroup datasets map app name uri].
  repeat split.
  rewrite <- (fit_length (elementCount timesDs) Double.zero
                match data timesDs with
                | HdfDoubles l => l
                | HdfFloats l => map Float32.to_double l
                | _ => []
                end) at 1.
  apply map_nth_seq.
Qed.


(** A sub-group with a type attribute, a time array and a value array of
    [facesCount * timesteps] elements (twice as many when the type holds
    "vector") is read into a group named after it, on faces, scalar or
    vector by its type, with one dataset per time index: the time is the
    entry of the time array, the values are the entries of the value array
    for that index, decoded. *)
Theorem hdf5_group_reads (timedepFileName grpName : string) (r : HdfResults)
  (mesh : MemoryMesh) (grp : HdfGroup) (groupType : HdfData)
  (timesDs valuesDs : HdfDataset) :
  (0 < facesCount mesh)%nat ->
  lookup grpName (r_groups r) = Some grp ->
  lookup "Grouptype" (attributes grp) = Some groupType ->
  lookup "Times" (dsets grp) = Some timesDs ->
  lookup "Values" (dsets grp) = Some valuesDs ->
  let isVector := contains_ci (readString groupType) "vector" in
  elementCount valuesDs
    = (facesCount mesh * elementCount timesDs * (if isVector then 2 else 1))%nat ->
  exists g,
    hdf5_group (facesCount mesh) timedepFileName r grpName mesh
      = Some (push_group mesh g) /\
    name g = grpName /\ uri g = timedepFileName /\
    isOnVertices g = false /\ isScalar g = negb isVector /\
    List.length (datasets g) = elementCount timesDs /\
    map time (datasets g) = readArrayDouble timesDs /\
    map values (datasets g)
      = map (slice isVector (facesCount mesh) (readArray valuesDs))
          (seq 0 (elementCount timesDs)).
Proof.
  intros Hpos Hg Ht Htimes Hvals isVector Hcount.
  destruct (@hdf5_group_datasets timedepFileName grpName r mesh grp groupType
              timesDs valuesDs Hpos Hg Ht Htimes Hvals Hcount)
    as (g & H & Hn & Hu & Hv & Hs & Htm & Hvl).
  exists g. split; [exact H|]. split; [exact Hn|]. split; [exact Hu|].
  split; [exact Hv|]. split; [exact Hs|]. split; [|split; assumption].
  rewrite <- (length_map values), Hvl, length_map. apply length_seq.
Qed.

End ReaderValues.

Lemma hdf5_group_reads_witness :
  exists g,
    hdf5_group (U := Sample.utils) (facesCount Inputs.mesh2) "TIMDEP.HDF5"
      {| r_attributes := [];
         r_groups := [("A"%string,
                       Inputs.sub_group (Some "DATASET SCALAR"%string)
                         [Inputs.d 1] [Inputs.f 5; Inputs.f 7])] |}
      "A" Inputs.mesh2 = Some (push_group Inputs.mesh2 g) /\
    map time (datasets g) = [Inputs.d 1] /\
    map values (datasets g) = [[Inputs.d 5; Inputs.d 7]].
Proof.
  pose (grp := Inputs.sub_group (Some "DATASET SCALAR"%string)
                 [Inputs.d 1] [Inputs.f 5; Inputs.f 7]).
  assert (0 < facesCount Inputs.mesh2)%nat as Hpos
    by (vm_compute; repeat constructor).
  destruct (@hdf5_group_reads Sample.utils "TIMDEP.HDF5" "A"
              {| r_attributes := []; r_groups := [("A"%string, grp)] |}
              Inputs.mesh2 grp (HdfString "DATASET SCALAR")
              (writeDoubles [1%nat] [Inputs.d 1])
              (writeFloats [2%nat] [Inputs.f 5; Inputs.f 7])
              Hpos eq_refl eq_refl eq_refl eq_refl)
    as (g & Hg & _ & _ & _ & _ & _ & Ht & Hv).
  { vm_compute. reflexivity. }
  exists g. split; [exact Hg|]. split.
  - rewrite Ht. run.
  - rewrite Hv. run.
Defined.

Section ReaderOutcome.

Context {U : Utils}.



End ReaderOutcome.

(** ** The writer, step by step *)

(** The naming loop in closed form: the name of the group when it is free;
    the name with the suffix "_0" after one turn when the name is taken and
    the suffixed name is free; no result, however many turns are allowed,
    when both are taken. *)
Theorem uniqueGroupName_closed_form (fuel : nat) (groupTNOR : HdfResults)
  (name : string) :
  uniqueGroupName fuel groupTNOR name 0 name =
    if pathExists groupTNOR name then
      if pathExists groupTNOR (name ++ "_" ++ to_string 0) then None
      else match fuel with
           | O => None
           | S _ => Some (name ++ "_" ++ to_string 0)%string
           end
    else Some name.
Proof.
  destruct (pathExists groupTNOR name) eqn:E.
  - destruct (pathExists groupTNOR (name ++ "_" ++ to_string 0)) eqn:E0.
    + now apply uniqueGroupName_collision.
    + destruct fuel as [|fuel].
      * cbn [uniqueGroupName]. now rewrite E.
      * now apply uniqueGroupName_once.
  - destruct fuel; cbn [uniqueGroupName]; now rewrite E.
Qed.

Lemma rowData_length valCount ds : List.length (rowData valCount ds) = valCount.
Proof. apply fit_length. Qed.

Lemma storedRow_length valCount ds :
  List.length (storedRow valCount ds) = valCount.
Proof. unfold storedRow. rewrite length_map. apply rowData_length. Qed.

Lemma appendGroup_row_spec valCount i row vals :
  List.length row = valCount ->
  (i * valCount + valCount <= List.length vals)%nat ->
  appendGroup_row valCount i row vals
    = firstn (i * valCount) vals
        ++ map (fun v => Float32.of_double (toFlo2DDouble v)) row
        ++ skipn (i * valCount + valCount) vals.
Proof.
  intros Hrow Hlen. unfold appendGroup_row.
  rewrite (fill_seq
             (fun j => Float32.of_double (toFlo2DDouble (nth j row Double.zero)))
             (i * valCount) valCount 0 vals) by lia.
  rewrite !Nat.add_0_r. do 2 f_equal.
  rewrite <- Hrow.
  rewrite <- (map_map (fun j => nth j row Double.zero)
                (fun v => Float32.of_double (toFlo2DDouble v))).
  now rewrite map_nth_seq.
Qed.


Lemma firstn_patch {A : Type} (l row : list A) a :
  (a + List.length row <= List.length l)%nat ->
  firstn (a + List.length row)
    (firstn a l ++ row ++ skipn (a + List.length row) l)
  = firstn a l ++ row.
Proof.
  intros H.
  assert (List.length (firstn a l) = a) as Ha
    by (rewrite length_firstn; lia).
  rewrite <- Ha at 1. rewrite firstn_app_2.
  rewrite firstn_app, Nat.sub_diag. cbn [firstn].
  rewrite firstn_all. now rewrite app_nil_r.
Qed.

Lemma skipn_patch {A : Type} (l row : list A) a m :
  (a + List.length row <= List.length l)%nat ->
  (a + List.length row <= m)%nat ->
  skipn m (firstn a l ++ row ++ skipn (a + List.length row) l) = skipn m l.
Proof.
  intros H Hm.
  assert (List.length (firstn a l) = a) as Ha
    by (rewrite length_firstn; lia).
  rewrite app_assoc, skipn_app, length_app, Ha.
  rewrite skipn_all2 by (rewrite length_app, Ha; lia).
  cbn [app]. rewrite skipn_skipn. f_equal. lia.
Qed.

(** The loop that prepares the data, from the dataset at index [i] on. *)
Lemma appendGroup_prepare_spec valCount dsl :
  forall i b,
    (i + List.length dsl <= List.length (maximums b))%nat ->
    (i + List.length dsl <= List.length (minimums b))%nat ->
    ((i + List.length dsl) * valCount <= List.length (w_values b))%nat ->
    let b' := fold_left (appendGroup_prepare valCount)
                (combine (seq i (List.length dsl)) dsl) b in
    maximums b' = firstn i (maximums b)
                    ++ maximums (preparedBuffers valCount dsl)
                    ++ skipn (i + List.length dsl) (maximums b) /\
    minimums b' = firstn i (minimums b)
                    ++ minimums (preparedBuffers valCount dsl)
                    ++ skipn (i + List.length dsl) (minimums b) /\
    times b' = times b ++ map time dsl /\
    w_values b' = firstn (i * valCount) (w_values b)
                    ++ w_values (preparedBuffers valCount dsl)
                    ++ skipn ((i + List.length dsl) * valCount) (w_values b).
Proof.
  induction dsl as [|ds dsl IH]; intros i b Hmax Hmin Hval;
    cbn [List.length seq combine fold_left] in *.
  - cbn [preparedBuffers maximums minimums w_values map List.concat app].
    rewrite Nat.add_0_r, !firstn_skipn, app_nil_r. repeat split.
  - assert (w_values (appendGroup_prepare valCount b (i, ds))
            = firstn (i * valCount) (w_values b) ++ storedRow valCount ds
                ++ skipn (i * valCount + List.length (storedRow valCount ds))
                     (w_values b)) as Hrow.
    { cbn [appendGroup_prepare w_values].
      rewrite appendGroup_row_spec by (try apply rowData_length; nia).
      now rewrite storedRow_length. }
    assert (i * valCount + List.length (storedRow valCount ds)
            <= List.length (w_values b))%nat as Hfit
      by (rewrite storedRow_length; nia).
    destruct (IH (S i) (appendGroup_prepare valCount b (i, ds)))
      as (Hm & Hn & Ht & Hv).
    + cbn [appendGroup_prepare maximums]. rewrite length_replace_nth. lia.
    + cbn [appendGroup_prepare minimums]. rewrite length_replace_nth. lia.
    + rewrite Hrow, !length_app, length_firstn, length_skipn,
        storedRow_length. nia.
    + cbv zeta. rewrite Hm, Hn, Ht, Hv. clear Hm Hn Ht Hv IH.
      replace (S i * valCount)%nat
        with (i * valCount + List.length (storedRow valCount ds))%nat
        by (rewrite storedRow_length; lia).
      rewrite Hrow, firstn_patch by exact Hfit.
      rewrite skipn_patch
        by (try exact Hfit; rewrite storedRow_length; nia).
      cbn [appendGroup_prepare maximums minimums times
           preparedBuffers map List.concat w_values].
      rewrite !firstn_replace_nth_S by lia.
      rewrite !skipn_replace_nth by lia.
      rewrite <- !app_assoc. cbn [app].
      replace (i + S (List.length dsl))%nat with (S i + List.length dsl)%nat
        by lia.
      repeat split.
Qed.

(** The buffers after the loop over the datasets of the group. *)
Lemma appendGroup_buffers (valCount : nat) (dsl : list Dataset) :
  fold_left (appendGroup_prepare valCount)
    (combine (seq 0 (List.length dsl)) dsl)
    {| maximums := repeat Float32.zero (List.length dsl);
       minimums := repeat Float32.zero (List.length dsl);
       times := repeat Double.zero (List.length dsl);
       w_values := repeat Float32.zero (List.length dsl * valCount) |}
  = preparedBuffers valCount dsl.
Proof.
  destruct (@appendGroup_prepare_spec valCount dsl 0
              {| maximums := repeat Float32.zero (List.length dsl);
                 minimums := repeat Float32.zero (List.length dsl);
                 times := repeat Double.zero (List.length dsl);
                 w_values := repeat Float32.zero (List.length dsl * valCount) |})
    as (Hm & Hn & Ht & Hv);
    cbn [maximums minimums times w_values]; rewrite ?repeat_length; try lia.
  cbn [maximums minimums times w_values Nat.add Nat.mul firstn app] in *.
  rewrite !skipn_all2 in * by (rewrite repeat_length; lia).
  rewrite !app_nil_r in *.
  destruct (fold_left _ _ _) as [m n t v]. cbn in *. subst.
  reflexivity.
Qed.

Lemma uniqueGroupName_free fuel r n :
  pathExists r n = false -> uniqueGroupName fuel r n 0 n = Some n.
Proof. intros H. destruct fuel; cbn [uniqueGroupName]; now rewrite H. Qed.

(** [appendGroup] on a group on faces: the naming loop, then the stored
    group at the end of the results group. *)
Lemma appendGroup_on_faces fuel file g r :
  isOnVertices g = false ->
  appendGroup fuel file g r =
    match uniqueGroupName fuel r (name g) 0 (name g) with
    | None => None
    | Some n => Some (false, withSubGroup file r n (storedGroup g))
    end.
Proof.
  intros Hv. unfold appendGroup. rewrite Hv.
  rewrite appendGroup_buffers. reflexivity.
Qed.



Lemma lookup_app_None {A : Type} (k : string) (l l' : list (string * A)) :
  lookup k l = None -> lookup k (l ++ l') = lookup k l'.
Proof.
  induction l as [|[k' a] l IH]; [reflexivity|].
  cbn [lookup app]. destruct (String.eqb k k'); [discriminate|exact IH].
Qed.

Lemma lookup_app_Some {A : Type} (k : string) (l l' : list (string * A)) a :
  lookup k l = Some a -> lookup k (l ++ l') = Some a.
Proof.
  induction l as [|[k' b] l IH]; [discriminate|].
  cbn [lookup app]. destruct (String.eqb k k'); [easy|exact IH].
Qed.

Lemma lookup_snoc_other {A : Type} (k n : string) (l : list (string * A)) a :
  k <> n -> lookup k (l ++ [(n, a)]) = lookup k l.
Proof.
  intros Hk. induction l as [|[k' b] l IH].
  - cbn [lookup app]. destruct (String.eqb_spec k n); [contradiction|reflexivity].
  - cbn [lookup app]. destruct (String.eqb k k'); [reflexivity|exact IH].
Qed.

(** Persisting a group on faces into a store whose results group has no
    sub-group of its name succeeds at once, whatever the bound on the naming
    loop: the sub-group is added under the name of the group, the markers
    and the attributes of the store are kept, and so is every sub-group the
    store had. *)
Theorem persist_adds_group (fuel : nat) (file : HdfFile) (r : HdfResults)
  (g : DatasetGroup) :
  results file = Some r ->
  isOnVertices g = false ->
  pathExists r (name g) = false ->
  exists file' r',
    persist fuel (Some (Some file)) g = Some (false, Some (Some file')) /\
    root_dsets file' = root_dsets file /\
    results file' = Some r' /\
    r_attributes r' = r_attributes r /\
    map fst (r_groups r') = map fst (r_groups r) ++ [name g] /\
    lookup (name g) (r_groups r') = Some (storedGroup g) /\
    forall n, n <> name g -> lookup n (r_groups r') = lookup n (r_groups r).
Proof.
  intros Hr Hv Hfree.
  exists (withSubGroup file r (name g) (storedGroup g)).
  exists {| r_attributes := r_attributes r;
            r_groups := r_groups r ++ [(name g, storedGroup g)] |}.
  split.
  - unfold persist, addToHDF5File. rewrite Hr.
    rewrite (@appendGroup_on_faces fuel file g r Hv).
    rewrite (uniqueGroupName_free fuel _ _ Hfree). reflexivity.
  - cbn [withSubGroup root_dsets results r_attributes r_groups].
    split; [reflexivity|]. split; [reflexivity|]. split; [reflexivity|].
    split; [rewrite map_app; reflexivity|]. split.
    + unfold pathExists in Hfree.
      destruct (lookup (name g) (r_groups r)) eqn:E; [discriminate|].
      rewrite (@lookup_app_None _ _ _ [(name g, storedGroup g)] E). cbn [lookup].
      now rewrite String.eqb_refl.
    + intros n Hn. now apply lookup_snoc_other.
Qed.

Lemma persist_adds_group_witness :
  exists file' r',
    persist 0
      (Some (Some (Inputs.store_of
                     [("Velocity"%string,
                       Inputs.sub_group (Some "DATASET VECTOR"%string) [] [])])))
      Inputs.depth_group = Some (false, Some (Some file')) /\
    results file' = Some r' /\
    map fst (r_groups r') = ["Velocity"; "Depth"]%string.
Proof.
  destruct (@persist_adds_group 0
              (Inputs.store_of
                 [("Velocity"%string,
                   Inputs.sub_group (Some "DATASET VECTOR"%string) [] [])])
              {| r_attributes := [];
                 r_groups := [("Velocity"%string,
                               Inputs.sub_group (Some "DATASET VECTOR"%string)
                                 [] [])] |}
              Inputs.depth_group eq_refl eq_refl eq_refl)
    as (file' & r' & Hp & _ & Hr & _ & Hn & _).
  exists file', r'. split; [exact Hp|]. split; [exact Hr|]. exact Hn.
Defined.

(** ** Persisting and reading back *)








Section RoundTrip.

Context {U : Utils}.



End RoundTrip.


(** ** The load as a whole *)

Lemma createMesh_facesCount cells half :
  facesCount (createMesh cells half) = List.length cells.
Proof.
  destruct (createMesh_faces half cells) as [_ Hf].
  symmetry. exact (Forall2_length Hf).
Qed.

Section LoadWhole.

Context {U : Utils}.

Lemma parseCADPTS_lines_length lines :
  forall cells cells',
    parseCADPTS_lines lines cells = Ok cells' ->
    List.length cells' = (List.length cells + List.length lines)%nat.
Proof.
  induction lines as [|line rest IH]; intros cells cells';
    cbn [parseCADPTS_lines].
  - intros H. injection H as <-. simpl. lia.
  - intros H. apply bind_Ok in H. destruct H as (cc & _ & H).
    apply IH in H. rewrite H, length_app. simpl. lia.
Qed.

(** The steps of the mandatory part of a load that succeeded. *)
Lemma load_geometry_steps dir mDatFileName mesh elevations :
  load_geometry dir mDatFileName = Ok (mesh, elevations) ->
  exists cadpts fplain cells0 cells size bed,
    CADPTS_DAT dir = Some cadpts /\
    FPLAIN_DAT dir = Some fplain /\
    parseCADPTS_lines cadpts [] = Ok cells0 /\
    parseFPLAIN_lines fplain [] cells0 = Ok (elevations, cells) /\
    calcCellSize cells = Ok size /\
    mesh = push_group
             (createMesh cells (Double.div size (Double.of_Z 2))) bed /\
    List.length elevations = List.length cells.
Proof.
  unfold load_geometry. intros H.
  apply bind_Ok in H. destruct H as (cells0 & Hc & H).
  apply bind_Ok in H. destruct H as ([el cells] & Hf & H).
  apply bind_Ok in H. destruct H as (size & Hs & H).
  apply bind_Ok in H. destruct H as (m & Hm & H).
  injection H as -> ->.
  unfold parseCADPTSFile in Hc. destruct (CADPTS_DAT dir) as [cadpts|];
    [|discriminate].
  unfold parseFPLAINFile in Hf. destruct (FPLAIN_DAT dir) as [fplain|];
    [|discriminate].
  apply addStaticDataset_Ok in Hm.
  destruct Hm as (Hlen & bed & d & -> & _).
  exists cadpts, fplain, cells0, cells, size, bed.
  repeat split; try assumption.
  rewrite Hlen. apply createMesh_facesCount.
Qed.

Lemma createMesh_vertices_bound cells half :
  (List.length (vertices (createMesh cells half)) <= 4 * List.length cells)%nat.
Proof.
  rewrite (proj1 (createMesh_faces half cells)), <- (corners_length cells half).
  exact (first_occurrences_length (corners cells half) []).
Qed.

(** The mesh of a successful load has one face per line of the file of the
    cell centres, which is not empty; the connectivity file has as many
    lines; there are at most four vertices per face; the status is the one
    of success. *)
Theorem load_counts (dir : Directory) (resultsFile : string)
  (mesh : MemoryMesh) (status : MDAL_Status) :
  load dir resultsFile = Ok (Some mesh, status) ->
  status = Status_None /\
  exists cadpts fplain,
    CADPTS_DAT dir = Some cadpts /\
    FPLAIN_DAT dir = Some fplain /\
    (0 < List.length cadpts)%nat /\
    List.length fplain = List.length cadpts /\
    facesCount mesh = List.length cadpts /\
    List.length (faces mesh) = List.length cadpts /\
    verticesCount mesh = List.length (vertices mesh) /\
    (List.length (vertices mesh) <= 4 * List.length cadpts)%nat.
Proof.
  intros H. pose proof (proj1 (load_Ok _ _ _ _) H) as [_ ->].
  split; [reflexivity|].
  apply load_Ok_parts in H. destruct H as (mesh0 & elevations & Hg & Happ).
  apply load_geometry_steps in Hg.
  destruct Hg as (cadpts & fplain & cells0 & cells & size & bed
                  & Hc & Hf & Hp & Hq & Hs & -> & Hlen).
  destruct Happ as (Hvc & Hfc & Hfs & Hvs & _).
  cbn [push_group verticesCount facesCount faces vertices] in *.
  pose proof (parseCADPTS_lines_length _ _ Hp) as Hl0. cbn in Hl0.
  pose proof (parseFPLAIN_lines_elevations _ _ _ Hq) as He.
  pose proof (parseFPLAIN_lines_keeps _ _ _ Hq) as (Hid & _).
  assert (List.length cells = List.length cells0) as Hl1
    by (rewrite <- (length_map id cells), Hid; apply length_map).
  cbn [app] in He. rewrite He, length_map in Hlen.
  exists cadpts, fplain. split; [exact Hc|]. split; [exact Hf|].
  assert (0 < List.length cells)%nat as Hpos.
  { destruct cells; [discriminate Hs | simpl; lia]. }
  split; [lia|]. split; [lia|].
  rewrite Hfc, Hfs, Hvc, Hvs.
  pose proof (createMesh_facesCount cells (Double.div size (Double.of_Z 2)))
    as Hfc0.
  pose proof (createMesh_vertices_bound cells (Double.div size (Double.of_Z 2)))
    as Hvb.
  cbn [createMesh facesCount faces verticesCount vertices] in *.
  repeat split; lia.
Qed.

(** The geometry of a loaded mesh is decided by the file of the cell centres
    and the connectivity file alone: two successful loads from directories
    that agree on these two files give the same faces and the same vertices,
    whatever the store, the text files of results and the name of the main
    file are. *)
Theorem load_geometry_from_two_files (dir dir' : Directory)
  (resultsFile resultsFile' : string) (mesh mesh' : MemoryMesh) :
  CADPTS_DAT dir = CADPTS_DAT dir' ->
  FPLAIN_DAT dir = FPLAIN_DAT dir' ->
  load dir resultsFile = Ok (Some mesh, Status_None) ->
  load dir' resultsFile' = Ok (Some mesh', Status_None) ->
  faces mesh = faces mesh' /\
  vertices mesh = vertices mesh' /\
  facesCount mesh = facesCount mesh' /\
  verticesCount mesh = verticesCount mesh'.
Proof.
  intros Ec Ef H H'.
  apply load_Ok_parts in H. destruct H as (m0 & el & Hg & Happ).
  apply load_Ok_parts in H'. destruct H' as (m0' & el' & Hg' & Happ').
  apply load_geometry_steps in Hg, Hg'.
  destruct Hg as (cadpts & fplain & cells0 & cells & size & bed
                  & Hc & Hf & Hp & Hq & Hs & -> & _).
  destruct Hg' as (cadpts' & fplain' & cells0' & cells' & size' & bed'
                   & Hc' & Hf' & Hp' & Hq' & Hs' & -> & _).
  rewrite Ec, Hc' in Hc. injection Hc as <-.
  rewrite Ef, Hf' in Hf. injection Hf as <-.
  rewrite Hp' in Hp. injection Hp as <-.
  rewrite Hq' in Hq. injection Hq as <- <-.
  rewrite Hs' in Hs. injection Hs as <-.
  destruct Happ as (Hvc & Hfc & Hfs & Hvs & _).
  destruct Happ' as (Hvc' & Hfc' & Hfs' & Hvs' & _).
  cbn [push_group verticesCount facesCount faces vertices] in *.
  repeat split; congruence.
Qed.

End LoadWhole.

Lemma load_counts_witness :
  exists mesh,
    load (U := Sample.utils) Inputs.geometry "CADPTS.DAT"
      = Ok (Some mesh, Status_None) /\
    facesCount mesh = 2%nat.
Proof.
  assert (exists mesh, load (U := Sample.utils) Inputs.geometry "CADPTS.DAT"
                       = Ok (Some mesh, Status_None)) as [mesh H]
    by (eexists; run).
  exists mesh. split; [exact H|].
  destruct (load_counts (U := Sample.utils) _ _ H)
    as (_ & cadpts & fplain & Hc & _ & _ & _ & Hfc & _).
  rewrite Hfc. injection Hc as <-. reflexivity.
Defined.

Lemma load_geometry_from_two_files_witness :
  exists mesh mesh',
    load (U := Sample.utils) Inputs.geometry "CADPTS.DAT"
      = Ok (Some mesh, Status_None) /\
    load (U := Sample.utils) (Inputs.with_store Inputs.store_partial)
      "FPLAIN.DAT" = Ok (Some mesh', Status_None) /\
    datasetGroups mesh <> datasetGroups mesh' /\
    faces mesh = faces mesh' /\ vertices mesh = vertices mesh'.
Proof.
  assert (exists mesh, load (U := Sample.utils) Inputs.geometry "CADPTS.DAT"
                       = Ok (Some mesh, Status_None)
                       /\ List.length (datasetGroups mesh) = 1%nat)
    as (mesh & H & Hn) by (eexists; split; run).
  assert (exists mesh', load (U := Sample.utils)
                          (Inputs.with_store Inputs.store_partial) "FPLAIN.DAT"
                        = Ok (Some mesh', Status_None)
                        /\ List.length (datasetGroups mesh') = 2%nat)
    as (mesh' & H' & Hn') by (eexists; split; run).
  exists mesh, mesh'. split; [exact H|]. split; [exact H'|].
  split; [congruence|].
  destruct (@load_geometry_from_two_files Sample.utils Inputs.geometry
              (Inputs.with_store Inputs.store_partial) _ _ _ _
              eq_refl eq_refl H H') as (Hf & Hv & _).
  split; assumption.
Defined.

(** ** The statuses of a load *)

Lemma throws_bind {A B : Type} (P : MDAL_Status -> Prop)
  (c : outcome A) (k : A -> outcome B) :
  throws_only P c -> (forall a, c = Ok a -> throws_only P (k a)) ->
  throws_only P (bind c k).
Proof.
  intros Hc Hk e. destruct c as [a|e'| |]; cbn [bind]; intros H;
    try discriminate H.
  - exact (Hk a eq_refl e H).
  - injection H as <-. exact (Hc e' eq_refl).
Qed.

Lemma throws_Ok {A : Type} (P : MDAL_Status -> Prop) (a : A) :
  throws_only P (Ok a).
Proof. intros e H. discriminate H. Qed.

Lemma throws_Undefined {A : Type} (P : MDAL_Status -> Prop) :
  throws_only P (@Undefined A).
Proof. intros e H. discriminate H. Qed.

Lemma throws_AssertFailed {A : Type} (P : MDAL_Status -> Prop) :
  throws_only P (@AssertFailed A).
Proof. intros e H. discriminate H. Qed.

Lemma throws_Throw {A : Type} (P : MDAL_Status -> Prop) e :
  P e -> throws_only P (@Throw A e).
Proof. intros HP e' H. injection H as <-. exact HP. Qed.

Lemma throws_weaken {A : Type} (P Q : MDAL_Status -> Prop) (c : outcome A) :
  (forall e, P e -> Q e) -> throws_only P c -> throws_only Q c.
Proof. intros HPQ Hc e H. apply HPQ, Hc, H. Qed.

Lemma throws_at_index {A : Type} P (v : list A) i :
  throws_only P (at_index v i).
Proof. unfold at_index. destruct (nth_error v i); intros e H; discriminate H. Qed.

Lemma throws_set_index {A : Type} P (v : list A) i a :
  throws_only P (set_index v i a).
Proof.
  unfold set_index. destruct (i <? List.length v)%nat;
    intros e H; discriminate H.
Qed.

Ltac throws :=
  repeat first
    [ apply throws_Ok | apply throws_Undefined | apply throws_AssertFailed
    | apply throws_at_index | apply throws_set_index
    | apply throws_Throw; first [ reflexivity | left; reflexivity
                                | right; reflexivity ]
    | apply throws_bind; [| intros ? _]
    | match goal with
      | |- throws_only _ (if ?b then _ else _) => destruct b
      | |- throws_only _ (let 'pair _ _ := ?p in _) => destruct p
      end ].

Section Statuses.

Context {U : Utils}.

Lemma throws_parseCADPTS_lines lines cells :
  throws_only (fun e => e = Err_UnknownFormat) (parseCADPTS_lines lines cells).
Proof.
  revert cells. induction lines as [|line rest IH]; intros cells;
    cbn [parseCADPTS_lines]; [throws|].
  apply throws_bind; [unfold parseCADPTS_line; throws | intros cc _; apply IH].
Qed.

Lemma throws_parseFPLAIN_conn P lineParts cc_i js cells :
  throws_only P (parseFPLAIN_conn lineParts cc_i js cells).
Proof.
  revert cells. induction js as [|j js IH]; intros cells;
    cbn [parseFPLAIN_conn]; [throws|].
  unfold int_pred. throws. apply IH.
Qed.

Lemma throws_parseFPLAIN_lines lines elevations cells :
  throws_only (fun e => e = Err_UnknownFormat)
    (parseFPLAIN_lines lines elevations cells).
Proof.
  revert elevations cells. induction lines as [|line rest IH];
    intros elevations cells; cbn [parseFPLAIN_lines]; [throws|].
  destruct (negb _); [throws|].
  apply throws_bind; [apply throws_parseFPLAIN_conn | intros c _; apply IH].
Qed.

Lemma throws_calcCellSize_slots P cells ci js :
  match calcCellSize_slots cells ci js with
  | Some r => throws_only P r
  | None => True
  end.
Proof.
  induction js as [|j js IH]; cbn [calcCellSize_slots]; [exact I|].
  unfold calcCellSize_slot at 1.
  destruct (nth_error (conn ci) 0) as [idx|]; [|throws].
  destruct (idx >? -1); [throws | exact IH].
Qed.

Lemma throws_calcCellSize_from cells rest :
  throws_only (fun e => e = Err_IncompatibleMesh) (calcCellSize_from cells rest).
Proof.
  induction rest as [|ci rest IH]; cbn [calcCellSize_from]; [throws|].
  pose proof (throws_calcCellSize_slots
                (fun e => e = Err_IncompatibleMesh) cells ci (seq 0 4)) as H.
  destruct (calcCellSize_slots cells ci (seq 0 4)); [exact H | exact IH].
Qed.

Lemma throws_addStaticDataset P mesh vals groupName datFileName :
  throws_only P (addStaticDataset mesh vals groupName datFileName).
Proof. unfold addStaticDataset. throws. Qed.

Lemma throws_timdep_lines nVertexs elevations lines s :
  throws_only contentError (timdep_lines nVertexs elevations lines s).
Proof.
  unfold contentError.
  revert s. induction lines as [|line rest IH]; intros s;
    cbn [timdep_lines]; [throws|].
  apply throws_bind; [| intros s' _; apply IH].
  unfold timdep_line, timdep_record.
  destruct (_ =? 1)%nat; [throws|].
  destruct (_ || _); [|throws].
  destruct (depthDataset s), (flowDataset s), (waterLevelDataset s); throws.
Qed.

Lemma throws_parseTIMDEPFile dir mesh datFileName elevations :
  throws_only contentError (parseTIMDEPFile dir mesh datFileName elevations).
Proof.
  unfold parseTIMDEPFile. destruct (TIMDEP_OUT dir); [|throws].
  apply throws_bind; [apply throws_timdep_lines | intros; throws].
Qed.

Lemma throws_depth_lines nFaces elevations lines k maxDepth maxWaterLevel :
  throws_only contentError
    (depth_lines nFaces elevations lines k maxDepth maxWaterLevel).
Proof.
  unfold contentError.
  revert k maxDepth maxWaterLevel. induction lines as [|line rest IH];
    intros k maxDepth maxWaterLevel; cbn [depth_lines]; [throws|].
  destruct (k =? nFaces)%nat; [throws|].
  destruct (negb (_ =? 4)%nat); [throws|].
  throws. apply IH.
Qed.

Lemma throws_parseDEPTHFile dir mesh datFileName elevations :
  throws_only contentError (parseDEPTHFile dir mesh datFileName elevations).
Proof.
  unfold parseDEPTHFile. destruct (DEPTH_OUT dir); [|throws].
  apply throws_bind; [apply throws_depth_lines|].
  intros [maxDepth maxWaterLevel] _.
  apply throws_bind; [apply throws_addStaticDataset|].
  intros; apply throws_addStaticDataset.
Qed.

Lemma throws_velfp_lines nFaces lines k maxVel :
  throws_only contentError (velfp_lines nFaces lines k maxVel).
Proof.
  unfold contentError.
  revert k maxVel. induction lines as [|line rest IH]; intros k maxVel;
    cbn [velfp_lines]; [throws|].
  destruct (k =? nFaces)%nat; [throws|].
  destruct (negb (_ =? 4)%nat); [throws|].
  throws. apply IH.
Qed.

Lemma throws_veloc_lines nFaces lines k maxVel :
  throws_only contentError (veloc_lines nFaces lines k maxVel).
Proof.
  unfold contentError.
  revert k maxVel. induction lines as [|line rest IH]; intros k maxVel;
    cbn [veloc_lines]; [throws|].
  destruct (k =? nFaces)%nat; [throws|].
  destruct (negb (_ =? 4)%nat); [throws|].
  throws. apply IH.
Qed.

Lemma throws_parseVELFPVELOCFile dir mesh datFileName :
  throws_only contentError (parseVELFPVELOCFile dir mesh datFileName).
Proof.
  unfold parseVELFPVELOCFile. destruct (VELFP_OUT dir); [|throws].
  apply throws_bind; [apply throws_velfp_lines|]. intros maxVel _.
  destruct (VELOC_OUT dir); [|throws].
  apply throws_bind; [apply throws_veloc_lines|].
  intros; apply throws_addStaticDataset.
Qed.

Lemma throws_parseOUTDatasets dir mesh datFileName elevations :
  throws_only contentError (parseOUTDatasets dir mesh datFileName elevations).
Proof.
  unfold parseOUTDatasets.
  apply throws_bind; [apply throws_parseTIMDEPFile|]. intros m1 _.
  apply throws_bind; [apply throws_parseDEPTHFile|]. intros m2 _.
  apply throws_parseVELFPVELOCFile.
Qed.

Lemma throws_load_try dir mDatFileName :
  throws_only
    (fun e => (e = Err_FileNotFound /\ canReadMesh dir = false)
              \/ contentError e)
    (load_try dir mDatFileName).
Proof.
  unfold load_try.
  apply throws_bind.
  { unfold parseCADPTSFile, canReadMesh.
    destruct (CADPTS_DAT dir) as [lines|].
    - eapply throws_weaken; [|apply throws_parseCADPTS_lines].
      intros e ->. right. left. reflexivity.
    - apply throws_Throw. left. split; reflexivity. }
  intros cells0 Hc.
  apply throws_bind.
  { unfold parseFPLAINFile, canReadMesh.
    destruct (FPLAIN_DAT dir) as [lines|].
    - eapply throws_weaken; [|apply throws_parseFPLAIN_lines].
      intros e ->. right. left. reflexivity.
    - apply throws_Throw. left. split; [reflexivity|].
      destruct (CADPTS_DAT dir); reflexivity. }
  intros [elevations cells] _.
  apply throws_bind.
  { eapply throws_weaken; [|apply throws_calcCellSize_from].
    intros e ->. right. right. reflexivity. }
  intros size _.
  apply throws_bind; [apply throws_addStaticDataset|]. intros mesh _.
  cbv zeta.
  destruct (parseHDF5Datasets mesh (fileNameFromDir mDatFileName "TIMDEP.HDF5")
              (TIMDEP_HDF5 dir))
    as [err mesh'].
  destruct err; [|apply throws_Ok].
  eapply throws_weaken; [|apply throws_parseOUTDatasets].
  intros e H. right. exact H.
Qed.

(** A load that gives no mesh reports that a file was not found, that a
    format is unknown or that the mesh is incompatible, and never success or
    invalid data.  It reports a file not found only when one of the two
    geometry files is absent; a load that gives a mesh reports success. *)
Theorem load_failure_status (dir : Directory) (resultsFile : string)
  (mesh : option MemoryMesh) (status : MDAL_Status) :
  load dir resultsFile = Ok (mesh, status) ->
  (mesh = None <-> status <> Status_None) /\
  (mesh = None -> thrown status) /\
  status <> Err_InvalidData /\
  (status = Err_FileNotFound -> canReadMesh dir = false).
Proof.
  unfold load. intros H.
  pose proof (@throws_load_try dir resultsFile) as Ht.
  destruct (load_try dir resultsFile) as [m|e| |]; try discriminate H.
  - injection H as <- <-. repeat split; try discriminate.
    intros Hn. exfalso. apply Hn. reflexivity.
  - injection H as <- <-. specialize (Ht e eq_refl).
    assert (thrown e) as Hth.
    { unfold thrown, contentError in *.
      destruct Ht as [[-> _]|[->| ->]]; auto. }
    assert (e <> Status_None /\ e <> Err_InvalidData) as [Hn Hi].
    { unfold thrown in Hth.
      destruct Hth as [->|[->| ->]]; split; discriminate. }
    split; [split; [intros _; exact Hn | reflexivity]|].
    split; [intros _; exact Hth|]. split; [exact Hi|].
    intros ->. destruct Ht as [[_ Hc]|[Hc|Hc]]; [exact Hc| |]; discriminate Hc.
Qed.

(** When one of the two geometry files is absent the load gives no mesh and
    reports a file not found, or an unknown format when the file of the
    cell centres is there with a line that has not three fields. *)
Theorem load_without_geometry_file (dir : Directory) (resultsFile : string) :
  canReadMesh dir = false ->
  load dir resultsFile = Ok (None, Err_FileNotFound) \/
  (load dir resultsFile = Ok (None, Err_UnknownFormat) /\
   exists lines, CADPTS_DAT dir = Some lines /\
     Exists (fun line => List.length (split (rtrim line)) <> 3%nat) lines).
Proof.
  unfold canReadMesh, load, load_try, parseCADPTSFile, parseFPLAINFile.
  destruct (CADPTS_DAT dir) as [lines|]; [|intros _; left; reflexivity].
  destruct (FPLAIN_DAT dir) as [fplain|]; [discriminate|]. intros _.
  assert (forall cells,
    (exists cells', parseCADPTS_lines lines cells = Ok cells') \/
    (parseCADPTS_lines lines cells = Throw Err_UnknownFormat /\
     Exists (fun line => List.length (split (rtrim line)) <> 3%nat) lines))
    as Hl.
  { induction lines as [|line rest IH]; intros cells;
      cbn [parseCADPTS_lines]; [left; eexists; reflexivity|].
    unfold parseCADPTS_line.
    destruct (List.length (split (rtrim line)) =? 3)%nat eqn:E;
      cbn [negb bind].
    - destruct (IH (cells ++ [{| id := size_t_sub (toSizeT (field (split (rtrim line)) 1)) 1;
                                 x := toDouble (field (split (rtrim line)) 1);
                                 y := toDouble (field (split (rtrim line)) 2);
                                 conn := repeat 0 4 |}]))
        as [Hok|[Hthrow Hex]]; [left; exact Hok|].
      right. split; [exact Hthrow | apply Exists_cons_tl; exact Hex].
    - right. split; [reflexivity|]. apply Exists_cons_hd.
      apply Nat.eqb_neq. exact E. }
  destruct (Hl []) as [[cells' ->]|[-> Hex]]; cbn [bind].
  - left. reflexivity.
  - right. split; [reflexivity|]. exists lines. split; [reflexivity|exact Hex].
Qed.

End Statuses.

Lemma load_failure_status_witness :
  thrown Err_FileNotFound /\
  canReadMesh
    {| CADPTS_DAT := Some Inputs.cadpts; FPLAIN_DAT := None;
       TIMDEP_OUT := None; DEPTH_OUT := None; VELFP_OUT := None;
       VELOC_OUT := None; TIMDEP_HDF5 := None |} = false.
Proof.
  pose (dir := {| CADPTS_DAT := Some Inputs.cadpts; FPLAIN_DAT := None;
                  TIMDEP_OUT := None; DEPTH_OUT := None; VELFP_OUT := None;
                  VELOC_OUT := None; TIMDEP_HDF5 := None |}).
  assert (load (U := Sample.utils) dir "CADPTS.DAT"
          = Ok (None, Err_FileNotFound)) as H by run.
  destruct (load_failure_status (U := Sample.utils) dir "CADPTS.DAT" H)
    as (_ & Ht & _ & Hc).
  split; [exact (Ht eq_refl) | exact (Hc eq_refl)].
Defined.

Lemma load_without_geometry_file_witness :
  load (U := Sample.utils)
    {| CADPTS_DAT := Some ["1 0"%string]; FPLAIN_DAT := None;
       TIMDEP_OUT := None; DEPTH_OUT := None; VELFP_OUT := None;
       VELOC_OUT := None; TIMDEP_HDF5 := None |} "CADPTS.DAT"
    = Ok (None, Err_UnknownFormat).
Proof.
  pose (dir := {| CADPTS_DAT := Some ["1 0"%string]; FPLAIN_DAT := None;
                  TIMDEP_OUT := None; DEPTH_OUT := None; VELFP_OUT := None;
                  VELOC_OUT := None; TIMDEP_HDF5 := None |}).
  destruct (load_without_geometry_file (U := Sample.utils) dir "CADPTS.DAT"
              eq_refl) as [H|[H _]].
  - exfalso.
    assert (load (U := Sample.utils) dir "CADPTS.DAT"
            = Ok (None, Err_UnknownFormat)) as H' by run.
    rewrite H' in H. discriminate H.
  - exact H.
Defined.

(** ** Loading the datasets of a store into a mesh *)

Section LoadInto.

Context {U : Utils}.



End LoadInto.

(** ** A static dataset *)

(** Adding a static dataset fails on its assertion when the number of values
    is not the number of faces.  Otherwise it leaves the geometry as it is
    and adds one group at the end of the collection of the mesh: a scalar
    group on faces, with the given name and file name, holding one dataset
    at time zero whose values are the given ones, nothing of the fresh
    buffer being left. *)
Theorem addStaticDataset_outcome {U : Utils} (mesh : MemoryMesh)
  (vals : list double) (groupName datFileName : string) :
  (List.length vals <> facesCount mesh /\
   addStaticDataset mesh vals groupName datFileName = AssertFailed) \/
  (List.length vals = facesCount mesh /\
   exists g d,
     addStaticDataset mesh vals groupName datFileName = Ok (push_group mesh g) /\
     datasetGroups (push_group mesh g) = datasetGroups mesh ++ [g] /\
     faces (push_group mesh g) = faces mesh /\
     vertices (push_group mesh g) = vertices mesh /\
     uri g = datFileName /\ name g = groupName /\
     isOnVertices g = false /\ isScalar g = true /\
     datasets g = [d] /\ time d = Double.zero /\ values d = vals).
Proof.
  unfold addStaticDataset.
  change (valuesCount (newGroup mesh datFileName groupName false true))
    with (facesCount mesh).
  destruct (Nat.eqb_spec (List.length vals) (facesCount mesh)) as [E|E];
    cbn [negb]; [right | left; split; [exact E | reflexivity]].
  split; [exact E|]. do 2 eexists. split; [reflexivity|].
  cbn [withGroupStatistics push_dataset push_group newGroup withStatistics
       setValues newDataset uri name isOnVertices isScalar datasets time
       values datasetGroups faces vertices].
  do 9 (split; [reflexivity|]).
  change (memcpy (repeat freshValue (facesCount mesh)) vals = vals).
  unfold memcpy. rewrite skipn_all2 by (rewrite repeat_length; lia).
  apply app_nil_r.
Qed.
